(** * Water-level notebook of the eo-learn workshop: a shallow embedding

    The notebooks of the workshop define a handful of functions and
    [EOTask]s on top of numpy, scikit-image and eo-learn:

    - [calculate_valid_data_mask], [calculate_coverage],
      [AddValidDataCoverageTask], [ValidDataCoveragePredicate] and
      [WaterDetectionTask] (water-level notebook),
    - [OsmInputTask] (data-sources notebook).

    They are embedded here as Rocq functions.  Python floats are IEEE
    binary64 numbers ([spec_float] at precision 53), numpy arrays are a
    shape with the elements in row-major order, exceptions are an error
    result, and the in-place writes of the code are explicit state. *)

From Stdlib Require Import ZArith List Bool Lia.
From Stdlib Require Import Floats.SpecFloat.
From stdpp Require Import gmap strings list.

(** ** Exceptions *)

Inductive exn : Type :=
| ValueError
| IndexError
| KeyError
| TypeError
| ZeroDivisionError.

Inductive result (A : Type) : Type :=
| Ok (a : A)
| Raise (e : exn).

Arguments Ok {A} a.
Arguments Raise {A} e.

Definition bind {A B : Type} (r : result A) (k : A -> result B) : result B :=
  match r with
  | Ok a => k a
  | Raise e => Raise e
  end.

Notation "'let!' x ':=' r 'in' k" := (bind r (fun x => k))
  (at level 10, x name, r at level 100, k at level 200).

(** [dict[key]] of Python. *)
Definition getitem {V : Type} (d : gmap string V) (key : string) : result V :=
  match d !! key with
  | Some v => Ok v
  | None => Raise KeyError
  end.

(** ** Python floats: IEEE 754 binary64 *)

Definition float : Type := spec_float.

Module Float.
Definition prec : Z := 53%Z.
Definition emax : Z := 1024%Z.

(** [float(z)] for an integer below [2^53] in absolute value. *)
Definition of_int (z : Z) : float := binary_normalize prec emax z 0%Z false.

Definition zero : float := S754_zero false.
Definition one : float := of_int 1%Z.
Definition neg_one : float := of_int (-1)%Z.

Definition sub : float -> float -> float := SFsub prec emax.
Definition div : float -> float -> float := SFdiv prec emax.
Definition ltb : float -> float -> bool := SFltb.
Definition leb : float -> float -> bool := SFleb.
Definition eqb : float -> float -> bool := SFeqb.
Definition gtb (x y : float) : bool := ltb y x.

Definition isnan (x : float) : bool :=
  match x with S754_nan => true | _ => false end.

(** [x != 0], the truth value of a float. *)
Definition nonzero (x : float) : bool :=
  match x with S754_zero _ => false | _ => true end.
End Float.

(** [a / b] on Python integers: the quotient as a float, or
    [ZeroDivisionError]. *)
Definition truediv (a b : Z) : result float :=
  if (b =? 0)%Z then Raise ZeroDivisionError
  else Ok (Float.div (Float.of_int a) (Float.of_int b)).

(** ** numpy arrays *)

Record ndarray (A : Type) : Type := mk_ndarray {
  shape : list nat;
  flat : list A
}.

Arguments mk_ndarray {A} shape flat.
Arguments shape {A} _.
Arguments flat {A} _.

Definition prod_shape (s : list nat) : nat := fold_right Nat.mul 1 s.

(** An array holds as many elements as its shape says. *)
Definition well_formed {A : Type} (a : ndarray A) : Prop :=
  length (flat a) = prod_shape (shape a).

Definition ndim {A : Type} (a : ndarray A) : nat := length (shape a).

(** Truth value of an element, as [astype(bool)] and [count_nonzero]
    read it. *)
Class Truthy (A : Type) : Type := truthy : A -> bool.

#[global] Instance truthy_bool : Truthy bool := fun b => b.
#[global] Instance truthy_Z : Truthy Z := fun z => negb (z =? 0)%Z.
#[global] Instance truthy_float : Truthy float := Float.nonzero.

Definition np_size {A : Type} (a : ndarray A) : Z :=
  Z.of_nat (prod_shape (shape a)).

Definition count_true {A : Type} `{Truthy A} (l : list A) : nat :=
  length (List.filter truthy l).

Definition np_count_nonzero {A : Type} `{Truthy A} (a : ndarray A) : Z :=
  Z.of_nat (count_true (flat a)).

(** Element-wise map, shape kept ([a.astype(bool)], [~a], [a > x]). *)
Definition np_map {A B : Type} (f : A -> B) (a : ndarray A) : ndarray B :=
  mk_ndarray (shape a) (List.map f (flat a)).

Definition astype_bool {A : Type} `{Truthy A} (a : ndarray A) : ndarray bool :=
  np_map truthy a.

(** The [i]-th block of [k] elements. *)
Definition chunk {A : Type} (k i : nat) (l : list A) : list A :=
  take k (drop (i * k) l).

(** [a[i]] along the first axis. *)
Definition subarray {A : Type} (s : list nat) (l : list A) (i : nat)
  : ndarray A :=
  mk_ndarray s (chunk (prod_shape s) i l).

(** [for x in a]: the sub-arrays along the first axis. *)
Definition np_iter {A : Type} (a : ndarray A) : result (list (ndarray A)) :=
  match shape a with
  | [] => Raise TypeError
  | n :: s => Ok (List.map (subarray s (flat a)) (seq 0 n))
  end.

(** [np.asarray([a0, a1, ...])] of arrays of one shape. *)
Definition np_asarray {A : Type} (l : list (ndarray A)) : ndarray A :=
  match l with
  | [] => mk_ndarray [0] []
  | a :: _ => mk_ndarray (length l :: shape a) (List.concat (List.map flat l))
  end.

(** [a[..., np.newaxis]]. *)
Definition newaxis {A : Type} (a : ndarray A) : ndarray A :=
  mk_ndarray (shape a ++ [1]) (flat a).

(** *** Views along the last axis: [a[..., 0]] *)

(** Every [c]-th element of [l], [n] of them: the elements a view
    [a[..., 0]] of an array with last dimension [c] refers to. *)
Fixpoint heads {A : Type} (c n : nat) (l : list A) : list A :=
  match n with
  | O => []
  | S n' =>
      match l with
      | [] => []
      | x :: _ => x :: heads c n' (drop c l)
      end
  end.

(** Writing [v] through such a view. *)
Fixpoint set_heads {A : Type} (c : nat) (v l : list A) : list A :=
  match v with
  | [] => l
  | x :: v' =>
      match l with
      | [] => []
      | _ :: tl => (x :: take (c - 1) tl) ++ set_heads c v' (drop c l)
      end
  end.

(** A shape split into its leading dimensions and the last one. *)
Definition split_last (s : list nat) : option (list nat * nat) :=
  match rev s with
  | [] => None
  | c :: r => Some (rev r, c)
  end.

(** [a[..., 0]]: [IndexError] on a 0-d array and on an empty last axis. *)
Definition index_last0 {A : Type} (a : ndarray A) : result (ndarray A) :=
  match split_last (shape a) with
  | None => Raise IndexError
  | Some (s, c) =>
      if (c =? 0) then Raise IndexError
      else Ok (mk_ndarray s (heads c (prod_shape s) (flat a)))
  end.

(** The array [a] after the view [a[..., 0]] was overwritten with [v]. *)
Definition set_last0 {A : Type} (a v : ndarray A) : ndarray A :=
  match split_last (shape a) with
  | None => a
  | Some (_, c) => mk_ndarray (shape a) (set_heads c (flat v) (flat a))
  end.

(** *** Broadcasting *)

(** One dimension of the broadcast shape: equal sizes, or one of them 1. *)
Definition broadcast_dim (m n : nat) : result nat :=
  if (m =? n) then Ok m
  else if (m =? 1) then Ok n
  else if (n =? 1) then Ok m
  else Raise ValueError.

(** Shapes of equal rank, dimension by dimension. *)
Fixpoint broadcast_aligned (s1 s2 : list nat) : result (list nat) :=
  match s1, s2 with
  | [], [] => Ok []
  | m :: r1, n :: r2 =>
      let! d := broadcast_dim m n in
      let! r := broadcast_aligned r1 r2 in
      Ok (d :: r)
  | _, _ => Raise ValueError
  end.

(** The shorter shape is padded with ones on the left. *)
Definition pad_shape (n : nat) (s : list nat) : list nat :=
  repeat 1 (n - length s) ++ s.

Definition broadcast_shapes (s1 s2 : list nat) : result (list nat) :=
  let n := Nat.max (length s1) (length s2) in
  broadcast_aligned (pad_shape n s1) (pad_shape n s2).

(** Elements of the broadcast of [f] over two arrays whose (aligned)
    shapes are [s1] and [s2]: an axis of size 1 is repeated. *)
Fixpoint broadcast_flat {A B C : Type} (f : A -> B -> C)
    (s1 s2 : list nat) (d1 : list A) (d2 : list B) : list C :=
  match s1, s2 with
  | m :: r1, n :: r2 =>
      flat_map
        (fun i =>
           broadcast_flat f r1 r2
             (chunk (prod_shape r1) (if (m =? 1) then O else i) d1)
             (chunk (prod_shape r2) (if (n =? 1) then O else i) d2))
        (seq 0 (if (m =? 1) then n else m))
  | _, _ =>
      match d1, d2 with
      | a :: _, b :: _ => [f a b]
      | _, _ => []
      end
  end.

(** A binary ufunc ([a * b], [a & b]): [ValueError] when the operands
    cannot be broadcast together. *)
Definition broadcast {A B C : Type} (f : A -> B -> C)
    (a : ndarray A) (b : ndarray B) : result (ndarray C) :=
  let! s := broadcast_shapes (shape a) (shape b) in
  let n := Nat.max (ndim a) (ndim b) in
  Ok (mk_ndarray s
        (broadcast_flat f (pad_shape n (shape a)) (pad_shape n (shape b))
           (flat a) (flat b))).

(** [b * v] of a boolean and an integer mask value. *)
Definition mul_bool_int (b : bool) (v : Z) : Z := if b then v else 0%Z.

(** *** [np.unique] and NaN *)

(** The test [np.unique] merges values with.  Up to numpy 1.20 every NaN
    is a value of its own; from 1.21 on ([equal_nan = true]) all NaNs
    count as one value. *)
Definition same_value (equal_nan : bool) (x y : float) : bool :=
  Float.eqb x y || (equal_nan && Float.isnan x && Float.isnan y).

Fixpoint count_unique (equal_nan : bool) (seen l : list float) : nat :=
  match l with
  | [] => O
  | x :: r =>
      if existsb (same_value equal_nan x) seen
      then count_unique equal_nan seen r
      else S (count_unique equal_nan (x :: seen) r)
  end.

(** [len(np.unique(a))]. *)
Definition len_unique (equal_nan : bool) (a : ndarray float) : nat :=
  count_unique equal_nan [] (flat a).

(** ** The EOPatch *)

Record BBox : Type := mk_BBox {
  min_x : float;
  min_y : float;
  max_x : float;
  max_y : float;
  crs : Z
}.

Record GeoDataFrame : Type := mk_GeoDataFrame {
  geometry : list (list (float * float));
  gdf_crs : Z
}.

(** The feature dictionaries the notebooks read and write, and the
    bounding box. *)
Record EOPatch : Type := mk_EOPatch {
  data : gmap string (ndarray float);
  mask : gmap string (ndarray Z);
  scalar : gmap string (ndarray float);
  mask_timeless : gmap string (ndarray Z);
  vector_timeless : gmap string GeoDataFrame;
  bbox : option BBox
}.

Definition with_data (p : EOPatch) (d : gmap string (ndarray float)) : EOPatch :=
  mk_EOPatch d (mask p) (scalar p) (mask_timeless p) (vector_timeless p) (bbox p).

Definition with_mask (p : EOPatch) (m : gmap string (ndarray Z)) : EOPatch :=
  mk_EOPatch (data p) m (scalar p) (mask_timeless p) (vector_timeless p) (bbox p).

Definition with_scalar (p : EOPatch) (s : gmap string (ndarray float)) : EOPatch :=
  mk_EOPatch (data p) (mask p) s (mask_timeless p) (vector_timeless p) (bbox p).

Definition with_vector_timeless (p : EOPatch) (v : gmap string GeoDataFrame)
  : EOPatch :=
  mk_EOPatch (data p) (mask p) (scalar p) (mask_timeless p) v (bbox p).

(** [eopatch[FeatureType.MASK, name] = value]: eo-learn refuses an array
    that is not 4-dimensional. *)
Definition setitem_mask (p : EOPatch) (name : string) (value : ndarray Z)
  : result EOPatch :=
  if (ndim value =? 4) then Ok (with_mask p (<[name := value]> (mask p)))
  else Raise ValueError.

(** [eopatch[FeatureType.SCALAR, name] = value]: 2-dimensional arrays only. *)
Definition setitem_scalar (p : EOPatch) (name : string) (value : ndarray float)
  : result EOPatch :=
  if (ndim value =? 2) then Ok (with_scalar p (<[name := value]> (scalar p)))
  else Raise ValueError.

(** How a task ends: it returns the patch, or an exception leaves the
    patch in the state reached so far. *)
Inductive outcome : Type :=
| Returned (p : EOPatch)
| Raised (e : exn) (p : EOPatch).

(** ** Validity mask and coverage *)

(** [not_cloud = ~eopatch.mask['CLM'].astype(np.bool)] and
    [is_data & not_cloud]. *)
Definition calculate_valid_data_mask (eopatch : EOPatch) : result (ndarray bool) :=
  let! is_data_arr := getitem (mask eopatch) "IS_DATA" in
  let is_data := astype_bool is_data_arr in
  let! clm := getitem (mask eopatch) "CLM" in
  let not_cloud := np_map negb (astype_bool clm) in
  broadcast andb is_data not_cloud.

(** [1.0 - np.count_nonzero(array) / np.size(array)]. *)
Definition calculate_coverage {A : Type} `{Truthy A} (array : ndarray A)
  : result float :=
  let! q := truediv (np_count_nonzero array) (np_size array) in
  Ok (Float.sub Float.one q).

Module ValidDataCoveragePredicate.
Record t : Type := init { threshold : float }.

(** [__call__]. *)
Definition call {A : Type} `{Truthy A} (self : t) (array : ndarray A)
  : result bool :=
  let! c := calculate_coverage array in
  Ok (Float.ltb c (threshold self)).
End ValidDataCoveragePredicate.

(** [cloud_coverage_threshold = 0.05]: the binary64 number next to 1/20. *)
Definition cloud_coverage_threshold : float :=
  Float.div (Float.of_int 5%Z) (Float.of_int 100%Z).

(** ** The coverage of every frame *)

(** [time, height, width, channels = valid_data.shape]. *)
Definition unpack4 (s : list nat) : result (nat * nat * nat * nat) :=
  match s with
  | [time; height; width; channels] => Ok (time, height, width, channels)
  | _ => Raise ValueError
  end.

(** [a.reshape(s)]: the same elements in the same order, [ValueError]
    when [s] asks for another number of elements. *)
Definition np_reshape {A : Type} (a : ndarray A) (s : list nat)
  : result (ndarray A) :=
  if (prod_shape s =? prod_shape (shape a)) then Ok (mk_ndarray s (flat a))
  else Raise ValueError.

(** [[f(x) for x in l]], stopping at the first exception. *)
Fixpoint map_result {A B : Type} (f : A -> result B) (l : list A)
  : result (list B) :=
  match l with
  | [] => Ok []
  | x :: rest =>
      let! y := f x in
      let! ys := map_result f rest in
      Ok (y :: ys)
  end.

(** The 1-d slice [arr[i, :, k]] of an array with [n] entries along axis 1
    and [R] elements behind each of them. *)
Definition lane {A : Type} (n R : nat) (l : list A) (i k : nat) : ndarray A :=
  mk_ndarray [n]
    (flat_map (fun j => take 1 (drop (i * n * R + j * R + k) l)) (seq 0 n)).

(** [np.apply_along_axis(func1d, 1, arr)] for a [func1d] that returns a
    number: [func1d] is applied to every slice along axis 1.  numpy raises
    [ValueError] when there is no axis 1 or no slice to start with. *)
Definition np_apply_along_axis1 {A : Type} (func1d : ndarray A -> result float)
    (arr : ndarray A) : result (ndarray float) :=
  match shape arr with
  | t :: n :: r =>
      let R := prod_shape r in
      if (t * R =? 0) then Raise ValueError
      else
        let! res :=
          map_result func1d
            (flat_map (fun i => List.map (lane n R (flat arr) i) (seq 0 R)) (seq 0 t)) in
        Ok (mk_ndarray (t :: r) res)
  | _ => Raise ValueError
  end.

(** [a[:, np.newaxis]]. *)
Definition newaxis1 {A : Type} (a : ndarray A) : result (ndarray A) :=
  match shape a with
  | [] => Raise IndexError
  | t :: r => Ok (mk_ndarray (t :: 1 :: r) (flat a))
  end.

Module AddValidDataCoverageTask.

Definition execute (eopatch : EOPatch) : outcome :=
  let computed :=
    let! valid_data := getitem (mask eopatch) "VALID_DATA" in
    let! dims := unpack4 (shape valid_data) in
    let '(time, height, width, channels) := dims in
    let! rows := np_reshape valid_data [time; height * width * channels] in
    let! coverage := np_apply_along_axis1 calculate_coverage rows in
    newaxis1 coverage in
  match computed with
  | Raise e => Raised e eopatch
  | Ok coverage =>
      match setitem_scalar eopatch "COVERAGE" coverage with
      | Raise e => Raised e eopatch
      | Ok eopatch' => Returned eopatch'
      end
  end.

End AddValidDataCoverageTask.

(** ** The coverage filter *)

(** [[idx for idx, img in enumerate(frames) if filter_func(img)]]. *)
Fixpoint filtered_indices {A : Type} (filter_func : ndarray A -> result bool)
    (idx : nat) (frames : list (ndarray A)) : result (list nat) :=
  match frames with
  | [] => Ok []
  | img :: rest =>
      let! keep := filter_func img in
      let! idxs := filtered_indices filter_func (S idx) rest in
      Ok (if keep then idx :: idxs else idxs)
  end.

(** [a[idxs]]: the frames of [a] at the given positions, in that order. *)
Definition np_take {A : Type} (a : ndarray A) (idxs : list nat) : ndarray A :=
  let s := tail (shape a) in
  mk_ndarray (length idxs :: s)
    (flat_map (fun i => chunk (prod_shape s) i (flat a)) idxs).

(** Modelled from the spec: [SimpleFilterTask] is a task of eo-learn, the
    notebook only builds it from the feature [VALID_DATA] and a
    [ValidDataCoveragePredicate].  Following section 4.3, the filter asks
    the predicate about every frame of the stack and keeps the frames it
    accepts, in their original order. *)
Definition remove_cloudy_scenes {A : Type} `{Truthy A}
    (predicate : ValidDataCoveragePredicate.t) (stack : ndarray A)
  : result (ndarray A) :=
  let! frames := np_iter stack in
  let! good_idxs :=
    filtered_indices (ValidDataCoveragePredicate.call predicate) 0 frames in
  Ok (np_take stack good_idxs).

(** ** Water detection *)

(** [ndwi[np.isnan(ndwi)] = -1], element by element. *)
Definition nan_to_neg_one (x : float) : float :=
  if Float.isnan x then Float.neg_one else x.

Module WaterDetectionTask.
Section Detector.

(** [skimage.filters.threshold_otsu]: the threshold of an image, or an
    exception (older releases refuse an image of a single value). *)
Variable threshold_otsu : ndarray float -> result float.

(** Whether [np.unique] merges NaNs (numpy 1.21 and later). *)
Variable equal_nan : bool.

(** [detect_water(ndwi)]: what [ndwi] holds afterwards (the function
    writes into its argument), and the mask it returns. *)
Definition detect_water (ndwi : ndarray float)
  : ndarray float * result (ndarray bool) :=
  let otsu_thr := Float.one in
  if (1 <? len_unique equal_nan ndwi) then
    let ndwi' := np_map nan_to_neg_one ndwi in
    (ndwi',
     let! otsu_thr := threshold_otsu ndwi' in
     Ok (np_map (fun x => Float.gtb x otsu_thr) ndwi'))
  else
    (ndwi, Ok (np_map (fun x => Float.gtb x otsu_thr) ndwi)).

(** [[self.detect_water(ndwi[...,0]) for ndwi in eopatch.data['NDWI']]]:
    [ndwi[...,0]] is a view, so what [detect_water] writes lands in the
    frame.  Returns the frames as they are left, and the masks. *)
Fixpoint detect_frames (frames : list (ndarray float))
  : list (ndarray float) * result (list (ndarray bool)) :=
  match frames with
  | [] => ([], Ok [])
  | ndwi :: rest =>
      match index_last0 ndwi with
      | Raise e => (ndwi :: rest, Raise e)
      | Ok view =>
          let (view', r) := detect_water view in
          let ndwi' := set_last0 ndwi view' in
          match r with
          | Raise e => (ndwi' :: rest, Raise e)
          | Ok water =>
              let (rest', rs) := detect_frames rest in
              (ndwi' :: rest', let! waters := rs in Ok (water :: waters))
          end
      end
  end.

(** [[np.count_nonzero(mask)/np.count_nonzero(nominal) for mask in
    water_masks]]. *)
Fixpoint water_level_list (nominal : ndarray Z) (masks : list (ndarray Z))
  : result (list float) :=
  match masks with
  | [] => Ok []
  | mask :: rest =>
      let! level := truediv (np_count_nonzero mask) (np_count_nonzero nominal) in
      let! levels := water_level_list nominal rest in
      Ok (level :: levels)
  end.

(** The statements of [execute] after the first one; they read the patch
    and write it only in the two assignments at the end. *)
Definition store_water (eopatch : EOPatch) (water_masks : ndarray bool)
  : outcome :=
  let computed :=
    let! nominal := getitem (mask_timeless eopatch) "NOMINAL_WATER" in
    let! water_masks := broadcast mul_bool_int (newaxis water_masks) nominal in
    let! masks := np_iter water_masks in
    let! levels := water_level_list nominal masks in
    Ok (water_masks, mk_ndarray [length levels] levels) in
  match computed with
  | Raise e => Raised e eopatch
  | Ok (water_masks, water_levels) =>
      match setitem_mask eopatch "WATER_MASK" water_masks with
      | Raise e => Raised e eopatch
      | Ok eopatch1 =>
          match setitem_scalar eopatch1 "WATER_LEVEL" (newaxis water_levels) with
          | Raise e => Raised e eopatch1
          | Ok eopatch2 => Returned eopatch2
          end
      end
  end.

Definition execute (eopatch : EOPatch) : outcome :=
  match getitem (data eopatch) "NDWI" with
  | Raise e => Raised e eopatch
  | Ok ndwi_stack =>
      match np_iter ndwi_stack with
      | Raise e => Raised e eopatch
      | Ok frames =>
          let (frames', r) := detect_frames frames in
          let written :=
            mk_ndarray (shape ndwi_stack) (List.concat (List.map flat frames')) in
          let eopatch' :=
            with_data eopatch (<["NDWI" := written]> (data eopatch)) in
          match r with
          | Raise e => Raised e eopatch'
          | Ok waters => store_water eopatch' (np_asarray waters)
          end
      end
  end.

End Detector.
End WaterDetectionTask.

(** ** OpenStreetMap input *)

Module OsmInputTask.
Section Overpass.

Variable Response : Type.

(** [self.api.get(query, verbosity='geom')]: the Overpass request. *)
Variable api_get : string -> result Response.

(** [bbox.transform(CRS.WGS84)]. *)
Variable transform_wgs84 : BBox -> BBox.

(** The text of [tuple([*ll_bounds.reverse()])] in the f-string. *)
Variable format_bounds : BBox -> string.

(** The clipping loop over [response['features']] and the conversion to
    a [GeoDataFrame] in the CRS of the patch. *)
Variable clip_features : bool -> BBox -> Z -> Response -> result GeoDataFrame.

Record t : Type := init {
  feature : string;
  query : string;
  polygonize : bool
}.

(** [execute]: how the task ends, and the requests it sent to the
    Overpass API on the way. *)
Definition execute (self : t) (eopatch : EOPatch) : outcome * list string :=
  match bbox eopatch with
  | None => (Raised ValueError eopatch, [])
  | Some box =>
      let ll_bounds := transform_wgs84 box in
      let request := (query self +:+ format_bounds ll_bounds)%string in
      match api_get request with
      | Raise e => (Raised e eopatch, [request])
      | Ok response =>
          match clip_features (polygonize self) ll_bounds (crs box) response with
          | Raise e => (Raised e eopatch, [request])
          | Ok gdf =>
              (Returned
                 (with_vector_timeless eopatch
                    (<[feature self := gdf]> (vector_timeless eopatch))),
               [request])
          end
      end
  end.

End Overpass.
End OsmInputTask.

(** * Notions used in the statements *)

(** An element after [ndwi[np.isnan(ndwi)] = -1]: unchanged, or a NaN that
    became -1. *)
Definition nan_overwritten (x y : float) : Prop :=
  y = x ∨ (Float.isnan x = true ∧ y = Float.neg_one).

(** A frame of [H x W] pixels and [C] channels. *)
Definition is_frame (H W C : nat) (frame : ndarray float) : Prop :=
  shape frame = [H; W; C] ∧ length (flat frame) = H * W * C.

(** The detector gets a threshold for every frame of the stack: Otsu does
    not refuse any of the grids it is asked about. *)
Definition detects_every_frame (threshold_otsu : ndarray float → result float)
    (equal_nan : bool) (ndwi : ndarray float) : Prop :=
  ∀ frames frame view,
    np_iter ndwi = Ok frames → In frame frames → index_last0 frame = Ok view →
    ∃ water,
      snd (WaterDetectionTask.detect_water threshold_otsu equal_nan view) = Ok water.

(** The mask of one frame, cut to the nominal extent. *)
Definition water_in_extent (nominal : ndarray Z) (water : ndarray bool) : list Z :=
  zip_with mul_bool_int (flat water) (flat nominal).

(** The water level of one frame. *)
Definition water_level_of (nominal : ndarray Z) (water : ndarray bool) : float :=
  Float.div (Float.of_int (Z.of_nat (count_true (water_in_extent nominal water))))
            (Float.of_int (np_count_nonzero nominal)).

(** A patch as the workflow hands it to the water detector: [T] frames of
    [H x W] pixels with [C] channels of NDWI, and a nominal extent on the
    same grid. *)
Record water_scene (eopatch : EOPatch) (ndwi : ndarray float)
    (nominal : ndarray Z) (T H W C : nat) : Prop := {
  scene_ndwi : data eopatch !! "NDWI" = Some ndwi;
  scene_ndwi_shape : shape ndwi = [T; H; W; C];
  scene_ndwi_wf : well_formed ndwi;
  scene_frames : 0 < T;
  scene_channels : 0 < C;
  scene_nominal : mask_timeless eopatch !! "NOMINAL_WATER" = Some nominal;
  scene_nominal_shape : shape nominal = [H; W; 1];
  scene_nominal_wf : well_formed nominal
}.

(** The patch a task leaves behind, whichever way it ends. *)
Definition final_patch (o : outcome) : EOPatch :=
  match o with
  | Returned p => p
  | Raised _ p => p
  end.

(** Two sizes of one axis that numpy cannot broadcast. *)
Definition clash (m n : nat) : Prop := m ≠ n ∧ m ≠ 1 ∧ n ≠ 1.

Section RoundingNotions.
Local Open Scope Z_scope.

(** The last step of [binary_round_aux]: the rounded mantissa is
    renormalised and packed. *)
Definition pack (sx : bool) (m e : Z) : spec_float :=
  let '(mrs, e') := shr_fexp 53 1024 m e loc_Exact in
  match shr_m mrs with
  | Z0 => S754_zero sx
  | Zpos p => if e' <=? 1024 - 53 then S754_finite sx p e' else S754_infinity sx
  | Zneg _ => S754_nan
  end.

(** A float below one, or one itself. *)
Definition at_most_one (x : spec_float) : Prop :=
  ∃ m e, x = S754_finite false m e ∧ (e < -52 ∨ (e = -52 ∧ m = 4503599627370496%positive)).

End RoundingNotions.

(** ** Notions for the coverage column and for repeated runs *)

(** The coverage of a block of [n] pixels. *)
Definition coverage_of {A : Type} `{Truthy A} (n : nat) (pixels : list A) : float :=
  Float.sub Float.one
    (Float.div (Float.of_int (Z.of_nat (count_true pixels))) (Float.of_int (Z.of_nat n))).

(** The coverage column of a stack of [time] frames of [n] pixels. *)
Definition coverage_column {A : Type} `{Truthy A} (time n : nat) (l : list A)
  : list float :=
  List.map (fun i => coverage_of n (chunk n i l)) (seq 0 time).

(** The exception a task ended with, if any. *)
Definition raised (o : outcome) : option exn :=
  match o with
  | Returned _ => None
  | Raised e _ => Some e
  end.

(** A task's result with the patch changed by [f]. *)
Definition outcome_map (f : EOPatch → EOPatch) (o : outcome) : outcome :=
  match o with
  | Returned p => Returned (f p)
  | Raised e p => Raised e (f p)
  end.

(** A frame the detector has nothing to write into. *)
Definition settled (threshold_otsu : ndarray float → result float) (equal_nan : bool)
    (frame : ndarray float) : Prop :=
  ∀ view, index_last0 frame = Ok view →
    set_last0 frame (fst (WaterDetectionTask.detect_water threshold_otsu equal_nan view))
    = frame.

(** What a frame holds once [detect_water] has been given its channel 0,
    the view [ndwi[..., 0]] of a frame with [C] channels: where that
    channel held more than one value, its NaN are -1; every other element
    is the one the frame had. *)
Definition channel_0_replaced (equal_nan : bool) (C : nat)
    (frame frame' : ndarray float) : Prop :=
  ∃ view,
    index_last0 frame = Ok view ∧
    shape frame' = shape frame ∧
    ∀ i, flat frame' !! i
         = (fun x => if (i mod C =? 0) && (1 <? len_unique equal_nan view)
                     then nan_to_neg_one x else x) <$> flat frame !! i.

(** ** The detector as the specification words it *)

(** Section 4.4 read literally: NaN is replaced first, the distinct values
    are counted on the result, and the threshold is Otsu's or 1.0. *)
Definition detect_water_as_specified (threshold_otsu : ndarray float → result float)
    (equal_nan : bool) (ndwi : ndarray float)
  : ndarray float * result (ndarray bool) :=
  let ndwi' := np_map nan_to_neg_one ndwi in
  (ndwi',
   let! otsu_thr :=
     (if 1 <? len_unique equal_nan ndwi' then threshold_otsu ndwi' else Ok Float.one) in
   Ok (np_map (fun x => Float.gtb x otsu_thr) ndwi')).

(** * Sample inputs *)

Definition half : float := Float.div (Float.of_int 1%Z) (Float.of_int 2%Z).
Definition two : float := Float.of_int 2%Z.

(** An Otsu that answers 0 for every image. *)
Definition otsu_zero (image : ndarray float) : result float := Ok Float.zero.

(** An image of a single value. *)
Definition single_valued (image : ndarray float) : bool :=
  match flat image with
  | [] => true
  | x :: rest => forallb (Float.eqb x) rest
  end.

(** The check scikit-image up to 0.17 puts in front of Otsu's method:
    an image of a single value is refused with [ValueError]. *)
Definition refuse_single_valued (otsu : ndarray float -> result float)
    (image : ndarray float) : result float :=
  if single_valued image then Raise ValueError else otsu image.

Definition otsu_strict : ndarray float -> result float :=
  refuse_single_valued otsu_zero.



Definition empty_patch : EOPatch := mk_EOPatch ∅ ∅ ∅ ∅ ∅ None.

(** One 2x2 frame, every pixel 2.0; the nominal extent is a single pixel. *)
Definition patch_mismatch : EOPatch :=
  mk_EOPatch
    {[ "NDWI" := mk_ndarray [1; 2; 2; 1] [two; two; two; two] ]}
    ∅ ∅
    {[ "NOMINAL_WATER" := mk_ndarray [1; 1; 1] [1%Z] ]}
    ∅ None.

Definition nan : float := S754_nan.
Definition neg_half : float := Float.div (Float.of_int (-1)%Z) (Float.of_int 2%Z).
Definition two_thirds : float := Float.div (Float.of_int 2%Z) (Float.of_int 3%Z).
Definition four : float := Float.of_int 4%Z.

(** Two frames of 2x2 pixels.  The first has a NaN and three other
    values, the second is constant. *)
Definition ndwi_lake : ndarray float :=
  mk_ndarray [2; 2; 2; 1] [half; neg_half; nan; half; half; half; half; half].

Definition nominal_lake : ndarray Z := mk_ndarray [2; 2; 1] [1; 1; 0; 1]%Z.

Definition is_data_lake : ndarray Z :=
  mk_ndarray [2; 2; 2; 1] [1; 1; 1; 1; 1; 1; 0; 1]%Z.

Definition clm_lake : ndarray Z :=
  mk_ndarray [2; 2; 2; 1] [0; 1; 0; 0; 0; 0; 0; 255]%Z.

Definition patch_lake : EOPatch :=
  mk_EOPatch
    {[ "NDWI" := ndwi_lake ]}
    (<["CLM" := clm_lake]> {[ "IS_DATA" := is_data_lake ]})
    ∅
    {[ "NOMINAL_WATER" := nominal_lake ]}
    ∅ None.

(** The frames of [ndwi_lake], before and after the detector, and the
    masks it returns under [otsu_zero]. *)
Definition frames_lake : list (ndarray float) :=
  [mk_ndarray [2; 2; 1] [half; neg_half; nan; half];
   mk_ndarray [2; 2; 1] [half; half; half; half]].

Definition frames_lake_after : list (ndarray float) :=
  [mk_ndarray [2; 2; 1] [half; neg_half; Float.neg_one; half];
   mk_ndarray [2; 2; 1] [half; half; half; half]].

Definition waters_lake : list (ndarray bool) :=
  [mk_ndarray [2; 2] [true; false; false; true];
   mk_ndarray [2; 2] [false; false; false; false]].

(** The same patch with a nominal extent that has no pixel set. *)
Definition patch_dry : EOPatch :=
  mk_EOPatch
    {[ "NDWI" := ndwi_lake ]} ∅ ∅
    {[ "NOMINAL_WATER" := mk_ndarray [2; 2; 1] [0; 0; 0; 0]%Z ]}
    ∅ None.

(** A nominal extent of 3x2 pixels against frames of 2x2 pixels. *)
Definition patch_clash : EOPatch :=
  mk_EOPatch
    {[ "NDWI" := ndwi_lake ]}
    (<["CLM" := mk_ndarray [2; 3; 2; 1] (repeat 0%Z 12)]> {[ "IS_DATA" := is_data_lake ]})
    ∅
    {[ "NOMINAL_WATER" := mk_ndarray [3; 2; 1] [1; 1; 0; 1; 1; 1]%Z ]}
    ∅ None.

(** What [execute] returns on [patch_mismatch]. *)
Definition patch_mismatch_after : EOPatch :=
  mk_EOPatch
    {[ "NDWI" := mk_ndarray [1; 2; 2; 1] [two; two; two; two] ]}
    {[ "WATER_MASK" := mk_ndarray [1; 2; 2; 1] [1; 1; 1; 1]%Z ]}
    {[ "WATER_LEVEL" := mk_ndarray [1; 1] [four] ]}
    {[ "NOMINAL_WATER" := mk_ndarray [1; 1; 1] [1%Z] ]}
    ∅ None.

(** A cloud mask of a single pixel against a data mask of 2x2 pixels. *)
Definition patch_one_cloud_pixel : EOPatch :=
  mk_EOPatch ∅
    (<["CLM" := mk_ndarray [1; 1; 1; 1] [0%Z]]>
       {[ "IS_DATA" := mk_ndarray [1; 2; 2; 1] [1; 1; 0; 1]%Z ]})
    ∅ ∅ ∅ None.

(** A frame holding a NaN and the sentinel. *)
Definition nan_and_sentinel : ndarray float := mk_ndarray [1; 2] [nan; Float.neg_one].

(** A patch with a bounding box, and the Overpass stand-ins used with it. *)
Definition some_bbox : BBox := mk_BBox Float.zero Float.zero Float.one Float.one 4326%Z.

Definition patch_boxed : EOPatch := mk_EOPatch ∅ ∅ ∅ ∅ ∅ (Some some_bbox).

Definition residential : OsmInputTask.t :=
  OsmInputTask.init "residential" "way[landuse=residential]" false.

Definition no_answer (request : string) : result unit := Raise ValueError.
Definition clip_nothing (polygonize : bool) (bounds : BBox) (crs : Z) (response : unit)
  : result GeoDataFrame := Ok (mk_GeoDataFrame [] crs).

(** [patch_lake] with the validity mask of its two frames, as the
    workflow stores it: three valid pixels, then two. *)
Definition valid_lake : ndarray Z :=
  mk_ndarray [2; 2; 2; 1] [1; 0; 1; 1; 1; 1; 0; 0]%Z.

Definition patch_lake_valid : EOPatch :=
  with_mask patch_lake (<["VALID_DATA" := valid_lake]> (mask patch_lake)).

Definition quarter : float := Float.div (Float.of_int 1%Z) (Float.of_int 4%Z).

(** What [AddValidDataCoverageTask] leaves in [patch_lake_valid]. *)
Definition patch_lake_covered : EOPatch :=
  with_scalar patch_lake_valid {[ "COVERAGE" := mk_ndarray [2; 1] [quarter; half] ]}.

(** A stack the filter has emptied. *)
Definition patch_no_frames : EOPatch :=
  mk_EOPatch
    {[ "NDWI" := mk_ndarray [0; 2; 2; 1] [] ]} ∅ ∅
    {[ "NOMINAL_WATER" := nominal_lake ]}
    ∅ None.

(** A patch without the nominal extent. *)
Definition patch_no_extent : EOPatch :=
  mk_EOPatch {[ "NDWI" := ndwi_lake ]} ∅ ∅ ∅ ∅ None.

(** The first frame of [ndwi_lake] with a second channel, in two
    versions that differ in that channel only. *)
Definition ndwi_two_channels : ndarray float :=
  mk_ndarray [1; 2; 2; 2] [half; two; neg_half; two; nan; two; half; two].

Definition ndwi_other_channel : ndarray float :=
  mk_ndarray [1; 2; 2; 2] [half; nan; neg_half; four; nan; half; half; nan].

Definition patch_two_channels : EOPatch :=
  mk_EOPatch
    {[ "NDWI" := ndwi_two_channels ]} ∅ ∅
    {[ "NOMINAL_WATER" := nominal_lake ]}
    ∅ None.

Definition patch_other_channel : EOPatch :=
  with_data patch_two_channels (<["NDWI" := ndwi_other_channel]> (data patch_two_channels)).

(** A threshold nothing passes, and one everything passes. *)
Definition predicate_none : ValidDataCoveragePredicate.t :=
  ValidDataCoveragePredicate.init Float.zero.

Definition predicate_all : ValidDataCoveragePredicate.t :=
  ValidDataCoveragePredicate.init two.

(** * Properties *)

(** ** The numpy model on small inputs *)

Example broadcast_same :
  broadcast mul_bool_int
    (mk_ndarray [2; 2; 1] [true; false; true; true])
    (mk_ndarray [2; 2; 1] [1; 1; 0; 1]%Z)
  = Ok (mk_ndarray [2; 2; 1] [1; 0; 0; 1]%Z).
Proof. reflexivity. Qed.

Example broadcast_stretch :
  broadcast mul_bool_int
    (mk_ndarray [2; 1; 2; 1] [true; false; true; true])
    (mk_ndarray [3; 1; 1] [1; 0; 5]%Z)
  = Ok (mk_ndarray [2; 3; 2; 1] [1; 0; 0; 0; 5; 0; 1; 1; 0; 0; 5; 5]%Z).
Proof. reflexivity. Qed.

Example broadcast_mismatch :
  broadcast mul_bool_int
    (mk_ndarray [2; 2] [true; false; true; true])
    (mk_ndarray [3] [1; 0; 5]%Z)
  = Raise ValueError.
Proof. reflexivity. Qed.

Example index_last0_two_channels :
  index_last0 (mk_ndarray [2; 2] [1; 2; 3; 4]) = Ok (mk_ndarray [2] [1; 3]).
Proof. reflexivity. Qed.

Example set_last0_two_channels :
  set_last0 (mk_ndarray [2; 2] [1; 2; 3; 4]) (mk_ndarray [2] [7; 8])
  = mk_ndarray [2; 2] [7; 2; 8; 4].
Proof. reflexivity. Qed.

Example cloud_coverage_threshold_bits :
  cloud_coverage_threshold = S754_finite false 7205759403792794 (-57)%Z.
Proof. reflexivity. Qed.

Example coverage_three_of_four :
  calculate_coverage (mk_ndarray [2; 2; 1] [true; true; false; true])
  = Ok (S754_finite false 4503599627370496 (-54)%Z).
Proof. reflexivity. Qed.

Example coverage_no_pixel :
  calculate_coverage (mk_ndarray [0; 2; 1] (@nil bool))
  = Raise ZeroDivisionError.
Proof. reflexivity. Qed.

Example remove_cloudy_scenes_drops_second :
  remove_cloudy_scenes (ValidDataCoveragePredicate.init cloud_coverage_threshold)
    (mk_ndarray [3; 1; 2; 1] [true; true; true; false; true; true])
  = Ok (mk_ndarray [2; 1; 2; 1] [true; true; true; true]).
Proof. reflexivity. Qed.

Example apply_along_axis1_rows :
  np_apply_along_axis1 calculate_coverage
    (mk_ndarray [2; 4] [true; false; true; true; true; true; false; false])
  = Ok (mk_ndarray [2] [quarter; half]).
Proof. reflexivity. Qed.

Example apply_along_axis1_rank_3 :
  np_apply_along_axis1 calculate_coverage
    (mk_ndarray [1; 2; 2] [true; false; true; true])
  = Ok (mk_ndarray [1; 2] [Float.zero; half]).
Proof. reflexivity. Qed.

Example apply_along_axis1_rank_1 :
  np_apply_along_axis1 calculate_coverage (mk_ndarray [4] [true; false; true; true])
  = Raise ValueError.
Proof. reflexivity. Qed.

Example coverage_task_on_lake :
  AddValidDataCoverageTask.execute patch_lake_valid = Returned patch_lake_covered.
Proof. reflexivity. Qed.

(** ** Blocks of a list *)

Section Chunks.
Context {A : Type}.
Implicit Types (l : list A) (k i n : nat).

Lemma chunk_0 k l : chunk k 0 l = take k l.
Proof. unfold chunk. by rewrite drop_0. Qed.

Lemma chunk_S k i l : chunk k (S i) l = chunk k i (drop k l).
Proof. unfold chunk. by rewrite drop_drop. Qed.

Lemma length_chunk k i l : (S i) * k ≤ length l → length (chunk k i l) = k.
Proof.
  intros Hlen. unfold chunk.
  rewrite length_take, length_drop. lia.
Qed.

Lemma flat_map_seq_S {B : Type} (f : nat → list B) n :
  flat_map f (seq 0 (S n)) = f 0 ++ flat_map (fun i => f (S i)) (seq 0 n).
Proof.
  cbn [seq flat_map]. f_equal. rewrite <- seq_shift.
  generalize (seq 0 n) as js. induction js as [|j js IH]; [done|].
  cbn. by rewrite IH.
Qed.

(** The blocks of a list, put back together. *)
Lemma flat_map_chunks k n l :
  length l = n * k → flat_map (fun i => chunk k i l) (seq 0 n) = l.
Proof.
  revert l. induction n as [|n IH]; intros l Hlen.
  - destruct l; [done|]. cbn in Hlen. lia.
  - rewrite flat_map_seq_S, chunk_0.
    rewrite (flat_map_ext _ (fun i => chunk k i (drop k l))).
    + rewrite IH; [apply take_drop|]. rewrite length_drop. lia.
    + intros i. apply chunk_S.
Qed.

Lemma concat_map_chunks k n l :
  length l = n * k →
  List.concat (List.map (fun i => chunk k i l) (seq 0 n)) = l.
Proof. intros Hlen. rewrite <- flat_map_concat_map. by apply flat_map_chunks. Qed.
End Chunks.

Lemma flat_map_ext_seq {B : Type} (f g : nat → list B) n :
  (∀ i, i < n → f i = g i) → flat_map f (seq 0 n) = flat_map g (seq 0 n).
Proof.
  intros Hfg. rewrite !flat_map_concat_map. f_equal.
  apply map_ext_in. intros i Hi%in_seq. apply Hfg. lia.
Qed.

Lemma zip_with_chunks {A B C : Type} (f : A → B → C) k n (d1 : list A) (d2 : list B) :
  length d1 = n * k → length d2 = n * k →
  flat_map (fun i => zip_with f (chunk k i d1) (chunk k i d2)) (seq 0 n)
  = zip_with f d1 d2.
Proof.
  revert d1 d2. induction n as [|n IH]; intros d1 d2 H1 H2.
  - destruct d1; [done|]. cbn in H1. lia.
  - rewrite flat_map_seq_S, !chunk_0.
    rewrite (flat_map_ext _
      (fun i => zip_with f (chunk k i (drop k d1)) (chunk k i (drop k d2)))).
    + rewrite IH by (rewrite length_drop; lia).
      rewrite <- zip_with_app by (rewrite !length_take_le; lia).
      by rewrite !take_drop.
    + intros i. by rewrite !chunk_S.
Qed.

Lemma zip_with_map {A A' B B' C : Type} (f : A' → B' → C) (g : A → A') (h : B → B')
    (l : list A) (k : list B) :
  zip_with f (List.map g l) (List.map h k) = zip_with (fun a b => f (g a) (h b)) l k.
Proof.
  revert k. induction l as [|a l IH]; intros [|b k]; cbn; [done..|].
  by rewrite IH.
Qed.

(** ** Broadcasting arrays of one shape *)

Lemma pad_shape_self s : pad_shape (length s) s = s.
Proof. unfold pad_shape. by rewrite Nat.sub_diag. Qed.

Lemma broadcast_dim_same m : broadcast_dim m m = Ok m.
Proof. unfold broadcast_dim. by rewrite Nat.eqb_refl. Qed.

Lemma broadcast_aligned_same s : broadcast_aligned s s = Ok s.
Proof.
  induction s as [|m s IH]; [done|].
  cbn. by rewrite broadcast_dim_same, IH.
Qed.

Lemma broadcast_shapes_same s : broadcast_shapes s s = Ok s.
Proof.
  unfold broadcast_shapes. rewrite Nat.max_id, pad_shape_self.
  apply broadcast_aligned_same.
Qed.

Lemma broadcast_flat_same {A B C : Type} (f : A → B → C) s d1 d2 :
  length d1 = prod_shape s → length d2 = prod_shape s →
  broadcast_flat f s s d1 d2 = zip_with f d1 d2.
Proof.
  revert d1 d2. induction s as [|m s IH]; intros d1 d2 H1 H2.
  - cbn in *. destruct d1 as [|a [|? ?]], d2 as [|b [|? ?]]; done.
  - cbn [broadcast_flat]. cbn [prod_shape fold_right] in H1, H2.
    fold (prod_shape s) in *.
    rewrite <- (zip_with_chunks f (prod_shape s) m) by done.
    assert (Hseq : (if m =? 1 then m else m) = m) by (by destruct (m =? 1)).
    rewrite Hseq. apply flat_map_ext_seq. intros i Hi.
    assert (Hidx : (if m =? 1 then 0 else i) = i).
    { destruct (Nat.eqb_spec m 1); lia. }
    rewrite Hidx. apply IH; apply length_chunk; nia.
Qed.

(** Two well-formed arrays of one shape are combined element by element. *)
Lemma broadcast_same_shape {A B C : Type} (f : A → B → C)
    (a : ndarray A) (b : ndarray B) :
  well_formed a → well_formed b → shape a = shape b →
  broadcast f a b = Ok (mk_ndarray (shape a) (zip_with f (flat a) (flat b))).
Proof.
  unfold well_formed, broadcast, ndim. intros Ha Hb Hs.
  rewrite <- Hs in *. rewrite broadcast_shapes_same. cbn.
  rewrite Nat.max_id, pad_shape_self. by rewrite broadcast_flat_same.
Qed.

(** ** C4: the validity mask *)

(** C4. For patches whose data-presence mask [IS_DATA] and cloud mask
    [CLM] have one shape, the validity mask has that shape and each of its
    pixels is the conjunction of "has data" with "is not cloud". *)
Theorem valid_data_mask_is_data_and_not_cloud
    (eopatch : EOPatch) (is_data clm : ndarray Z) :
  mask eopatch !! "IS_DATA" = Some is_data →
  mask eopatch !! "CLM" = Some clm →
  well_formed is_data → well_formed clm → shape is_data = shape clm →
  calculate_valid_data_mask eopatch
  = Ok (mk_ndarray (shape is_data)
          (zip_with (fun d c => truthy d && negb (truthy c))
             (flat is_data) (flat clm))).
Proof.
  intros Hd Hc Hwd Hwc Hs. unfold calculate_valid_data_mask, getitem.
  rewrite Hd, Hc. cbn [bind].
  rewrite broadcast_same_shape.
  - cbn. do 2 f_equal. by rewrite map_map, zip_with_map.
  - unfold well_formed, astype_bool, np_map. cbn. by rewrite length_map.
  - unfold well_formed, astype_bool, np_map. cbn. by rewrite !length_map.
  - done.
Qed.

(** ** C1: the coverage predicate *)

Lemma truediv_nonzero (a b : Z) :
  b ≠ 0%Z → truediv a b = Ok (Float.div (Float.of_int a) (Float.of_int b)).
Proof. intros Hb. unfold truediv. by destruct (Z.eqb_spec b 0). Qed.

(** C1. For a frame with at least one pixel, [calculate_coverage] is
    1 - (number of true pixels / number of pixels), and the predicate
    answers whether that number is strictly below the threshold; a filter
    that asks the predicate keeps the frame in exactly that case. *)
Theorem coverage_predicate_below_threshold {A : Type} `{Truthy A}
    (self : ValidDataCoveragePredicate.t) (frame : ndarray A) :
  np_size frame ≠ 0%Z →
  let invalid_fraction :=
    Float.sub Float.one
      (Float.div (Float.of_int (np_count_nonzero frame))
                 (Float.of_int (np_size frame))) in
  calculate_coverage frame = Ok invalid_fraction ∧
  ValidDataCoveragePredicate.call self frame
  = Ok (Float.ltb invalid_fraction (ValidDataCoveragePredicate.threshold self)) ∧
  ∀ idx,
    filtered_indices (ValidDataCoveragePredicate.call self) idx [frame]
    = Ok (if Float.ltb invalid_fraction (ValidDataCoveragePredicate.threshold self)
          then [idx] else []).
Proof.
  intros Hsize. cbn zeta. cbn [filtered_indices].
  unfold ValidDataCoveragePredicate.call, calculate_coverage.
  by rewrite truediv_nonzero.
Qed.

Lemma coverage_predicate_below_threshold_witness :
  np_size (mk_ndarray [2; 2; 1] [true; true; false; true]) ≠ 0%Z ∧
  calculate_coverage (mk_ndarray [2; 2; 1] [true; true; false; true])
  = Ok (S754_finite false 4503599627370496 (-54)%Z) ∧
  ValidDataCoveragePredicate.call
    (ValidDataCoveragePredicate.init cloud_coverage_threshold)
    (mk_ndarray [2; 2; 1] [true; true; false; true])
  = Ok false.
Proof.
  split; [by vm_compute|].
  destruct (coverage_predicate_below_threshold
              (ValidDataCoveragePredicate.init cloud_coverage_threshold)
              (mk_ndarray [2; 2; 1] [true; true; false; true])
              ltac:(by vm_compute)) as (Hcoverage & Hcall & _).
  split; [exact Hcoverage|exact Hcall].
Defined.

(** ** C7: the coverage filter *)

Section Filter.
Context {A : Type}.
Variable filter_func : ndarray A → result bool.
Variable F : nat → ndarray A.

Lemma filtered_indices_sound i0 n idxs :
  filtered_indices filter_func i0 (List.map F (seq i0 n)) = Ok idxs →
  Forall (fun i => i0 ≤ i < i0 + n ∧ filter_func (F i) = Ok true) idxs.
Proof.
  revert i0 idxs. induction n as [|n IH]; intros i0 idxs; cbn.
  - intros [= <-]. constructor.
  - destruct (filter_func (F i0)) as [keep|] eqn:Hkeep; [|done]. cbn.
    destruct (filtered_indices _ _ _) as [rest|] eqn:Hrest; [|done]. cbn.
    intros [= <-]. apply IH in Hrest.
    assert (Forall (fun i => i0 ≤ i < i0 + S n ∧ filter_func (F i) = Ok true) rest).
    { eapply Forall_impl; [exact Hrest|]. cbn. intros i [? ?]. split; [lia|done]. }
    destruct keep; [constructor; [split; [lia|done]|done]|done].
Qed.

Lemma filtered_indices_all i0 (l : list nat) :
  Forall (fun i => filter_func (F i) = Ok true) l →
  filtered_indices filter_func i0 (List.map F l) = Ok (seq i0 (length l)).
Proof.
  revert i0. induction l as [|i l IH]; intros i0 Hall; [done|].
  inversion Hall as [|? ? Hi Hl]; subst. cbn. rewrite Hi. cbn.
  by rewrite IH.
Qed.

Lemma filtered_indices_total i0 (frames : list (ndarray A)) :
  Forall (fun img => ∃ b, filter_func img = Ok b) frames →
  ∃ idxs, filtered_indices filter_func i0 frames = Ok idxs.
Proof.
  revert i0. induction frames as [|img frames IH]; intros i0 Hall.
  - by exists [].
  - inversion Hall as [|? ? [b Hb] Hrest]; subst.
    destruct (IH (S i0) Hrest) as [idxs Hidxs].
    exists (if b then i0 :: idxs else idxs). cbn. by rewrite Hb, Hidxs.
Qed.
End Filter.

Lemma chunks_of_flat_map {I A : Type} (g : I → list A) k (idxs : list I) :
  Forall (fun i => length (g i) = k) idxs →
  List.map (fun j => chunk k j (flat_map g idxs)) (seq 0 (length idxs))
  = List.map g idxs.
Proof.
  induction idxs as [|i idxs IH]; intros Hall; [done|].
  inversion Hall as [|? ? Hi Hrest]; subst.
  cbn [length seq List.map flat_map]. f_equal.
  - rewrite chunk_0, take_app, Nat.sub_diag, take_0, app_nil_r.
    by apply take_ge.
  - rewrite <- seq_shift, map_map. rewrite <- IH by done.
    apply map_ext. intros j. rewrite chunk_S.
    by rewrite drop_app, Nat.sub_diag, drop_0, drop_all.
Qed.

Lemma length_flat_map_const {A B : Type} (g : A → list B) k (l : list A) :
  Forall (fun i => length (g i) = k) l → length (flat_map g l) = length l * k.
Proof.
  induction 1 as [|i l Hi _ IH]; [done|].
  cbn. rewrite length_app. lia.
Qed.

(** C7. On a well-formed stack the coverage filter is idempotent: a stack
    that came out of the filter passes it unchanged.  The filter does
    return a stack whenever the frames have at least one pixel. *)
Theorem remove_cloudy_scenes_idempotent {A : Type} `{Truthy A}
    (predicate : ValidDataCoveragePredicate.t) (stack : ndarray A) :
  well_formed stack →
  (∀ filtered,
     remove_cloudy_scenes predicate stack = Ok filtered →
     remove_cloudy_scenes predicate filtered = Ok filtered) ∧
  (∀ n s, shape stack = n :: s → prod_shape s ≠ 0 →
     ∃ filtered, remove_cloudy_scenes predicate stack = Ok filtered).
Proof.
  intros Hwf. split.
  - intros filtered. unfold remove_cloudy_scenes, np_iter.
    destruct (shape stack) as [|n s] eqn:Hshape; [done|]. cbn [bind].
    destruct (filtered_indices _ _ _) as [idxs|] eqn:Hidxs; [|done]. cbn [bind].
    intros [= <-]. unfold np_take at 1 2. rewrite Hshape. cbn [tail shape flat bind].
    apply filtered_indices_sound in Hidxs.
    assert (Hlen : Forall (fun i => length (chunk (prod_shape s) i (flat stack))
                                   = prod_shape s) idxs).
    { eapply Forall_impl; [exact Hidxs|]. cbn. intros i [Hi _].
      apply length_chunk. unfold well_formed in Hwf. rewrite Hwf, Hshape.
      cbn [prod_shape fold_right]. fold (prod_shape s).
      apply (Nat.mul_le_mono_r (S i) n). lia. }
    unfold subarray at 1.
    rewrite <- (map_map (fun j => chunk (prod_shape s) j _) (mk_ndarray s)).
    rewrite chunks_of_flat_map by done.
    rewrite map_map. fold (subarray s (flat stack)).
    rewrite filtered_indices_all.
    + cbn [bind]. unfold np_take. cbn [shape flat tail]. rewrite length_seq.
      rewrite ?Hshape. cbn [tail]. do 2 f_equal. apply flat_map_chunks.
      by rewrite (length_flat_map_const _ (prod_shape s)).
    + eapply Forall_impl; [exact Hidxs|]. cbn. by intros i [_ ?].
  - intros n s Hshape Hs. unfold remove_cloudy_scenes, np_iter. rewrite Hshape.
    cbn [bind].
    destruct (filtered_indices_total
                (ValidDataCoveragePredicate.call predicate) 0
                (List.map (subarray s (flat stack)) (seq 0 n))) as [idxs Hidxs].
    + apply List.Forall_forall. intros img (i & <- & _)%in_map_iff.
      eexists. apply coverage_predicate_below_threshold.
      unfold np_size, subarray. cbn [shape]. lia.
    + exists (np_take stack idxs). by rewrite Hidxs.
Qed.

(** ** Views and what [detect_water] writes *)

Lemma length_heads {A : Type} (c n : nat) (l : list A) :
  0 < c → length l = n * c → length (heads c n l) = n.
Proof.
  intros Hc. revert l. induction n as [|n IH]; intros l Hlen; [done|].
  destruct l as [|x l]; [cbn in Hlen; lia|]. cbn [heads length]. f_equal.
  apply IH. rewrite length_drop, Hlen. lia.
Qed.

Lemma nan_overwritten_refl (l : list float) : Forall2 nan_overwritten l l.
Proof. induction l; constructor; [by left|done]. Qed.

Lemma nan_overwritten_map (l : list float) :
  Forall2 nan_overwritten l (List.map nan_to_neg_one l).
Proof.
  induction l as [|x l IH]; constructor; [|done].
  unfold nan_overwritten, nan_to_neg_one. destruct (Float.isnan x); auto.
Qed.

Lemma set_heads_overwritten (c n : nat) (l v : list float) :
  0 < c → length l = n * c →
  Forall2 nan_overwritten (heads c n l) v →
  Forall2 nan_overwritten l (set_heads c v l).
Proof.
  intros Hc. revert l v. induction n as [|n IH]; intros l v Hlen Hv.
  - destruct l; [|cbn in Hlen; lia]. cbn in Hv. inversion Hv. constructor.
  - destruct l as [|x l]; [cbn in Hlen; lia|]. cbn [heads] in Hv.
    inversion Hv as [|? y ? v' Hxy Hv']; subst. cbn [set_heads].
    rewrite <- (take_drop c (x :: l)) at 1.
    destruct c as [|c]; [lia|]. cbn [take].
    replace (S c - 1) with c by lia.
    apply Forall2_app.
    + constructor; [done|apply nan_overwritten_refl].
    + apply IH; [|done]. rewrite length_drop, Hlen. lia.
Qed.

Section DetectorFacts.
Variable threshold_otsu : ndarray float → result float.
Variable equal_nan : bool.

Lemma detect_water_written (ndwi : ndarray float) :
  shape (fst (WaterDetectionTask.detect_water threshold_otsu equal_nan ndwi))
  = shape ndwi ∧
  Forall2 nan_overwritten (flat ndwi)
    (flat (fst (WaterDetectionTask.detect_water threshold_otsu equal_nan ndwi))).
Proof.
  unfold WaterDetectionTask.detect_water.
  destruct (1 <? len_unique equal_nan ndwi); cbn.
  - split; [done|apply nan_overwritten_map].
  - split; [done|apply nan_overwritten_refl].
Qed.

Lemma detect_water_mask (ndwi : ndarray float) (water : ndarray bool) :
  snd (WaterDetectionTask.detect_water threshold_otsu equal_nan ndwi) = Ok water →
  shape water = shape ndwi ∧ length (flat water) = length (flat ndwi).
Proof.
  unfold WaterDetectionTask.detect_water.
  destruct (1 <? len_unique equal_nan ndwi); cbn.
  - destruct (threshold_otsu _); [|done]. cbn. intros [= <-]. cbn.
    by rewrite !length_map.
  - intros [= <-]. cbn. by rewrite length_map.
Qed.

Lemma index_last0_frame H W C (frame : ndarray float) :
  0 < C → is_frame H W C frame →
  index_last0 frame = Ok (mk_ndarray [H; W] (heads C (H * W) (flat frame))).
Proof.
  intros HC [Hs Hlen]. unfold index_last0. rewrite Hs. cbn.
  destruct (Nat.eqb_spec C 0); [lia|]. do 3 f_equal. lia.
Qed.

(** What one pass over the frames leaves behind, and what it returns. *)
Lemma detect_frames_ok H W C (frames frames' : list (ndarray float))
    (waters : list (ndarray bool)) :
  0 < C → Forall (is_frame H W C) frames →
  WaterDetectionTask.detect_frames threshold_otsu equal_nan frames = (frames', Ok waters) →
  Forall2 (fun frame frame' =>
             shape frame' = shape frame ∧
             Forall2 nan_overwritten (flat frame) (flat frame')) frames frames' ∧
  Forall2 (fun frame water =>
             ∃ view, index_last0 frame = Ok view ∧
               snd (WaterDetectionTask.detect_water threshold_otsu equal_nan view)
               = Ok water) frames waters ∧
  Forall (fun water => shape water = [H; W] ∧ length (flat water) = H * W) waters.
Proof.
  intros HC Hframes. revert frames' waters.
  induction Hframes as [|frame frames Hframe _ IH]; intros frames' waters.
  - cbn. intros [= <- <-]. by repeat constructor.
  - cbn [WaterDetectionTask.detect_frames].
    rewrite (index_last0_frame H W C) by done.
    set (view := mk_ndarray [H; W] (heads C (H * W) (flat frame))).
    pose proof (detect_water_written view) as [Hshape Hwritten].
    pose proof (detect_water_mask view) as Hmask.
    destruct (WaterDetectionTask.detect_water threshold_otsu equal_nan view)
      as [view' [water|e]] eqn:Hdw; [|done].
    destruct (WaterDetectionTask.detect_frames threshold_otsu equal_nan frames)
      as [rest' [rest_waters|e]]; [|done].
    cbn [bind]. intros [= <- <-].
    destruct (IH rest' rest_waters eq_refl) as (IH1 & IH2 & IH3).
    destruct (Hmask water eq_refl) as [Hws Hwl].
    destruct Hframe as [Hfs Hfl].
    split; [|split].
    + constructor; [|done]. unfold set_last0. rewrite Hfs. cbn. split; [done|].
      apply (set_heads_overwritten C (H * W)); [done|lia|done].
    + constructor; [|done]. exists view.
      split; [by apply index_last0_frame|by rewrite Hdw].
    + constructor; [|done]. split; [done|].
      rewrite Hwl. subst view. cbn. apply length_heads; [done|lia].
Qed.

Lemma detect_frames_returns H W C (frames : list (ndarray float)) :
  0 < C → Forall (is_frame H W C) frames →
  (∀ frame view,
     In frame frames → index_last0 frame = Ok view →
     ∃ water,
       snd (WaterDetectionTask.detect_water threshold_otsu equal_nan view) = Ok water) →
  ∃ frames' waters,
    WaterDetectionTask.detect_frames threshold_otsu equal_nan frames
    = (frames', Ok waters).
Proof.
  intros HC Hframes. induction Hframes as [|frame frames Hframe _ IH]; intros Hdet.
  - by exists [], [].
  - cbn [WaterDetectionTask.detect_frames].
    destruct (Hdet frame _ (or_introl eq_refl) (index_last0_frame H W C frame HC Hframe))
      as [water Hwater].
    rewrite (index_last0_frame H W C) by done.
    destruct (WaterDetectionTask.detect_water threshold_otsu equal_nan _)
      as [view' r]. cbn [snd] in Hwater. subst r.
    destruct IH as (rest' & waters & ->).
    { intros frame' view Hin. apply Hdet. by right. }
    by eexists _, _.
Qed.

(** An Otsu that answers on every image serves every frame. *)
Lemma total_otsu_detects (ndwi : ndarray float) :
  (∀ image, ∃ otsu_thr, threshold_otsu image = Ok otsu_thr) →
  detects_every_frame threshold_otsu equal_nan ndwi.
Proof.
  intros Htotal frames frame view _ _ _.
  unfold WaterDetectionTask.detect_water.
  destruct (1 <? len_unique equal_nan view); cbn [snd]; [|by eexists].
  destruct (Htotal (np_map nan_to_neg_one view)) as [otsu_thr ->]. by eexists.
Qed.

End DetectorFacts.

(** ** The water masks against the nominal extent *)

Lemma broadcast_flat_stack {A B C : Type} (f : A → B → C) s T d1 d2 :
  length d1 = T * prod_shape s → length d2 = prod_shape s →
  broadcast_flat f (T :: s) (1 :: s) d1 d2
  = flat_map (fun i => zip_with f (chunk (prod_shape s) i d1) d2) (seq 0 T).
Proof.
  intros H1 H2. cbn [broadcast_flat Nat.eqb].
  assert (Hseq : (if T =? 1 then 1 else T) = T) by (by destruct (Nat.eqb_spec T 1)).
  rewrite Hseq. apply flat_map_ext_seq. intros i Hi.
  assert (Hidx : (if T =? 1 then 0 else i) = i).
  { destruct (Nat.eqb_spec T 1); lia. }
  rewrite Hidx, chunk_0, (take_ge d2) by lia.
  apply broadcast_flat_same; [|done]. apply length_chunk. nia.
Qed.

Lemma flat_map_chunks_of_flat_map {I A B : Type} (g : I → list A)
    (G : list A → list B) k (l : list I) :
  Forall (fun i => length (g i) = k) l →
  flat_map (fun j => G (chunk k j (flat_map g l))) (seq 0 (length l))
  = flat_map (fun i => G (g i)) l.
Proof.
  intros Hall.
  rewrite (flat_map_concat_map (fun j => G (chunk k j (flat_map g l)))).
  rewrite (flat_map_concat_map (fun i => G (g i))). f_equal.
  rewrite <- (map_map (fun j => chunk k j (flat_map g l)) G).
  rewrite chunks_of_flat_map by done. by rewrite map_map.
Qed.

Lemma length_water_in_extent nominal water n :
  length (flat water) = n → length (flat nominal) = n →
  length (water_in_extent nominal water) = n.
Proof. intros Hw Hn. unfold water_in_extent. rewrite length_zip_with. lia. Qed.

Lemma broadcast_water_masks H W (waters : list (ndarray bool)) (nominal : ndarray Z) :
  waters ≠ [] →
  Forall (fun water => shape water = [H; W] ∧ length (flat water) = H * W) waters →
  shape nominal = [H; W; 1] → well_formed nominal →
  broadcast mul_bool_int (newaxis (np_asarray waters)) nominal
  = Ok (mk_ndarray [length waters; H; W; 1]
          (flat_map (water_in_extent nominal) waters)).
Proof.
  intros Hne Hall Hs Hwf. unfold well_formed in Hwf. rewrite Hs in Hwf.
  destruct waters as [|water waters]; [done|].
  assert (Hshape : shape water = [H; W]).
  { inversion Hall as [|? ? [? ?] ?]; by subst. }
  assert (Hlens : Forall (fun w : ndarray bool => length (flat w) = prod_shape [H; W; 1])
                    (water :: waters)).
  { eapply Forall_impl; [exact Hall|]. cbn. intros w [_ ->]. lia. }
  unfold broadcast, broadcast_shapes, np_asarray, newaxis, ndim.
  cbn [shape flat]. rewrite Hshape, Hs.
  cbn [length app Nat.max pad_shape Nat.sub repeat broadcast_aligned bind].
  assert (Hdim : broadcast_dim (S (length waters)) 1 = Ok (S (length waters))).
  { unfold broadcast_dim. by destruct (length waters). }
  rewrite Hdim, !broadcast_dim_same. cbn [bind]. do 2 f_equal.
  rewrite <- flat_map_concat_map.
  rewrite broadcast_flat_stack.
  - apply (flat_map_chunks_of_flat_map flat
             (fun w => zip_with mul_bool_int w (flat nominal))
             (prod_shape [H; W; 1]) (water :: waters) Hlens).
  - by rewrite (length_flat_map_const _ (prod_shape [H; W; 1])).
  - done.
Qed.

Lemma water_level_list_ok (nominal : ndarray Z) (masks : list (ndarray Z)) :
  np_count_nonzero nominal ≠ 0%Z →
  WaterDetectionTask.water_level_list nominal masks
  = Ok (List.map (fun mask => Float.div (Float.of_int (np_count_nonzero mask))
                                (Float.of_int (np_count_nonzero nominal))) masks).
Proof.
  intros Hn. induction masks as [|mask masks IH]; [done|].
  cbn [WaterDetectionTask.water_level_list List.map].
  by rewrite truediv_nonzero, IH.
Qed.

Lemma store_water_returns H W (eopatch : EOPatch) (waters : list (ndarray bool))
    (nominal : ndarray Z) :
  waters ≠ [] →
  Forall (fun water => shape water = [H; W] ∧ length (flat water) = H * W) waters →
  mask_timeless eopatch !! "NOMINAL_WATER" = Some nominal →
  shape nominal = [H; W; 1] → well_formed nominal →
  np_count_nonzero nominal ≠ 0%Z →
  WaterDetectionTask.store_water eopatch (np_asarray waters)
  = Returned
      (with_scalar
         (with_mask eopatch
            (<["WATER_MASK" := mk_ndarray [length waters; H; W; 1]
                                 (flat_map (water_in_extent nominal) waters)]>
               (mask eopatch)))
         (<["WATER_LEVEL" := mk_ndarray [length waters; 1]
                               (List.map (water_level_of nominal) waters)]>
            (scalar eopatch))).
Proof.
  intros Hne Hall Hnom Hs Hwf Hcount. unfold WaterDetectionTask.store_water, getitem.
  rewrite Hnom. cbn [bind].
  rewrite (broadcast_water_masks H W) by done. cbn [bind].
  unfold np_iter. cbn [shape flat bind].
  assert (Hlens : Forall (fun w => length (water_in_extent nominal w)
                                   = prod_shape [H; W; 1]) waters).
  { eapply Forall_impl; [exact Hall|]. cbn. intros w [_ Hw].
    apply length_water_in_extent; [lia|]. unfold well_formed in Hwf.
    rewrite Hwf, Hs. cbn. lia. }
  unfold subarray.
  rewrite <- (map_map (fun j => chunk (prod_shape [H; W; 1]) j _)
                (mk_ndarray [H; W; 1])).
  rewrite chunks_of_flat_map by done.
  rewrite water_level_list_ok by done. cbn [bind].
  rewrite !map_map, !length_map. cbn [np_count_nonzero flat].
  reflexivity.
Qed.

(** ** [WaterDetectionTask.execute] on a well-formed patch *)

Lemma np_iter_frames (ndwi : ndarray float) T H W C frames :
  shape ndwi = [T; H; W; C] → well_formed ndwi →
  np_iter ndwi = Ok frames →
  frames = List.map (subarray [H; W; C] (flat ndwi)) (seq 0 T) ∧
  length frames = T ∧
  Forall (is_frame H W C) frames.
Proof.
  intros Hs Hwf. unfold np_iter. rewrite Hs. intros [= <-].
  split; [done|]. split; [by rewrite length_map, length_seq|].
  apply List.Forall_forall. intros frame (i & <- & Hi%in_seq)%in_map_iff.
  split; [done|]. unfold subarray. cbn [flat].
  rewrite length_chunk; [cbn; lia|].
  unfold well_formed in Hwf. rewrite Hwf, Hs.
  cbn [prod_shape fold_right].
  apply (Nat.mul_le_mono_r (S i) T). lia.
Qed.

Section ExecuteFacts.
Variable threshold_otsu : ndarray float → result float.
Variable equal_nan : bool.

(** The patch [execute] returns. *)
Lemma execute_returns (eopatch : EOPatch) (ndwi : ndarray float) (nominal : ndarray Z)
    (T H W C : nat) (frames frames' : list (ndarray float))
    (waters : list (ndarray bool)) :
  water_scene eopatch ndwi nominal T H W C →
  np_iter ndwi = Ok frames →
  WaterDetectionTask.detect_frames threshold_otsu equal_nan frames
  = (frames', Ok waters) →
  np_count_nonzero nominal ≠ 0%Z →
  WaterDetectionTask.execute threshold_otsu equal_nan eopatch
  = Returned
      (mk_EOPatch
         (<["NDWI" := mk_ndarray (shape ndwi) (List.concat (List.map flat frames'))]>
            (data eopatch))
         (<["WATER_MASK" := mk_ndarray [T; H; W; 1]
                              (flat_map (water_in_extent nominal) waters)]>
            (mask eopatch))
         (<["WATER_LEVEL" := mk_ndarray [T; 1]
                               (List.map (water_level_of nominal) waters)]>
            (scalar eopatch))
         (mask_timeless eopatch) (vector_timeless eopatch) (bbox eopatch)) ∧
  length waters = T.
Proof.
  intros [Hndwi Hs Hwf HT HC Hnom Hns Hnwf] Hiter Hdetect Hcount.
  destruct (np_iter_frames ndwi T H W C frames Hs Hwf Hiter) as (_ & Hlen & Hframes).
  destruct (detect_frames_ok threshold_otsu equal_nan H W C frames frames' waters
              HC Hframes Hdetect) as (_ & Hviews & Hwaters).
  assert (Hlw : length waters = T).
  { apply Forall2_length in Hviews. lia. }
  split; [|done].
  unfold WaterDetectionTask.execute, getitem. rewrite Hndwi, Hiter, Hdetect.
  rewrite (store_water_returns H W _ waters nominal); try done.
  - by rewrite Hlw.
  - intros ->. cbn in Hlw. lia.
Qed.

(** The frames of a scene and what the detector makes of them. *)
Lemma scene_frames_detected (eopatch : EOPatch) (ndwi : ndarray float)
    (nominal : ndarray Z) (T H W C : nat) :
  water_scene eopatch ndwi nominal T H W C →
  detects_every_frame threshold_otsu equal_nan ndwi →
  ∃ frames frames' waters,
    np_iter ndwi = Ok frames ∧
    WaterDetectionTask.detect_frames threshold_otsu equal_nan frames
    = (frames', Ok waters).
Proof.
  intros [Hndwi Hs Hwf HT HC Hnom Hns Hnwf] Hdet.
  destruct (np_iter ndwi) as [frames|e] eqn:Hiter.
  2:{ unfold np_iter in Hiter. by rewrite Hs in Hiter. }
  destruct (np_iter_frames ndwi T H W C frames Hs Hwf Hiter) as (_ & _ & Hframes).
  destruct (detect_frames_returns threshold_otsu equal_nan H W C frames HC Hframes)
    as (frames' & waters & Hdetect).
  { intros frame view. by apply Hdet. }
  by exists frames, frames', waters.
Qed.

End ExecuteFacts.

(** ** Counting water inside the extent *)

Lemma truthy_mul_bool_int (b : bool) (v : Z) :
  truthy (mul_bool_int b v) = b && truthy v.
Proof. by destruct b. Qed.

Lemma count_true_cons {A : Type} `{Truthy A} (x : A) (l : list A) :
  count_true (x :: l) = (if truthy x then 1 else 0) + count_true l.
Proof. unfold count_true. cbn. by destruct (truthy x). Qed.

Lemma count_true_le_length {A : Type} `{Truthy A} (l : list A) :
  count_true l ≤ length l.
Proof.
  induction l as [|x l IH]; [done|]. rewrite count_true_cons. cbn.
  destruct (truthy x); lia.
Qed.

Lemma count_true_zip_mul (ws : list bool) (ns : list Z) :
  count_true (zip_with mul_bool_int ws ns)
  = count_true (zip_with (fun w n => w && truthy n) ws ns).
Proof.
  revert ns. induction ws as [|w ws IH]; intros [|n ns]; try done.
  cbn [zip_with]. rewrite !count_true_cons, IH.
  by rewrite truthy_mul_bool_int.
Qed.

(** The water inside the extent never outnumbers the extent. *)
Lemma count_true_zip_mul_le (ws : list bool) (ns : list Z) :
  count_true (zip_with mul_bool_int ws ns) ≤ count_true ns.
Proof.
  revert ns. induction ws as [|w ws IH]; intros [|n ns]; try (cbn; lia).
  cbn [zip_with]. rewrite !count_true_cons, truthy_mul_bool_int.
  specialize (IH ns). destruct w, (truthy n); cbn; lia.
Qed.

Lemma count_true_zip_mul_all (ws : list bool) (ns : list Z) :
  length ws = length ns → Forall (fun n => truthy n = true) ns →
  count_true (zip_with mul_bool_int ws ns) = count_true ws ∧
  count_true ns = length ns.
Proof.
  revert ns. induction ws as [|w ws IH]; intros [|n ns] Hlen Hall; try done.
  inversion Hall as [|? ? Hn Hns]; subst. cbn [zip_with].
  rewrite !count_true_cons, truthy_mul_bool_int, Hn.
  destruct (IH ns) as [-> ->]; [by injection Hlen|done|].
  rewrite andb_true_r. cbn [length]. split; [done|lia].
Qed.

(** ** Binary64 division of counts *)

Section Binary64.
Local Open Scope Z_scope.

Lemma digits2_pos_bounds (p : positive) :
  2 ^ (Z.pos (digits2_pos p) - 1) ≤ Z.pos p < 2 ^ Z.pos (digits2_pos p).
Proof.
  induction p as [p IH|p IH|]; cbn [digits2_pos]; [| |cbn; lia].
  - rewrite Pos2Z.inj_succ, (Pos2Z.inj_xI p).
    replace (Z.succ (Z.pos (digits2_pos p)) - 1) with (Z.succ (Z.pos (digits2_pos p) - 1)) by lia.
    rewrite !Z.pow_succ_r by lia. lia.
  - rewrite Pos2Z.inj_succ, (Pos2Z.inj_xO p).
    replace (Z.succ (Z.pos (digits2_pos p)) - 1) with (Z.succ (Z.pos (digits2_pos p) - 1)) by lia.
    rewrite !Z.pow_succ_r by lia. lia.
Qed.

Lemma digits2_pos_unique (p : positive) (d : Z) :
  2 ^ (d - 1) ≤ Z.pos p < 2 ^ d → Z.pos (digits2_pos p) = d.
Proof.
  intros [Hlo Hhi]. pose proof (digits2_pos_bounds p) as [Hlo' Hhi'].
  assert (0 < d).
  { destruct (Z.ltb_spec 0 d); [done|].
    rewrite Z.pow_neg_r in Hlo by lia. 
    destruct (Z.eqb_spec d 0) as [->|]; [cbn in Hhi; lia|].
    rewrite Z.pow_neg_r in Hhi by lia. lia. }
  destruct (Z.lt_trichotomy (Z.pos (digits2_pos p)) d) as [Hlt|[Heq|Hgt]]; [|done|].
  - assert (2 ^ Z.pos (digits2_pos p) ≤ 2 ^ (d - 1)) by (apply Z.pow_le_mono_r; lia). lia.
  - assert (2 ^ d ≤ 2 ^ (Z.pos (digits2_pos p) - 1)) by (apply Z.pow_le_mono_r; lia). lia.
Qed.

Lemma Zdigits2_53 (m : Z) : 2 ^ 52 ≤ m < 2 ^ 53 → Zdigits2 m = 53.
Proof.
  intros Hm. destruct m as [|p|p]; [lia| |lia]. cbn [Zdigits2].
  by apply digits2_pos_unique.
Qed.

Lemma Zdigits2_54 (m : Z) : 2 ^ 53 ≤ m < 2 ^ 54 → Zdigits2 m = 54.
Proof.
  intros Hm. destruct m as [|p|p]; [lia| |lia]. cbn [Zdigits2].
  by apply digits2_pos_unique.
Qed.

Lemma shr_fexp_53 (m e : Z) (l : location) :
  2 ^ 52 ≤ m < 2 ^ 53 → -1074 ≤ e →
  shr_fexp 53 1024 m e l = (shr_record_of_loc m l, e).
Proof.
  intros Hm He. unfold shr_fexp. rewrite Zdigits2_53 by done.
  unfold fexp, emin.
  replace (Z.max (53 + e - 53) (3 - 1024 - 53) - e) with 0 by lia.
  reflexivity.
Qed.

Lemma shr_fexp_54 (m e : Z) (l : location) :
  2 ^ 53 ≤ m < 2 ^ 54 → -1075 ≤ e →
  shr_fexp 53 1024 m e l = (shr_1 (shr_record_of_loc m l), e + 1).
Proof.
  intros Hm He. unfold shr_fexp. rewrite Zdigits2_54 by done.
  unfold fexp, emin.
  replace (Z.max (54 + e - 53) (3 - 1024 - 53) - e) with 1 by lia.
  reflexivity.
Qed.

Lemma binary_round_aux_pack sx mx ex lx :
  binary_round_aux 53 1024 sx mx ex lx
  = let '(mrs, e) := shr_fexp 53 1024 mx ex lx in
    pack sx (round_nearest_even (shr_m mrs) (loc_of_shr_record mrs)) e.
Proof. reflexivity. Qed.

Lemma pack_53 (m e : Z) :
  2 ^ 52 ≤ m ≤ 2 ^ 53 → -1074 ≤ e ≤ 970 →
  ∃ p e', pack false m e = S754_finite false p e' ∧
    ((e' = e ∧ m < 2 ^ 53) ∨ (e' = e + 1 ∧ p = 4503599627370496%positive)).
Proof.
  intros Hm He. destruct (Z.eq_dec m (2 ^ 53)) as [->|Hne].
  - unfold pack. rewrite shr_fexp_54 by lia.
    change (2 ^ 53) with 9007199254740992.
    cbn [shr_record_of_loc shr_1 shr_m].
    exists 4503599627370496%positive, (e + 1). split; [|by right].
    destruct (Z.leb_spec (e + 1) (1024 - 53)); [done|lia].
  - unfold pack. rewrite shr_fexp_53 by lia. cbn [shr_record_of_loc shr_m].
    destruct m as [|p|p]; [lia| |lia].
    exists p, e. split; [|left; lia].
    destruct (Z.leb_spec e (1024 - 53)); [done|lia].
Qed.

Lemma round_nearest_even_bounds (x : Z) (l : location) :
  x ≤ round_nearest_even x l ≤ x + 1.
Proof. destruct l as [|[]]; cbn; try destruct (Z.even x); lia. Qed.

Lemma loc_of_shr_record_of_loc m l :
  loc_of_shr_record (shr_record_of_loc m l) = l.
Proof. by destruct l as [|[]]. Qed.

Lemma shr_m_record_of_loc m l : shr_m (shr_record_of_loc m l) = m.
Proof. by destruct l as [|[]]. Qed.

Lemma round_53 (m e : Z) (l : location) :
  2 ^ 52 ≤ m < 2 ^ 53 → -1074 ≤ e ≤ 970 →
  ∃ p e', binary_round_aux 53 1024 false m e l = S754_finite false p e' ∧
    (e' = e ∨ (e' = e + 1 ∧ p = 4503599627370496%positive)).
Proof.
  intros Hm He. rewrite binary_round_aux_pack, shr_fexp_53 by lia.
  rewrite loc_of_shr_record_of_loc, shr_m_record_of_loc.
  pose proof (round_nearest_even_bounds m l).
  destruct (pack_53 (round_nearest_even m l) e) as (p & e' & -> & Hcases);
    [lia|lia|].
  exists p, e'. split; [done|]. destruct Hcases as [[-> _]|[-> ->]]; auto.
Qed.

Lemma shr_1_half (m : Z) (r s : bool) :
  2 ≤ m → 2 * shr_m (shr_1 (Build_shr_record m r s)) ≤ m
          < 2 * shr_m (shr_1 (Build_shr_record m r s)) + 2.
Proof. intros Hm. destruct m as [|[q|q|]|]; cbn; lia. Qed.

Lemma round_54 (m e : Z) (l : location) :
  2 ^ 53 ≤ m < 2 ^ 54 → -1075 ≤ e ≤ 969 →
  ∃ p e', binary_round_aux 53 1024 false m e l = S754_finite false p e' ∧
    (e' = e + 1 ∨ (e' = e + 2 ∧ p = 4503599627370496%positive)).
Proof.
  intros Hm He. rewrite binary_round_aux_pack, shr_fexp_54 by lia.
  set (mrs := shr_1 (shr_record_of_loc m l)).
  assert (Hhalf : 2 ^ 52 ≤ shr_m mrs < 2 ^ 53).
  { subst mrs. destruct l as [|[]]; cbn [shr_record_of_loc];
      match goal with |- context [Build_shr_record m ?r ?s] =>
        pose proof (shr_1_half m r s) end; lia. }
  pose proof (round_nearest_even_bounds (shr_m mrs) (loc_of_shr_record mrs)).
  destruct (pack_53 (round_nearest_even (shr_m mrs) (loc_of_shr_record mrs)) (e + 1))
    as (p & e' & -> & Hcases); [lia|lia|].
  exists p, e'. split; [done|]. destruct Hcases as [[-> _]|[-> ->]]; [auto|].
  right. split; [lia|done].
Qed.

Lemma round_54_exact (e : Z) :
  -1075 ≤ e ≤ 969 →
  binary_round_aux 53 1024 false (2 ^ 53) e loc_Exact
  = S754_finite false 4503599627370496 (e + 1).
Proof.
  intros He. rewrite binary_round_aux_pack, shr_fexp_54 by lia.
  change (2 ^ 53) with 9007199254740992.
  cbn [shr_record_of_loc shr_1 shr_m loc_of_shr_record orb round_nearest_even].
  unfold pack. rewrite shr_fexp_53 by lia. cbn [shr_record_of_loc shr_m].
  destruct (Z.leb_spec (e + 1) (1024 - 53)); [done|lia].
Qed.

Lemma new_location_0 (nb : Z) : new_location nb 0 = loc_Exact.
Proof. unfold new_location. by destruct (Z.even nb). Qed.

(** Division of two normal numbers with 53-bit mantissas, the first at
    most the second. *)
Lemma div_at_most_one (mk mn : positive) (ek en : Z) :
  2 ^ 52 ≤ Z.pos mk < 2 ^ 53 → 2 ^ 52 ≤ Z.pos mn < 2 ^ 53 →
  -52 ≤ ek ≤ 0 → -52 ≤ en ≤ 0 →
  ek < en ∨ (ek = en ∧ Z.pos mk ≤ Z.pos mn) →
  at_most_one (SFdiv 53 1024 (S754_finite false mk ek) (S754_finite false mn en)).
Proof.
  intros Hmk Hmn Hek Hen Hle. unfold SFdiv, SFdiv_core_binary.
  rewrite !Zdigits2_53 by done. unfold fexp, emin.
  replace (Z.min (Z.max (53 + ek - (53 + en) - 53) (3 - 1024 - 53)) (ek - en))
    with (ek - en - 53) by lia.
  replace (ek - en - (ek - en - 53)) with 53 by lia.
  rewrite Z.shiftl_mul_pow2 by lia.
  pose proof (Z_div_mod (Z.pos mk * 2 ^ 53) (Z.pos mn) ltac:(lia)) as Hdiv.
  destruct (Z.div_eucl (Z.pos mk * 2 ^ 53) (Z.pos mn)) as [q r].
  destruct Hdiv as [Hq Hr]. cbn [xorb].
  change (2 ^ 52) with 4503599627370496 in *.
  change (2 ^ 53) with 9007199254740992 in *.
  assert (Hq52 : 4503599627370496 ≤ q) by nia.
  assert (Hq54 : q < 18014398509481984) by nia.
  destruct (Z.lt_ge_cases (Z.pos mk) (Z.pos mn)) as [Hlt|Hge].
  - assert (Hq53 : q < 9007199254740992) by nia.
    destruct (round_53 q (ek - en - 53) (new_location (Z.pos mn) r))
      as (p & e' & -> & Hcases); [done|lia|].
    exists p, e'. split; [done|]. destruct Hcases as [->|[-> ->]]; lia.
  - assert (Hq53 : 9007199254740992 ≤ q) by nia.
    destruct Hle as [Hlt|[-> Hle]].
    + destruct (round_54 q (ek - en - 53) (new_location (Z.pos mn) r))
        as (p & e' & -> & Hcases); [done|lia|].
      exists p, e'. split; [done|]. destruct Hcases as [->|[-> ->]]; lia.
    + assert (Z.pos mk = Z.pos mn) as Heq by lia.
      assert (q = 9007199254740992 ∧ r = 0) as [-> ->] by nia.
      rewrite new_location_0.
      change 9007199254740992 with (2 ^ 53).
      rewrite round_54_exact by lia.
      exists 4503599627370496%positive, (en - en - 53 + 1). split; [done|].
      right. split; [lia|done].
Qed.

Lemma round_exact (m : positive) (e : Z) :
  2 ^ 52 ≤ Z.pos m < 2 ^ 53 → -1074 ≤ e ≤ 971 →
  binary_round_aux 53 1024 false (Z.pos m) e loc_Exact = S754_finite false m e.
Proof.
  intros Hm He. rewrite binary_round_aux_pack, shr_fexp_53 by lia.
  cbn [shr_record_of_loc shr_m loc_of_shr_record round_nearest_even].
  unfold pack. rewrite shr_fexp_53 by lia. cbn [shr_record_of_loc shr_m].
  destruct (Z.leb_spec e (1024 - 53)); [done|lia].
Qed.

Lemma iter_xO_value (p j : positive) :
  Z.pos (Pos.iter xO p j) = Z.pos p * 2 ^ Z.pos j.
Proof.
  pose proof (shift_pos_correct j p) as Hshift. unfold shift_pos in Hshift.
  rewrite Hshift. change (Zpower_pos 2 j) with (2 ^ Z.pos j). lia.
Qed.

(** The float of a positive integer below [2^53]: a 53-bit mantissa [m]
    and an exponent [e] with [z = m * 2^e]. *)
Lemma of_int_normal (z : Z) :
  0 < z < 2 ^ 53 →
  ∃ m e, Float.of_int z = S754_finite false m e ∧
    2 ^ 52 ≤ Z.pos m < 2 ^ 53 ∧ -52 ≤ e ≤ 0 ∧ Z.pos m = z * 2 ^ (- e).
Proof.
  intros Hz. destruct z as [|p|p]; [lia| |lia].
  pose proof (digits2_pos_bounds p) as [Hlo Hhi].
  set (d := Z.pos (digits2_pos p)) in *.
  assert (Hd : 1 ≤ d ≤ 53).
  { split; [subst d; lia|]. destruct (Z.le_gt_cases d 53) as [|Hgt]; [done|].
    assert (2 ^ 53 ≤ 2 ^ (d - 1)) by (apply Z.pow_le_mono_r; lia). lia. }
  unfold Float.of_int, binary_normalize, binary_round, Float.prec, Float.emax.
  fold d. unfold fexp, emin.
  replace (Z.max (d + 0 - 53) (3 - 1024 - 53)) with (d - 53) by lia.
  unfold shl_align. destruct (d - 53 - 0) as [|j|j] eqn:Hj; [|lia|].
  - assert (d = 53) as Hd53 by lia. rewrite Hd53 in *.
    rewrite round_exact by (cbn in *; lia).
    exists p, 0. change (53 - 1) with 52 in Hlo. change (2 ^ (- 0)) with 1.
    repeat split; [done|done|lia|lia|lia].
  - assert (Hpow : 2 ^ (d - 1) * 2 ^ Z.pos j = 2 ^ 52).
    { rewrite <- Z.pow_add_r by lia. f_equal. lia. }
    assert (Hpow' : 2 ^ d * 2 ^ Z.pos j = 2 ^ 53).
    { rewrite <- Z.pow_add_r by lia. f_equal. lia. }
    assert (0 < 2 ^ Z.pos j) by (apply Z.pow_pos_nonneg; lia).
    pose proof (iter_xO_value p j) as Hval.
    rewrite round_exact by (rewrite ?Hval; nia).
    exists (Pos.iter xO p j), (d - 53). split; [done|].
    split; [rewrite Hval; nia|]. split; [lia|].
    rewrite Hval. do 2 f_equal. lia.
Qed.

Lemma at_most_one_leb (x : spec_float) :
  at_most_one x → Float.leb Float.zero x = true ∧ Float.leb x Float.one = true.
Proof.
  intros (m & e & -> & Hcases). split; [done|].
  change Float.one with (S754_finite false 4503599627370496 (-52)).
  unfold Float.leb, SFleb. cbn [SFcompare].
  destruct Hcases as [Hlt|[-> ->]]; [|done].
  apply Z.compare_lt_iff in Hlt. by rewrite Hlt.
Qed.

(** The quotient of two counts [k ≤ n], as Python computes [k / n], lies
    between 0.0 and 1.0. *)
Lemma div_counts_unit_interval (k n : Z) :
  0 ≤ k ≤ n → 0 < n < 2 ^ 53 →
  Float.leb Float.zero (Float.div (Float.of_int k) (Float.of_int n)) = true ∧
  Float.leb (Float.div (Float.of_int k) (Float.of_int n)) Float.one = true.
Proof.
  intros Hk Hn.
  destruct (of_int_normal n Hn) as (mn & en & -> & Hmn & Hen & Hvn).
  destruct (Z.eq_dec k 0) as [->|Hk0]; [done|].
  destruct (of_int_normal k ltac:(lia)) as (mk & ek & -> & Hmk & Hek & Hvk).
  apply at_most_one_leb, div_at_most_one; try done.
  assert (0 < 2 ^ (- ek)) by (apply Z.pow_pos_nonneg; lia).
  destruct (Z.lt_trichotomy ek en) as [Hlt|[->|Hgt]]; [by left|right; split; [done|nia]|].
  exfalso.
  assert (Hsplit : 2 ^ (- en) = 2 ^ (- ek) * 2 ^ (ek - en)).
  { rewrite <- Z.pow_add_r by lia. f_equal. lia. }
  assert (2 ^ 1 ≤ 2 ^ (ek - en)) by (apply Z.pow_le_mono_r; lia).
  change (2 ^ 1) with 2 in *. nia.
Qed.
End Binary64.

(** ** C3 and C9: the water mask and the water level *)

Section WaterLevel.
Variable threshold_otsu : ndarray float → result float.
Variable equal_nan : bool.

(** C3. On a patch whose nominal extent lies on the grid of the frames and
    has at least one true pixel, and whose frames all get a threshold,
    [execute] returns.  The water mask of a frame is the detector's mask
    of channel 0 times the nominal extent, so a pixel is set exactly when
    it is water and inside the extent; the water level of the frame is the
    number of such pixels divided by the number of pixels of the extent.
    If the whole [H x W] grid belongs to the extent, the level is the
    number of water pixels divided by [H * W]. *)
Theorem water_level_is_share_of_extent (eopatch : EOPatch)
    (ndwi : ndarray float) (nominal : ndarray Z) (T H W C : nat) :
  water_scene eopatch ndwi nominal T H W C →
  detects_every_frame threshold_otsu equal_nan ndwi →
  (0 < np_count_nonzero nominal)%Z →
  ∃ eopatch' frames waters,
    WaterDetectionTask.execute threshold_otsu equal_nan eopatch = Returned eopatch' ∧
    np_iter ndwi = Ok frames ∧
    Forall2 (fun frame water =>
               ∃ view, index_last0 frame = Ok view ∧
                 snd (WaterDetectionTask.detect_water threshold_otsu equal_nan view)
                 = Ok water) frames waters ∧
    mask eopatch' !! "WATER_MASK"
    = Some (mk_ndarray [T; H; W; 1]
              (flat_map (fun water => zip_with mul_bool_int (flat water) (flat nominal))
                 waters)) ∧
    (∀ (w : bool) (n : Z), truthy (mul_bool_int w n) = w && truthy n) ∧
    scalar eopatch' !! "WATER_LEVEL"
    = Some (mk_ndarray [T; 1]
              (List.map
                 (fun water =>
                    Float.div
                      (Float.of_int
                         (Z.of_nat
                            (count_true
                               (zip_with (fun w n => w && truthy n)
                                  (flat water) (flat nominal)))))
                      (Float.of_int (np_count_nonzero nominal)))
                 waters)) ∧
    (Forall (fun n => truthy n = true) (flat nominal) →
     scalar eopatch' !! "WATER_LEVEL"
     = Some (mk_ndarray [T; 1]
               (List.map
                  (fun water =>
                     Float.div (Float.of_int (np_count_nonzero water))
                               (Float.of_int (Z.of_nat (H * W))))
                  waters))).
Proof.
  intros Hscene Hdet Hcount.
  destruct (scene_frames_detected threshold_otsu equal_nan eopatch ndwi nominal
              T H W C Hscene Hdet) as (frames & frames' & waters & Hiter & Hdetect).
  destruct (execute_returns threshold_otsu equal_nan eopatch ndwi nominal T H W C
              frames frames' waters Hscene Hiter Hdetect ltac:(lia)) as [Hexec Hlen].
  destruct Hscene as [Hndwi Hs Hwf HT HC Hnom Hns Hnwf].
  destruct (np_iter_frames ndwi T H W C frames Hs Hwf Hiter) as (_ & _ & Hframes).
  destruct (detect_frames_ok threshold_otsu equal_nan H W C frames frames' waters
              HC Hframes Hdetect) as (_ & Hviews & Hwaters).
  eexists _, frames, waters. split; [exact Hexec|]. cbn [mask scalar].
  rewrite !lookup_insert_eq.
  split; [done|]. split; [done|]. split; [done|]. split; [apply truthy_mul_bool_int|].
  split.
  - do 2 f_equal. apply map_ext. intros water. unfold water_level_of, water_in_extent.
    by rewrite count_true_zip_mul.
  - intros Hall. do 2 f_equal. apply map_ext_in.
    intros water Hin. unfold water_level_of, water_in_extent, np_count_nonzero.
    rewrite List.Forall_forall in Hwaters. destruct (Hwaters water Hin) as [_ Hwl].
    unfold well_formed in Hnwf. rewrite Hns in Hnwf. cbn in Hnwf.
    destruct (count_true_zip_mul_all (flat water) (flat nominal)) as [-> ->];
      [lia|done|].
    do 3 f_equal. lia.
Qed.

(** C9, as the code has it.  On a patch whose nominal extent lies on the
    grid of the frames ([water_scene]) and has at least one true pixel,
    and whose frames all get a threshold, every water level is a float
    between 0.0 and 1.0: the mask is cut to the nominal extent before it
    is counted, so the count is at most the count of the extent. *)
Theorem water_level_in_unit_interval (eopatch : EOPatch)
    (ndwi : ndarray float) (nominal : ndarray Z) (T H W C : nat) :
  water_scene eopatch ndwi nominal T H W C →
  detects_every_frame threshold_otsu equal_nan ndwi →
  (0 < np_count_nonzero nominal)%Z →
  (Z.of_nat (H * W) < 2 ^ 53)%Z →
  ∃ eopatch' levels,
    WaterDetectionTask.execute threshold_otsu equal_nan eopatch = Returned eopatch' ∧
    scalar eopatch' !! "WATER_LEVEL" = Some (mk_ndarray [T; 1] levels) ∧
    length levels = T ∧
    Forall (fun level => Float.leb Float.zero level = true ∧
                         Float.leb level Float.one = true) levels.
Proof.
  intros Hscene Hdet Hcount Hsmall.
  destruct (scene_frames_detected threshold_otsu equal_nan eopatch ndwi nominal
              T H W C Hscene Hdet) as (frames & frames' & waters & Hiter & Hdetect).
  destruct (execute_returns threshold_otsu equal_nan eopatch ndwi nominal T H W C
              frames frames' waters Hscene Hiter Hdetect ltac:(lia)) as [Hexec Hlen].
  destruct Hscene as [Hndwi Hs Hwf HT HC Hnom Hns Hnwf].
  eexists _, (List.map (water_level_of nominal) waters).
  split; [exact Hexec|]. cbn [scalar]. rewrite lookup_insert_eq.
  split; [done|]. split; [by rewrite length_map|].
  apply Forall_map, List.Forall_forall. intros water _.
  unfold water_level_of, water_in_extent, np_count_nonzero in *.
  pose proof (count_true_zip_mul_le (flat water) (flat nominal)).
  pose proof (count_true_le_length (flat nominal)) as Hle.
  unfold well_formed in Hnwf. rewrite Hnwf, Hns in Hle. cbn in Hle.
  apply div_counts_unit_interval; lia.
Qed.

End WaterLevel.

(** ** What [execute] leaves alone *)

Lemma nan_overwritten_concat (ls ls' : list (ndarray float)) :
  Forall2 (fun a a' => shape a' = shape a ∧
                       Forall2 nan_overwritten (flat a) (flat a')) ls ls' →
  Forall2 nan_overwritten (List.concat (List.map flat ls))
                          (List.concat (List.map flat ls')).
Proof.
  induction 1 as [|a a' ls ls' [_ Ha] _ IH]; [constructor|].
  cbn. by apply Forall2_app.
Qed.

Lemma nan_overwritten_no_nan (l l' : list float) :
  Forall (fun x => Float.isnan x = false) l →
  Forall2 nan_overwritten l l' → l' = l.
Proof.
  intros Hl Hll. induction Hll as [|x y l l' Hxy _ IH]; [done|].
  inversion Hl as [|? ? Hx Hrest]; subst. rewrite IH by done.
  destruct Hxy as [->|[Hnan _]]; [done|congruence].
Qed.

Section WrittenFacts.
Variable threshold_otsu : ndarray float → result float.
Variable equal_nan : bool.

Lemma detect_frames_written H W C (frames frames' : list (ndarray float))
    (r : result (list (ndarray bool))) :
  Forall (is_frame H W C) frames →
  WaterDetectionTask.detect_frames threshold_otsu equal_nan frames = (frames', r) →
  Forall2 (fun frame frame' =>
             shape frame' = shape frame ∧
             Forall2 nan_overwritten (flat frame) (flat frame')) frames frames'.
Proof.
  assert (Hrefl : ∀ l : list (ndarray float),
            Forall2 (fun frame frame' =>
                       shape frame' = shape frame ∧
                       Forall2 nan_overwritten (flat frame) (flat frame')) l l).
  { induction l; constructor; [|done]. split; [done|apply nan_overwritten_refl]. }
  intros Hframes. revert frames' r.
  induction Hframes as [|frame frames Hframe _ IH]; intros frames' r.
  - cbn. intros [= <- <-]. constructor.
  - cbn [WaterDetectionTask.detect_frames].
    destruct (Nat.eq_dec C 0) as [->|HC].
    { destruct Hframe as [Hfs _]. unfold index_last0. rewrite Hfs. cbn.
      intros [= <- <-]. apply Hrefl. }
    rewrite (index_last0_frame H W C) by (done || lia).
    set (view := mk_ndarray [H; W] (heads C (H * W) (flat frame))).
    pose proof (detect_water_written threshold_otsu equal_nan view) as [_ Hwritten].
    destruct (WaterDetectionTask.detect_water threshold_otsu equal_nan view)
      as [view' r1].
    assert (Hhead : shape (set_last0 frame view') = shape frame ∧
                    Forall2 nan_overwritten (flat frame) (flat (set_last0 frame view'))).
    { destruct Hframe as [Hfs Hfl]. unfold set_last0. rewrite Hfs. cbn.
      split; [done|]. apply (set_heads_overwritten C (H * W)); [lia|lia|done]. }
    destruct r1 as [water|e].
    + destruct (WaterDetectionTask.detect_frames threshold_otsu equal_nan frames)
        as [rest' rs]. intros [= <- <-]. constructor; [done|]. by eapply IH.
    + intros [= <- <-]. constructor; [done|apply Hrefl].
Qed.

Lemma store_water_frame (eopatch : EOPatch) (water_masks : ndarray bool) :
  let eopatch' := final_patch (WaterDetectionTask.store_water eopatch water_masks) in
  data eopatch' = data eopatch ∧
  mask_timeless eopatch' = mask_timeless eopatch ∧
  vector_timeless eopatch' = vector_timeless eopatch ∧
  bbox eopatch' = bbox eopatch ∧
  (∀ name, name ≠ "WATER_MASK" → mask eopatch' !! name = mask eopatch !! name) ∧
  (∀ name, name ≠ "WATER_LEVEL" → scalar eopatch' !! name = scalar eopatch !! name).
Proof.
  unfold WaterDetectionTask.store_water.
  destruct (bind _ _) as [[masks levels]|e]; [|done].
  unfold setitem_mask, setitem_scalar.
  destruct (ndim masks =? 4); [|done].
  destruct (ndim (newaxis levels) =? 2); cbn.
  - repeat split; try done; intros name Hname; by rewrite lookup_insert_ne.
  - repeat split; try done. intros name Hname. by rewrite lookup_insert_ne.
Qed.

(** What [execute] leaves in the data features. *)
Lemma execute_final_data (eopatch : EOPatch) (ndwi : ndarray float)
    (frames : list (ndarray float)) :
  data eopatch !! "NDWI" = Some ndwi → np_iter ndwi = Ok frames →
  data (final_patch (WaterDetectionTask.execute threshold_otsu equal_nan eopatch))
  = <["NDWI" := mk_ndarray (shape ndwi)
                  (List.concat
                     (List.map flat
                        (fst (WaterDetectionTask.detect_frames threshold_otsu
                                equal_nan frames))))]>
      (data eopatch).
Proof.
  intros Hndwi Hiter. unfold WaterDetectionTask.execute, getitem.
  rewrite Hndwi, Hiter.
  destruct (WaterDetectionTask.detect_frames threshold_otsu equal_nan frames)
    as [frames' [waters|e]]; [|done].
  by destruct (store_water_frame
                 (with_data eopatch
                    (<["NDWI" := mk_ndarray (shape ndwi)
                                   (List.concat (List.map flat frames'))]>
                       (data eopatch)))
                 (np_asarray waters)) as [-> _].
Qed.

(** Whichever way [execute] ends, it leaves the nominal extent, the
    vector features, the bounding box and every feature other than
    [NDWI], [WATER_MASK] and [WATER_LEVEL] as they were.  [NDWI] keeps its
    shape; a NaN may have become -1, nothing else changes, and a stack
    without NaN is left as it was. *)
Lemma execute_keeps_the_rest (eopatch : EOPatch)
    (ndwi : ndarray float) (T H W C : nat) :
  data eopatch !! "NDWI" = Some ndwi →
  shape ndwi = [T; H; W; C] → well_formed ndwi →
  let eopatch' :=
    final_patch (WaterDetectionTask.execute threshold_otsu equal_nan eopatch) in
  mask_timeless eopatch' = mask_timeless eopatch ∧
  vector_timeless eopatch' = vector_timeless eopatch ∧
  bbox eopatch' = bbox eopatch ∧
  (∀ name, name ≠ "WATER_MASK" → mask eopatch' !! name = mask eopatch !! name) ∧
  (∀ name, name ≠ "WATER_LEVEL" → scalar eopatch' !! name = scalar eopatch !! name) ∧
  (∀ name, name ≠ "NDWI" → data eopatch' !! name = data eopatch !! name) ∧
  (∃ ndwi', data eopatch' !! "NDWI" = Some ndwi' ∧
            shape ndwi' = shape ndwi ∧
            Forall2 nan_overwritten (flat ndwi) (flat ndwi')) ∧
  (Forall (fun x => Float.isnan x = false) (flat ndwi) →
   data eopatch' = data eopatch).
Proof.
  intros Hndwi Hs Hwf.
  unfold WaterDetectionTask.execute, getitem. rewrite Hndwi.
  destruct (np_iter ndwi) as [frames|e] eqn:Hiter.
  2:{ unfold np_iter in Hiter. by rewrite Hs in Hiter. }
  destruct (np_iter_frames ndwi T H W C frames Hs Hwf Hiter) as (Hfr & _ & Hframes).
  destruct (WaterDetectionTask.detect_frames threshold_otsu equal_nan frames)
    as [frames' r] eqn:Hdetect.
  pose proof (detect_frames_written H W C frames frames' r Hframes Hdetect) as Hwritten.
  apply nan_overwritten_concat in Hwritten.
  assert (Hflat : List.concat (List.map flat frames) = flat ndwi).
  { rewrite Hfr, map_map. unfold subarray. cbn [flat].
    apply concat_map_chunks. unfold well_formed in Hwf. rewrite Hwf, Hs. cbn. lia. }
  rewrite Hflat in Hwritten.
  set (written := mk_ndarray (shape ndwi) (List.concat (List.map flat frames'))) in *.
  set (eopatch1 := with_data eopatch (<["NDWI" := written]> (data eopatch))).
  assert (Hfinal : ∀ o,
            data (final_patch o) = data eopatch1 ∧
            mask_timeless (final_patch o) = mask_timeless eopatch1 ∧
            vector_timeless (final_patch o) = vector_timeless eopatch1 ∧
            bbox (final_patch o) = bbox eopatch1 ∧
            (∀ name, name ≠ "WATER_MASK" →
               mask (final_patch o) !! name = mask eopatch1 !! name) ∧
            (∀ name, name ≠ "WATER_LEVEL" →
               scalar (final_patch o) !! name = scalar eopatch1 !! name) →
            let eopatch' := final_patch o in
            mask_timeless eopatch' = mask_timeless eopatch ∧
            vector_timeless eopatch' = vector_timeless eopatch ∧
            bbox eopatch' = bbox eopatch ∧
            (∀ name, name ≠ "WATER_MASK" → mask eopatch' !! name = mask eopatch !! name) ∧
            (∀ name, name ≠ "WATER_LEVEL" →
               scalar eopatch' !! name = scalar eopatch !! name) ∧
            (∀ name, name ≠ "NDWI" → data eopatch' !! name = data eopatch !! name) ∧
            (∃ ndwi', data eopatch' !! "NDWI" = Some ndwi' ∧
                      shape ndwi' = shape ndwi ∧
                      Forall2 nan_overwritten (flat ndwi) (flat ndwi')) ∧
            (Forall (fun x => Float.isnan x = false) (flat ndwi) →
             data eopatch' = data eopatch)).
  { intros o (Hd & Hmt & Hvt & Hbb & Hm & Hsc). cbn zeta.
    rewrite Hd, Hmt, Hvt, Hbb. subst eopatch1. cbn [data mask_timeless vector_timeless
      bbox with_data].
    repeat split; try done.
    - intros name Hname. by rewrite lookup_insert_ne.
    - exists written. by rewrite lookup_insert_eq.
    - intros Hnonan. apply insert_id. rewrite Hndwi. f_equal.
      subst written. destruct ndwi as [s l]. cbn in *. f_equal.
      symmetry. by apply nan_overwritten_no_nan. }
  destruct r as [waters|e].
  - apply Hfinal. apply store_water_frame.
  - apply (Hfinal (Raised e eopatch1)). by cbn.
Qed.

End WrittenFacts.

(** ** C5: an empty nominal extent *)

Lemma length_broadcast_aligned s1 s2 s :
  broadcast_aligned s1 s2 = Ok s → length s = length s1.
Proof.
  revert s2 s. induction s1 as [|m s1 IH]; intros [|n s2] s; cbn; try done.
  - by intros [= <-].
  - destruct (broadcast_dim m n); [|done]. cbn.
    destruct (broadcast_aligned s1 s2) eqn:Hrest; [|done]. cbn.
    intros [= <-]. cbn. f_equal. by eapply IH.
Qed.

Lemma length_pad_shape n s : length s ≤ n → length (pad_shape n s) = n.
Proof. intros Hn. unfold pad_shape. rewrite length_app, repeat_length. lia. Qed.

Lemma ndim_broadcast {A B C : Type} (f : A → B → C) a b c :
  broadcast f a b = Ok c → ndim c = Nat.max (ndim a) (ndim b).
Proof.
  unfold broadcast, broadcast_shapes, ndim.
  destruct (broadcast_aligned _ _) as [s|] eqn:Hs; [|done]. cbn. intros [= <-]. cbn.
  apply length_broadcast_aligned in Hs. rewrite Hs.
  apply length_pad_shape. lia.
Qed.

(** A product of rank 4 with a nominal extent of rank 3 has a frame. *)
Lemma broadcast_water_masks_frames (waters : list (ndarray bool))
    (nominal product : ndarray Z) :
  broadcast mul_bool_int (newaxis (np_asarray waters)) nominal = Ok product →
  ndim nominal = 3 → ndim product = 4 →
  ∃ n s, shape product = S n :: s.
Proof.
  intros Hb Hn Hp. pose proof (ndim_broadcast _ _ _ _ Hb) as Hmax.
  rewrite Hp, Hn in Hmax.
  assert (Hrank : ndim (newaxis (np_asarray waters)) = 4) by lia.
  destruct waters as [|water waters].
  { cbn in Hrank. lia. }
  revert Hb. unfold broadcast, broadcast_shapes.
  fold (ndim (newaxis (np_asarray (water :: waters)))).
  fold (ndim nominal). rewrite Hrank, Hn. cbn [Nat.max].
  unfold pad_shape. unfold ndim in Hrank, Hn. rewrite Hrank, Hn.
  cbn [Nat.sub repeat app]. cbn [np_asarray newaxis shape app length].
  cbn [broadcast_aligned].
  assert (Hdim : broadcast_dim (S (length waters)) 1 = Ok (S (length waters))).
  { unfold broadcast_dim. by destruct (length waters). }
  rewrite Hdim. cbn [bind].
  destruct (broadcast_aligned _ _) as [s|]; [|done]. cbn. intros [= <-]. cbn. eauto.
Qed.

Section EmptyExtent.
Variable threshold_otsu : ndarray float → result float.
Variable equal_nan : bool.

(** C5. When the nominal extent (a 3-dimensional timeless mask) has no
    true pixel, [execute] does not return: it ends in an exception. *)
Theorem execute_fails_on_empty_extent (eopatch : EOPatch) (nominal : ndarray Z) :
  mask_timeless eopatch !! "NOMINAL_WATER" = Some nominal →
  ndim nominal = 3 →
  np_count_nonzero nominal = 0%Z →
  ∃ e eopatch',
    WaterDetectionTask.execute threshold_otsu equal_nan eopatch = Raised e eopatch'.
Proof.
  intros Hnom Hrank Hcount. unfold WaterDetectionTask.execute.
  destruct (getitem (data eopatch) "NDWI") as [ndwi|e]; [|by eauto].
  destruct (np_iter ndwi) as [frames|e]; [|by eauto].
  destruct (WaterDetectionTask.detect_frames threshold_otsu equal_nan frames)
    as [frames' [waters|e]]; [|by eauto].
  unfold WaterDetectionTask.store_water, getitem. cbn [mask_timeless with_data].
  rewrite Hnom. cbn [bind].
  destruct (broadcast _ _ _) as [product|e] eqn:Hb; [|by eauto]. cbn [bind].
  unfold np_iter. destruct (shape product) as [|n s] eqn:Hshape; [by eauto|].
  cbn [bind]. destruct n as [|n].
  - cbn [seq List.map WaterDetectionTask.water_level_list bind].
    unfold setitem_mask.
    destruct (Nat.eqb_spec (ndim product) 4) as [Hfour|]; [|by eauto].
    destruct (broadcast_water_masks_frames _ _ _ Hb Hrank Hfour) as (n & s' & Hs').
    congruence.
  - cbn [seq List.map WaterDetectionTask.water_level_list].
    unfold truediv. rewrite Hcount. cbn. eauto.
Qed.

End EmptyExtent.

(** ** C6: grids of different sizes *)

Lemma broadcast_dim_clash m n : clash m n → broadcast_dim m n = Raise ValueError.
Proof.
  intros (Hmn & Hm & Hn). unfold broadcast_dim.
  destruct (Nat.eqb_spec m n); [done|].
  destruct (Nat.eqb_spec m 1); [done|].
  by destruct (Nat.eqb_spec n 1).
Qed.

Lemma broadcast_dim_error m n e : broadcast_dim m n = Raise e → e = ValueError.
Proof.
  unfold broadcast_dim.
  destruct (m =? n); [done|]. destruct (m =? 1); [done|].
  destruct (n =? 1); [done|]. by intros [= <-].
Qed.

(** Four aligned axes of which the second or the third clash. *)
Lemma broadcast_aligned_clash t h w c t' h' w' c' :
  clash h h' ∨ clash w w' →
  broadcast_aligned [t; h; w; c] [t'; h'; w'; c'] = Raise ValueError.
Proof.
  intros Hclash. cbn [broadcast_aligned].
  destruct (broadcast_dim t t') as [?|e] eqn:Ht;
    [|by apply broadcast_dim_error in Ht; subst]. cbn [bind].
  destruct (broadcast_dim h h') as [?|e] eqn:Hh;
    [|by apply broadcast_dim_error in Hh; subst]. cbn [bind].
  destruct Hclash as [Hc|Hc]; [by rewrite broadcast_dim_clash in Hh|].
  by rewrite (broadcast_dim_clash w w').
Qed.

(** Two sizes that do not clash are broadcast. *)
Lemma broadcast_dim_no_clash m n :
  ¬ clash m n → broadcast_dim m n = Ok (if m =? 1 then n else m).
Proof.
  intros Hfit. unfold broadcast_dim, clash in *.
  destruct (Nat.eqb_spec m n) as [->|Hmn].
  { destruct (Nat.eqb_spec n 1) as [->|]; done. }
  destruct (Nat.eqb_spec m 1); [done|].
  destruct (Nat.eqb_spec n 1); [done|]. by destruct Hfit.
Qed.

Section Mismatch.
Variable threshold_otsu : ndarray float → result float.
Variable equal_nan : bool.

(** C6, as the code has it.  Neither stage checks the sizes itself; numpy
    does when it broadcasts.  If the height or the width of the two grids
    differ and neither of the two sizes is 1, the validity mask builder
    and the water detector end in [ValueError].  If on every axis the two
    sizes are equal or one of them is 1, the grids are broadcast and the
    mismatch goes unnoticed: the validity mask builder returns a mask of
    the broadcast shape, and the water detector, given a nominal extent
    with a non-zero pixel, returns with a [WATER_MASK] of the broadcast
    shape. *)
Theorem clashing_grids_are_rejected :
  (∀ (eopatch : EOPatch) (is_data clm : ndarray Z) t h w c t' h' w' c',
     mask eopatch !! "IS_DATA" = Some is_data →
     mask eopatch !! "CLM" = Some clm →
     shape is_data = [t; h; w; c] → shape clm = [t'; h'; w'; c'] →
     clash h h' ∨ clash w w' →
     calculate_valid_data_mask eopatch = Raise ValueError) ∧
  (∀ (eopatch : EOPatch) (ndwi : ndarray float) (nominal : ndarray Z)
     T H W C H' W' C',
     data eopatch !! "NDWI" = Some ndwi →
     shape ndwi = [T; H; W; C] → well_formed ndwi → 0 < T → 0 < C →
     detects_every_frame threshold_otsu equal_nan ndwi →
     mask_timeless eopatch !! "NOMINAL_WATER" = Some nominal →
     shape nominal = [H'; W'; C'] →
     clash H H' ∨ clash W W' →
     ∃ eopatch',
       WaterDetectionTask.execute threshold_otsu equal_nan eopatch
       = Raised ValueError eopatch') ∧
  (∀ (eopatch : EOPatch) (is_data clm : ndarray Z) t h w c t' h' w' c',
     mask eopatch !! "IS_DATA" = Some is_data →
     mask eopatch !! "CLM" = Some clm →
     shape is_data = [t; h; w; c] → shape clm = [t'; h'; w'; c'] →
     ¬ clash t t' → ¬ clash h h' → ¬ clash w w' → ¬ clash c c' →
     ∃ valid,
       calculate_valid_data_mask eopatch = Ok valid ∧
       broadcast_shapes (shape is_data) (shape clm) = Ok (shape valid)) ∧
  (∀ (eopatch : EOPatch) (ndwi : ndarray float) (nominal : ndarray Z)
     T H W C H' W' C',
     data eopatch !! "NDWI" = Some ndwi →
     shape ndwi = [T; H; W; C] → well_formed ndwi → 0 < T → 0 < C →
     detects_every_frame threshold_otsu equal_nan ndwi →
     mask_timeless eopatch !! "NOMINAL_WATER" = Some nominal →
     shape nominal = [H'; W'; C'] →
     ¬ clash H H' → ¬ clash W W' →
     np_count_nonzero nominal ≠ 0%Z →
     ∃ eopatch' water_mask,
       WaterDetectionTask.execute threshold_otsu equal_nan eopatch
       = Returned eopatch' ∧
       mask eopatch' !! "WATER_MASK" = Some water_mask ∧
       broadcast_shapes [T; H; W; 1] (shape nominal) = Ok (shape water_mask)).
Proof.
  split; [|split; [|split]].
  - intros eopatch is_data clm t h w c t' h' w' c' Hd Hc Hsd Hsc Hclash.
    unfold calculate_valid_data_mask, getitem. rewrite Hd, Hc. cbn [bind].
    unfold broadcast, broadcast_shapes, astype_bool, np_map. cbn [shape].
    rewrite Hsd, Hsc. cbn [length Nat.max pad_shape Nat.sub repeat app].
    by rewrite broadcast_aligned_clash.
  - intros eopatch ndwi nominal T H W C H' W' C' Hndwi Hs Hwf HT HC Hdet Hnom Hns Hclash.
    destruct (np_iter ndwi) as [frames|e] eqn:Hiter.
    2:{ unfold np_iter in Hiter. by rewrite Hs in Hiter. }
    destruct (np_iter_frames ndwi T H W C frames Hs Hwf Hiter) as (_ & Hlen & Hframes).
    destruct (detect_frames_returns threshold_otsu equal_nan H W C frames HC Hframes)
      as (frames' & waters & Hdetect).
    { intros frame view. by apply Hdet. }
    destruct (detect_frames_ok threshold_otsu equal_nan H W C frames frames' waters
                HC Hframes Hdetect) as (_ & Hviews & Hwaters).
    apply Forall2_length in Hviews.
    unfold WaterDetectionTask.execute, getitem. rewrite Hndwi, Hiter. cbn match.
    rewrite Hdetect.
    unfold WaterDetectionTask.store_water, getitem. cbn [mask_timeless with_data].
    rewrite Hnom. cbn [bind].
    destruct waters as [|water waters]; [cbn in Hviews; lia|].
    inversion Hwaters as [|? ? [Hws _] _]; subst.
    unfold broadcast, broadcast_shapes, np_asarray, newaxis. cbn [shape].
    rewrite Hws, Hns. cbn [length app Nat.max pad_shape Nat.sub repeat].
    rewrite broadcast_aligned_clash by done. cbn [bind]. eauto.
  - intros eopatch is_data clm t h w c t' h' w' c' Hd Hc Hsd Hsc Ht Hh Hw Hcc.
    unfold calculate_valid_data_mask, getitem. rewrite Hd, Hc. cbn [bind].
    unfold broadcast, broadcast_shapes, astype_bool, np_map. cbn [shape].
    rewrite Hsd, Hsc.
    cbn [length Nat.max pad_shape Nat.sub repeat app broadcast_aligned].
    rewrite !broadcast_dim_no_clash by done. cbn [bind]. by eexists.
  - intros eopatch ndwi nominal T H W C H' W' C' Hndwi Hs Hwf HT HC Hdet Hnom Hns
      HH HW Hcount.
    destruct (np_iter ndwi) as [frames|e] eqn:Hiter.
    2:{ unfold np_iter in Hiter. by rewrite Hs in Hiter. }
    destruct (np_iter_frames ndwi T H W C frames Hs Hwf Hiter) as (_ & Hlen & Hframes).
    destruct (detect_frames_returns threshold_otsu equal_nan H W C frames HC Hframes)
      as (frames' & waters & Hdetect).
    { intros frame view. by apply Hdet. }
    destruct (detect_frames_ok threshold_otsu equal_nan H W C frames frames' waters
                HC Hframes Hdetect) as (_ & Hviews & Hwaters).
    apply Forall2_length in Hviews.
    unfold WaterDetectionTask.execute, getitem. rewrite Hndwi, Hiter. cbn match.
    rewrite Hdetect.
    unfold WaterDetectionTask.store_water, getitem. cbn [mask_timeless with_data].
    rewrite Hnom. cbn [bind].
    destruct waters as [|water waters]; [cbn in Hviews; lia|].
    inversion Hwaters as [|? ? [Hws _] _]; subst.
    unfold broadcast, broadcast_shapes, np_asarray, newaxis, ndim. cbn [shape flat].
    rewrite Hws, Hns.
    cbn [length app Nat.max pad_shape Nat.sub repeat broadcast_aligned].
    assert (Hone : ∀ n, ¬ clash 1 n) by (unfold clash; intros n; lia).
    assert (Hone' : ∀ n, ¬ clash n 1) by (unfold clash; intros n; lia).
    rewrite !broadcast_dim_no_clash by done. cbn [bind].
    unfold np_iter. cbn [shape flat Nat.eqb bind].
    rewrite water_level_list_ok by done. cbn [bind].
    unfold setitem_mask, setitem_scalar, newaxis, ndim.
    cbn [shape length app Nat.eqb with_mask with_data mask].
    eexists _, _. split; [done|]. cbn [mask with_scalar with_mask with_data].
    rewrite lookup_insert_eq.
    split; [done|]. cbn [shape].
    unfold broadcast_shapes.
    cbn [length Nat.max pad_shape Nat.sub repeat app broadcast_aligned].
    cbn [length] in Hviews. rewrite Hviews. by destruct (length waters).
Qed.

End Mismatch.

(** ** The threshold of [detect_water] *)

Section Threshold.
Variable threshold_otsu : ndarray float → result float.
Variable equal_nan : bool.

(** [detect_water], case by case.  It counts the distinct values of the
    frame as it is given, NaN included.  With more than one value it
    overwrites NaN with -1 and takes the Otsu threshold of the grid it
    then holds; otherwise it leaves the frame alone and takes 1.0.  A
    pixel is water exactly when its value in the grid the detector ends
    with is greater than the threshold. *)
Lemma detect_water_threshold (ndwi : ndarray float) :
  let replaced := np_map nan_to_neg_one ndwi in
  let after := fst (WaterDetectionTask.detect_water threshold_otsu equal_nan ndwi) in
  let answer := snd (WaterDetectionTask.detect_water threshold_otsu equal_nan ndwi) in
  (1 < len_unique equal_nan ndwi →
   after = replaced ∧
   answer = bind (threshold_otsu replaced)
              (fun otsu_thr => Ok (np_map (fun x => Float.gtb x otsu_thr) replaced))) ∧
  (len_unique equal_nan ndwi ≤ 1 →
   after = ndwi ∧
   answer = Ok (np_map (fun x => Float.gtb x Float.one) ndwi)) ∧
  (∀ water, answer = Ok water →
     ∃ otsu_thr,
       (if 1 <? len_unique equal_nan ndwi
        then threshold_otsu replaced = Ok otsu_thr
        else otsu_thr = Float.one) ∧
       shape water = shape ndwi ∧
       ∀ i, nth_error (flat water) i
            = option_map (fun x => Float.gtb x otsu_thr) (nth_error (flat after) i)).
Proof.
  cbn zeta. unfold WaterDetectionTask.detect_water.
  destruct (Nat.ltb_spec 1 (len_unique equal_nan ndwi)) as [Hmany|Hone]; cbn [fst snd].
  - split; [done|]. split; [lia|]. intros water.
    destruct (threshold_otsu _) as [otsu_thr|e]; [|done]. cbn [bind].
    intros [= <-]. exists otsu_thr. split; [done|]. split; [done|].
    intros i. cbn [np_map flat]. apply nth_error_map.
  - split; [lia|]. split; [done|]. intros water [= <-].
    exists Float.one. split; [done|]. split; [done|].
    intros i. cbn [np_map flat]. apply nth_error_map.
Qed.

End Threshold.

(** ** C2: counting the values before NaN is replaced *)











(** ** C10: [OsmInputTask] without a bounding box *)

Section NoBoundingBox.
Variable Response : Type.
Variable api_get : string → result Response.
Variable transform_wgs84 : BBox → BBox.
Variable format_bounds : BBox → string.
Variable clip_features : bool → BBox → Z → Response → result GeoDataFrame.

(** C10. On a patch without a bounding box [execute] raises [ValueError],
    sends no request and leaves the patch as it was; whenever a request is
    sent, the patch has a bounding box. *)
Theorem osm_requires_bbox (self : OsmInputTask.t) (eopatch : EOPatch) :
  bbox eopatch = None →
  OsmInputTask.execute Response api_get transform_wgs84 format_bounds clip_features
    self eopatch
  = (Raised ValueError eopatch, []) ∧
  (∀ patch : EOPatch,
     snd (OsmInputTask.execute Response api_get transform_wgs84 format_bounds
            clip_features self patch) ≠ [] →
     bbox patch ≠ None).
Proof.
  intros Hbbox. unfold OsmInputTask.execute. rewrite Hbbox. split; [done|].
  intros patch. by destruct (bbox patch).
Qed.

End NoBoundingBox.

(** ** Frames without water and frames without or with only valid pixels *)

Lemma SFcompare_antisym (x y : spec_float) :
  SFcompare y x = option_map CompOpp (SFcompare x y).
Proof.
  destruct x as [sx|sx| |sx mx ex], y as [sy|sy| |sy my ey];
    repeat match goal with s : bool |- _ => destruct s end; cbn; try done.
  - rewrite (Z.compare_antisym ey ex).
    destruct (ey ?= ex)%Z; cbn; try done.
    by rewrite (Pos.compare_cont_antisym mx my Eq).
  - rewrite (Z.compare_antisym ey ex).
    destruct (ey ?= ex)%Z; cbn; try done.
    by rewrite (Pos.compare_cont_antisym mx my Eq).
Qed.

Lemma ltb_false_of_leb (x y : float) :
  Float.leb y x = true → Float.ltb x y = false.
Proof.
  unfold Float.leb, Float.ltb, SFleb, SFltb. rewrite (SFcompare_antisym y x).
  by destruct (SFcompare y x) as [[]|].
Qed.

Lemma eqb_refl (x : float) : Float.isnan x = false → Float.eqb x x = true.
Proof.
  unfold Float.eqb, SFeqb. destruct x as [s|s| |s m e]; cbn; try done.
  - by destruct s.
  - intros _. rewrite Z.compare_refl. destruct s; by rewrite Pos.compare_cont_refl.
Qed.

Section Binary64Quotients.
Local Open Scope Z_scope.

Lemma div_same_normal (m : positive) (e : Z) :
  2 ^ 52 ≤ Z.pos m < 2 ^ 53 → -52 ≤ e ≤ 0 →
  SFdiv 53 1024 (S754_finite false m e) (S754_finite false m e)
  = S754_finite false 4503599627370496 (-52).
Proof.
  intros Hm He. unfold SFdiv, SFdiv_core_binary.
  rewrite !Zdigits2_53 by done. unfold fexp, emin.
  replace (Z.min (Z.max (53 + e - (53 + e) - 53) (3 - 1024 - 53)) (e - e))
    with (-53) by lia.
  replace (e - e - -53) with 53 by lia.
  rewrite Z.shiftl_mul_pow2 by lia.
  pose proof (Z_div_mod (Z.pos m * 2 ^ 53) (Z.pos m) ltac:(lia)) as Hdiv.
  destruct (Z.div_eucl (Z.pos m * 2 ^ 53) (Z.pos m)) as [q r].
  destruct Hdiv as [Hq Hr]. cbn [xorb].
  change (2 ^ 52) with 4503599627370496 in *.
  change (2 ^ 53) with 9007199254740992 in *.
  assert (9007199254740992 ≤ q) by nia.
  assert (q ≤ 9007199254740992) by nia.
  assert (q = 9007199254740992 ∧ r = 0) as [-> ->] by nia.
  change 9007199254740992 with (2 ^ 53).
  rewrite new_location_0. by rewrite round_54_exact.
Qed.

Lemma div_count_self (n : Z) :
  0 < n < 2 ^ 53 → Float.div (Float.of_int n) (Float.of_int n) = Float.one.
Proof.
  intros Hn. destruct (of_int_normal n Hn) as (m & e & -> & Hm & He & _).
  by apply div_same_normal.
Qed.

Lemma div_zero_count (n : Z) :
  0 < n < 2 ^ 53 → Float.div (Float.of_int 0) (Float.of_int n) = Float.zero.
Proof.
  intros Hn. by destruct (of_int_normal n Hn) as (m & e & -> & _).
Qed.

End Binary64Quotients.

(** X1. A frame without a single valid pixel has coverage 1.0 exactly,
    and the predicate rejects it for every threshold up to 1.0. *)
Theorem coverage_of_invalid_frame {A : Type} `{Truthy A} (frame : ndarray A) :
  (0 < np_size frame < 2 ^ 53)%Z → np_count_nonzero frame = 0%Z →
  calculate_coverage frame = Ok Float.one ∧
  ∀ self : ValidDataCoveragePredicate.t,
    Float.leb (ValidDataCoveragePredicate.threshold self) Float.one = true →
    ValidDataCoveragePredicate.call self frame = Ok false.
Proof.
  intros Hsize Hcount.
  assert (Hcov : calculate_coverage frame = Ok Float.one).
  { unfold calculate_coverage. rewrite truediv_nonzero by lia.
    by rewrite Hcount, div_zero_count. }
  split; [done|]. intros self Hthr. unfold ValidDataCoveragePredicate.call.
  rewrite Hcov. cbn [bind]. by rewrite ltb_false_of_leb.
Qed.

(** X2. A frame of valid pixels only has coverage 0.0 exactly, and the
    predicate accepts it for every threshold above zero. *)
Theorem coverage_of_valid_frame {A : Type} `{Truthy A} (frame : ndarray A) :
  (0 < np_size frame < 2 ^ 53)%Z → np_count_nonzero frame = np_size frame →
  calculate_coverage frame = Ok Float.zero ∧
  ∀ self : ValidDataCoveragePredicate.t,
    ValidDataCoveragePredicate.call self frame
    = Ok (Float.ltb Float.zero (ValidDataCoveragePredicate.threshold self)).
Proof.
  intros Hsize Hcount.
  assert (Hcov : calculate_coverage frame = Ok Float.zero).
  { unfold calculate_coverage. rewrite truediv_nonzero by lia.
    by rewrite Hcount, div_count_self. }
  split; [done|]. intros self. unfold ValidDataCoveragePredicate.call.
  by rewrite Hcov.
Qed.

Lemma count_unique_seen (equal_nan : bool) (c : float) (n : nat) :
  Float.isnan c = false → count_unique equal_nan [c] (repeat c n) = 0.
Proof.
  intros Hc. induction n as [|n IH]; [done|]. cbn.
  unfold same_value at 1. by rewrite eqb_refl.
Qed.

(** X3. A constant frame whose value is at most 1.0 (such as the 0.5 of
    the specification's example) is left as it is and has no water pixel;
    Otsu is not consulted. *)
Theorem constant_frame_has_no_water (threshold_otsu : ndarray float → result float)
    (equal_nan : bool) (s : list nat) (c : float) (n : nat) :
  Float.isnan c = false → Float.leb c Float.one = true →
  WaterDetectionTask.detect_water threshold_otsu equal_nan (mk_ndarray s (repeat c n))
  = (mk_ndarray s (repeat c n), Ok (mk_ndarray s (repeat false n))).
Proof.
  intros Hnan Hle. unfold WaterDetectionTask.detect_water, len_unique. cbn [flat].
  assert (Hone : (1 <? count_unique equal_nan [] (repeat c n)) = false).
  { destruct n as [|n]; [done|]. cbn. by rewrite count_unique_seen. }
  rewrite Hone. unfold np_map. cbn [shape flat]. do 3 f_equal.
  pose proof (ltb_false_of_leb Float.one c Hle) as Hdry.
  clear Hone. induction n as [|n IH]; [done|].
  cbn [List.map repeat]. unfold Float.gtb at 1. by rewrite Hdry, IH.
Qed.

(** * Further properties of the tasks *)

(** ** Binary64: one minus a quotient of counts *)

Section Binary64Differences.
Local Open Scope Z_scope.

Lemma shr_m_shr_1 (mrs : shr_record) :
  0 ≤ shr_m mrs → shr_m (shr_1 mrs) = shr_m mrs / 2.
Proof.
  destruct mrs as [m r s]. cbn [shr_m]. intros Hm.
  destruct m as [|[q|q|]|]; cbn [shr_1 shr_m]; [done| | |done|lia].
  - rewrite (Pos2Z.inj_xI q). apply (Z.div_unique _ _ _ 1); lia.
  - rewrite (Pos2Z.inj_xO q). apply (Z.div_unique _ _ _ 0); lia.
Qed.

Lemma shr_m_iter_pos (n : positive) (mrs : shr_record) :
  0 ≤ shr_m mrs → shr_m (SpecFloat.iter_pos shr_1 n mrs) = shr_m mrs / 2 ^ Z.pos n.
Proof.
  revert mrs. induction n as [n IH|n IH|]; intros mrs Hm; cbn [SpecFloat.iter_pos].
  - assert (0 < 2 ^ Z.pos n) by (by apply Z.pow_pos_nonneg).
    assert (0 ≤ shr_m (shr_1 mrs)).
    { rewrite shr_m_shr_1 by done. by apply Z.div_pos. }
    assert (0 ≤ shr_m (SpecFloat.iter_pos shr_1 n (shr_1 mrs))).
    { rewrite IH by done. by apply Z.div_pos. }
    rewrite !IH, shr_m_shr_1 by done.
    rewrite !Z.div_div by lia. f_equal.
    rewrite (Pos2Z.inj_xI n).
    replace (2 * Z.pos n + 1) with (1 + Z.pos n + Z.pos n) by lia.
    rewrite !Z.pow_add_r by lia. change (2 ^ 1) with 2. lia.
  - assert (0 < 2 ^ Z.pos n) by (by apply Z.pow_pos_nonneg).
    assert (0 ≤ shr_m (SpecFloat.iter_pos shr_1 n mrs)).
    { rewrite IH by done. by apply Z.div_pos. }
    rewrite !IH by done.
    rewrite !Z.div_div by lia. f_equal.
    rewrite (Pos2Z.inj_xO n).
    replace (2 * Z.pos n) with (Z.pos n + Z.pos n) by lia.
    by rewrite !Z.pow_add_r by lia.
  - by rewrite shr_m_shr_1.
Qed.

Lemma Zdigits2_unique (m d : Z) :
  0 < m → 2 ^ (d - 1) ≤ m < 2 ^ d → Zdigits2 m = d.
Proof.
  intros Hpos Hm. destruct m as [|p|p]; [lia| |lia]. cbn [Zdigits2].
  by apply digits2_pos_unique.
Qed.

(** A mantissa of [d ≥ 53] digits is cut to 53 digits. *)
Lemma shr_fexp_digits (m e d : Z) (l : location) :
  2 ^ (d - 1) ≤ m < 2 ^ d → 53 ≤ d → -1074 ≤ e + d - 53 →
  ∃ mrs, shr_fexp 53 1024 m e l = (mrs, e + d - 53) ∧ 2 ^ 52 ≤ shr_m mrs < 2 ^ 53.
Proof.
  intros Hm Hd He.
  assert (0 < 2 ^ (d - 1)) by (apply Z.pow_pos_nonneg; lia).
  unfold shr_fexp. rewrite (Zdigits2_unique m d) by (done || lia).
  unfold fexp, emin.
  replace (Z.max (d + e - 53) (3 - 1024 - 53) - e) with (d - 53) by lia.
  destruct (d - 53) as [|n|n] eqn:Hn; [| |lia].
  - assert (d = 53) as -> by lia. cbn [shr].
    exists (shr_record_of_loc m l). split; [f_equal; lia|].
    rewrite shr_m_record_of_loc. by change (53 - 1) with 52 in Hm.
  - cbn [shr]. exists (SpecFloat.iter_pos shr_1 n (shr_record_of_loc m l)).
    split; [f_equal; lia|].
    rewrite shr_m_iter_pos by (rewrite shr_m_record_of_loc; lia).
    rewrite shr_m_record_of_loc.
    assert (0 < 2 ^ Z.pos n) by (by apply Z.pow_pos_nonneg).
    assert (Hlo : 2 ^ (d - 1) = 2 ^ 52 * 2 ^ Z.pos n).
    { rewrite <- Z.pow_add_r by lia. f_equal. lia. }
    assert (Hhi : 2 ^ d = 2 ^ 53 * 2 ^ Z.pos n).
    { rewrite <- Z.pow_add_r by lia. f_equal. lia. }
    split.
    + apply Z.div_le_lower_bound; lia.
    + apply Z.div_lt_upper_bound; lia.
Qed.

Lemma pack_normal (m e : Z) :
  2 ^ 52 ≤ m ≤ 2 ^ 53 → -1074 ≤ e ≤ 970 →
  ∃ p e', pack false m e = S754_finite false p e' ∧ 2 ^ 52 ≤ Z.pos p < 2 ^ 53 ∧
    (e' = e ∨ (e' = e + 1 ∧ p = 4503599627370496%positive)).
Proof.
  intros Hm He. destruct (Z.eq_dec m (2 ^ 53)) as [->|Hne].
  - unfold pack. rewrite shr_fexp_54 by lia.
    change (2 ^ 53) with 9007199254740992.
    cbn [shr_record_of_loc shr_1 shr_m].
    exists 4503599627370496%positive, (e + 1).
    split; [|split; [done|by right]].
    destruct (Z.leb_spec (e + 1) (1024 - 53)); [done|lia].
  - unfold pack. rewrite shr_fexp_53 by lia. cbn [shr_record_of_loc shr_m].
    destruct m as [|p|p]; [lia| |lia].
    exists p, e. split; [|split; [lia|by left]].
    destruct (Z.leb_spec e (1024 - 53)); [done|lia].
Qed.

(** Rounding a mantissa of [d ≥ 53] digits gives a normal number. *)
Lemma round_normal (m e d : Z) (l : location) :
  2 ^ (d - 1) ≤ m < 2 ^ d → 53 ≤ d → -1074 ≤ e + d - 53 ≤ 970 →
  ∃ p e', binary_round_aux 53 1024 false m e l = S754_finite false p e' ∧
    2 ^ 52 ≤ Z.pos p < 2 ^ 53 ∧
    (e' = e + d - 53 ∨ (e' = e + d - 52 ∧ p = 4503599627370496%positive)).
Proof.
  intros Hm Hd He. rewrite binary_round_aux_pack.
  destruct (shr_fexp_digits m e d l) as (mrs & -> & Hmrs); [done|done|lia|].
  pose proof (round_nearest_even_bounds (shr_m mrs) (loc_of_shr_record mrs)).
  destruct (pack_normal (round_nearest_even (shr_m mrs) (loc_of_shr_record mrs))
              (e + d - 53)) as (p & e' & -> & Hp & Hcases); [lia|lia|].
  exists p, e'. split; [done|]. split; [done|].
  destruct Hcases as [->|[-> ->]]; [by left|right; split; [lia|done]].
Qed.

(** The quotient of two normal numbers, the first at most the second, is
    a normal number. *)
Lemma div_normal (mk mn : positive) (ek en : Z) :
  2 ^ 52 ≤ Z.pos mk < 2 ^ 53 → 2 ^ 52 ≤ Z.pos mn < 2 ^ 53 →
  -52 ≤ ek ≤ 0 → -52 ≤ en ≤ 0 →
  ∃ p e, SFdiv 53 1024 (S754_finite false mk ek) (S754_finite false mn en)
         = S754_finite false p e ∧
    2 ^ 52 ≤ Z.pos p < 2 ^ 53 ∧ -105 ≤ e ≤ 53.
Proof.
  intros Hmk Hmn Hek Hen. unfold SFdiv, SFdiv_core_binary.
  rewrite !Zdigits2_53 by done. unfold fexp, emin.
  replace (Z.min (Z.max (53 + ek - (53 + en) - 53) (3 - 1024 - 53)) (ek - en))
    with (ek - en - 53) by lia.
  replace (ek - en - (ek - en - 53)) with 53 by lia.
  rewrite Z.shiftl_mul_pow2 by lia.
  pose proof (Z_div_mod (Z.pos mk * 2 ^ 53) (Z.pos mn) ltac:(lia)) as Hdiv.
  destruct (Z.div_eucl (Z.pos mk * 2 ^ 53) (Z.pos mn)) as [q r].
  destruct Hdiv as [Hq Hr]. cbn [xorb].
  change (2 ^ 52) with 4503599627370496 in *.
  change (2 ^ 53) with 9007199254740992 in *.
  assert (Hq52 : 4503599627370496 ≤ q) by nia.
  assert (Hq54 : q < 18014398509481984) by nia.
  destruct (Z.lt_ge_cases q 9007199254740992) as [Hlt|Hge].
  - destruct (round_normal q (ek - en - 53) 53 (new_location (Z.pos mn) r))
      as (p & e' & -> & Hp & Hcases);
      [change (2 ^ (53 - 1)) with 4503599627370496;
       change (2 ^ 53) with 9007199254740992; lia|lia|lia|].
    exists p, e'. split; [done|]. split; [done|]. lia.
  - destruct (round_normal q (ek - en - 53) 54 (new_location (Z.pos mn) r))
      as (p & e' & -> & Hp & Hcases);
      [change (2 ^ (54 - 1)) with 9007199254740992;
       change (2 ^ 54) with 18014398509481984; lia|lia|lia|].
    exists p, e'. split; [done|]. split; [done|]. lia.
Qed.

(** [1.0 - q] for a normal [q] below one. *)
Lemma one_minus_normal (p : positive) (e : Z) :
  2 ^ 52 ≤ Z.pos p < 2 ^ 53 → -1000 ≤ e ≤ -53 →
  at_most_one (SFsub 53 1024 Float.one (S754_finite false p e)).
Proof.
  intros Hp He.
  change Float.one with (S754_finite false 4503599627370496 (-52)).
  cbn [SFsub cond_Zopp].
  replace (Z.min (-52) e) with e by lia.
  unfold shl_align at 2. rewrite Z.sub_diag. cbn [fst].
  unfold shl_align. destruct (e - -52) as [|j|j] eqn:Hj; [lia|lia|]. cbn [fst].
  rewrite iter_xO_value.
  assert (Hone : 4503599627370496 * 2 ^ Z.pos j = 2 ^ (- e)).
  { change 4503599627370496 with (2 ^ 52). rewrite <- Z.pow_add_r by lia.
    f_equal. lia. }
  rewrite Hone.
  assert (Hbig : 2 ^ 53 ≤ 2 ^ (- e)) by (apply Z.pow_le_mono_r; lia).
  destruct (2 ^ (- e) - Z.pos p) as [|M|M] eqn:HM; [lia| |lia].
  cbn [binary_normalize]. unfold binary_round.
  pose proof (digits2_pos_bounds M) as HdM.
  set (d := Z.pos (digits2_pos M)) in *.
  assert (Hd : 1 ≤ d ≤ - e).
  { split; [subst d; lia|]. destruct (Z.le_gt_cases d (- e)) as [|Hgt]; [done|].
    assert (2 ^ (- e) ≤ 2 ^ (d - 1)) by (apply Z.pow_le_mono_r; lia). lia. }
  unfold fexp, emin.
  replace (Z.max (d + e - 53) (3 - 1024 - 53)) with (d + e - 53) by lia.
  unfold shl_align. destruct (d + e - 53 - e) as [|i|i] eqn:Hi.
  - destruct (round_normal (Z.pos M) e d loc_Exact) as (q & e' & -> & Hq & Hcases);
      [done|lia|lia|].
    exists q, e'. split; [done|]. destruct Hcases as [->|[-> ->]]; lia.
  - destruct (round_normal (Z.pos M) e d loc_Exact) as (q & e' & -> & Hq & Hcases);
      [done|lia|lia|].
    exists q, e'. split; [done|]. destruct Hcases as [->|[-> ->]]; lia.
  - assert (0 < 2 ^ Z.pos i) by (by apply Z.pow_pos_nonneg).
    assert (Hlo : 2 ^ (d - 1) * 2 ^ Z.pos i = 2 ^ 52).
    { rewrite <- Z.pow_add_r by lia. f_equal. lia. }
    assert (Hhi : 2 ^ d * 2 ^ Z.pos i = 2 ^ 53).
    { rewrite <- Z.pow_add_r by lia. f_equal. lia. }
    destruct (round_normal (Z.pos (Pos.iter xO M i)) (d + e - 53) 53 loc_Exact)
      as (q & e' & -> & Hq & Hcases);
      [rewrite iter_xO_value; change (53 - 1) with 52; nia|lia|lia|].
    exists q, e'. split; [done|]. destruct Hcases as [->|[-> ->]]; lia.
Qed.

(** One minus the quotient of two counts [k ≤ n] lies between 0.0 and
    1.0. *)
Lemma one_minus_quotient_unit_interval (k n : Z) :
  0 ≤ k ≤ n → 0 < n < 2 ^ 53 →
  Float.leb Float.zero
    (Float.sub Float.one (Float.div (Float.of_int k) (Float.of_int n))) = true ∧
  Float.leb
    (Float.sub Float.one (Float.div (Float.of_int k) (Float.of_int n))) Float.one = true.
Proof.
  intros Hk Hn.
  destruct (Z.eq_dec k 0) as [->|Hk0]; [by rewrite div_zero_count|].
  destruct (of_int_normal n Hn) as (mn & en & Hfn & Hmn & Hen & Hvn).
  destruct (of_int_normal k ltac:(lia)) as (mk & ek & Hfk & Hmk & Hek & Hvk).
  rewrite Hfn, Hfk. unfold Float.div, Float.sub, Float.prec, Float.emax.
  destruct (div_normal mk mn ek en) as (p & e & Hdiv & Hp & He); try done.
  assert (Hle : ek < en ∨ (ek = en ∧ Z.pos mk ≤ Z.pos mn)).
  { assert (0 < 2 ^ (- ek)) by (apply Z.pow_pos_nonneg; lia).
    destruct (Z.lt_trichotomy ek en) as [Hlt|[->|Hgt]];
      [by left|right; split; [done|nia]|].
    exfalso.
    assert (Hsplit : 2 ^ (- en) = 2 ^ (- ek) * 2 ^ (ek - en)).
    { rewrite <- Z.pow_add_r by lia. f_equal. lia. }
    assert (2 ^ 1 ≤ 2 ^ (ek - en)) by (apply Z.pow_le_mono_r; lia).
    change (2 ^ 1) with 2 in *. nia. }
  destruct (div_at_most_one mk mn ek en) as (p' & e' & Hdiv' & Hcases); try done.
  rewrite Hdiv in Hdiv'. injection Hdiv' as <- <-. rewrite Hdiv.
  destruct Hcases as [Hlt|[-> ->]]; [|done].
  apply at_most_one_leb, one_minus_normal; [done|lia].
Qed.

End Binary64Differences.

(** ** [AddValidDataCoverageTask] *)

Lemma flat_map_take_1 {A : Type} (l : list A) (n : nat) :
  flat_map (fun j => take 1 (drop j l)) (seq 0 n) = take n l.
Proof.
  revert l. induction n as [|n IH]; intros l; [by rewrite take_0|].
  cbn [seq flat_map].
  rewrite <- seq_shift, flat_map_concat_map, List.map_map, <- flat_map_concat_map.
  destruct l as [|x r].
  - cbn. clear. by induction (seq 0 n).
  - cbn [drop take app]. f_equal. apply IH.
Qed.

Lemma lane_chunk {A : Type} (n : nat) (l : list A) (i : nat) :
  lane n 1 l i 0 = mk_ndarray [n] (chunk n i l).
Proof.
  unfold lane, chunk. f_equal. rewrite <- flat_map_take_1.
  apply flat_map_ext. intros j. rewrite drop_drop. do 2 f_equal. lia.
Qed.

Lemma calculate_coverage_block {A : Type} `{Truthy A} (s : list nat) (pixels : list A) :
  prod_shape s ≠ 0 →
  calculate_coverage (mk_ndarray s pixels) = Ok (coverage_of (prod_shape s) pixels).
Proof.
  intros Hs. unfold calculate_coverage, np_size, np_count_nonzero. cbn [shape flat].
  by rewrite truediv_nonzero by lia.
Qed.

Lemma calculate_coverage_no_pixel {A : Type} `{Truthy A} (s : list nat) (pixels : list A) :
  prod_shape s = 0 →
  calculate_coverage (mk_ndarray s pixels) = Raise ZeroDivisionError.
Proof.
  intros Hs. unfold calculate_coverage, np_size, truediv. cbn [shape flat].
  by rewrite Hs.
Qed.

Lemma map_result_ok {A B : Type} (f : A → result B) (g : A → B) (l : list A) :
  (∀ x, In x l → f x = Ok (g x)) → map_result f l = Ok (List.map g l).
Proof.
  induction l as [|x l IH]; intros Hf; [done|]. cbn [map_result List.map].
  rewrite Hf by (by left). cbn [bind]. rewrite IH; [done|].
  intros y Hy. apply Hf. by right.
Qed.

Lemma map_result_first {A B : Type} (f : A → result B) (e : exn) (x : A) (l : list A) :
  f x = Raise e → map_result f (x :: l) = Raise e.
Proof. intros Hx. cbn [map_result]. by rewrite Hx. Qed.

Lemma lanes_of_rows {A : Type} (t n : nat) (l : list A) :
  flat_map (fun i => List.map (lane n 1 l i) (seq 0 1)) (seq 0 t)
  = List.map (fun i => mk_ndarray [n] (chunk n i l)) (seq 0 t).
Proof.
  induction (seq 0 t) as [|i idxs IH]; [done|].
  cbn [flat_map List.map]. rewrite IH. cbn [seq List.map app].
  by rewrite lane_chunk.
Qed.

Section Rows.
Context {A : Type} `{Truthy A}.

Lemma apply_rows (t n : nat) (l : list A) :
  0 < t → 0 < n →
  np_apply_along_axis1 calculate_coverage (mk_ndarray [t; n] l)
  = Ok (mk_ndarray [t] (coverage_column t n l)).
Proof.
  intros Ht Hn. unfold np_apply_along_axis1. cbn [shape flat prod_shape fold_right].
  destruct (Nat.eqb_spec (t * 1) 0) as [|_]; [lia|].
  rewrite lanes_of_rows.
  rewrite (map_result_ok _ (fun row => coverage_of n (flat row))).
  - cbn [bind]. unfold coverage_column. by rewrite List.map_map.
  - intros row (i & <- & _)%in_map_iff.
    rewrite calculate_coverage_block by (cbn; lia). cbn [flat prod_shape fold_right].
    by rewrite Nat.mul_1_r.
Qed.

Lemma apply_rows_no_pixel (t : nat) (l : list A) :
  0 < t →
  np_apply_along_axis1 calculate_coverage (mk_ndarray [t; 0] l)
  = Raise ZeroDivisionError.
Proof.
  intros Ht. unfold np_apply_along_axis1. cbn [shape flat prod_shape fold_right].
  destruct (Nat.eqb_spec (t * 1) 0) as [|_]; [lia|].
  rewrite lanes_of_rows. destruct t as [|t]; [lia|].
  cbn [seq List.map]. by rewrite (map_result_first _ ZeroDivisionError).
Qed.

Lemma apply_no_row (n : nat) (l : list A) :
  np_apply_along_axis1 calculate_coverage (mk_ndarray [0; n] l) = Raise ValueError.
Proof. done. Qed.

End Rows.

Lemma length_coverage_column {A : Type} `{Truthy A} (t n : nat) (l : list A) :
  length (coverage_column t n l) = t.
Proof. unfold coverage_column. by rewrite length_map, length_seq. Qed.

(** The patch the task returns on a mask with a frame and a pixel. *)
Lemma coverage_task_returns (eopatch : EOPatch) (valid_data : ndarray Z)
    (time height width channels : nat) :
  mask eopatch !! "VALID_DATA" = Some valid_data →
  shape valid_data = [time; height; width; channels] →
  0 < time → 0 < height * width * channels →
  AddValidDataCoverageTask.execute eopatch
  = Returned
      (with_scalar eopatch
         (<["COVERAGE" :=
              mk_ndarray [time; 1]
                (coverage_column time (height * width * channels) (flat valid_data))]>
            (scalar eopatch))).
Proof.
  intros Hmask Hshape Htime Hpixels.
  unfold AddValidDataCoverageTask.execute, getitem. rewrite Hmask. cbn [bind].
  rewrite Hshape. cbn [unpack4 bind]. unfold np_reshape. rewrite Hshape.
  cbn [prod_shape fold_right].
  destruct (Nat.eqb_spec (time * (height * width * channels * 1))
              (time * (height * (width * (channels * 1))))) as [_|]; [|lia].
  cbn [bind]. by rewrite apply_rows by lia.
Qed.

(** The task returns on such masks only. *)
Lemma coverage_task_returned (eopatch eopatch' : EOPatch) :
  AddValidDataCoverageTask.execute eopatch = Returned eopatch' →
  ∃ valid_data time height width channels,
    mask eopatch !! "VALID_DATA" = Some valid_data ∧
    shape valid_data = [time; height; width; channels] ∧
    0 < time ∧ 0 < height * width * channels.
Proof.
  unfold AddValidDataCoverageTask.execute, getitem.
  destruct (mask eopatch !! "VALID_DATA") as [valid_data|]; [|done]. cbn [bind].
  destruct (shape valid_data) as [|time [|height [|width [|channels [|]]]]] eqn:Hshape;
    try done.
  cbn [unpack4 bind]. unfold np_reshape. rewrite Hshape.
  cbn [prod_shape fold_right].
  destruct (Nat.eqb_spec (time * (height * width * channels * 1))
              (time * (height * (width * (channels * 1))))) as [_|]; [|lia].
  cbn [bind]. intros Hrun. exists valid_data, time, height, width, channels.
  split; [done|]. split; [done|].
  destruct (Nat.eq_dec time 0) as [->|]; [done|].
  destruct (Nat.eq_dec (height * width * channels) 0) as [Hzero|]; [|lia].
  rewrite Hzero, apply_rows_no_pixel in Hrun by lia. done.
Qed.

(** X4. How [AddValidDataCoverageTask.execute] ends, on every patch.  It
    raises [KeyError] without [VALID_DATA], [ValueError] when the mask is
    not 4-dimensional or has no frame, and [ZeroDivisionError] when the
    frames have no pixel; the patch is then left as it was.  Otherwise it
    returns the patch with one feature written: the [(time, 1)] column
    [COVERAGE], whose entry [t] is one minus the share of non-zero pixels
    of frame [t]. *)
Theorem coverage_task_outcome (eopatch : EOPatch) :
  match mask eopatch !! "VALID_DATA" with
  | None => AddValidDataCoverageTask.execute eopatch = Raised KeyError eopatch
  | Some valid_data =>
      match shape valid_data with
      | [time; height; width; channels] =>
          if time =? 0 then
            AddValidDataCoverageTask.execute eopatch = Raised ValueError eopatch
          else if height * width * channels =? 0 then
            AddValidDataCoverageTask.execute eopatch = Raised ZeroDivisionError eopatch
          else
            AddValidDataCoverageTask.execute eopatch
            = Returned
                (with_scalar eopatch
                   (<["COVERAGE" :=
                        mk_ndarray [time; 1]
                          (coverage_column time (height * width * channels)
                             (flat valid_data))]> (scalar eopatch)))
      | _ => AddValidDataCoverageTask.execute eopatch = Raised ValueError eopatch
      end
  end.
Proof.
  unfold AddValidDataCoverageTask.execute, getitem.
  destruct (mask eopatch !! "VALID_DATA") as [valid_data|]; [|done]. cbn [bind].
  destruct valid_data as [s l]. cbn [shape flat].
  destruct s as [|time [|height [|width [|channels [|]]]]]; try done.
  cbn [unpack4 bind]. unfold np_reshape. cbn [shape prod_shape fold_right].
  destruct (Nat.eqb_spec (time * (height * width * channels * 1))
              (time * (height * (width * (channels * 1))))) as [_|]; [|lia].
  cbn [bind].
  destruct (Nat.eqb_spec time 0) as [->|Htime]; [done|].
  destruct (Nat.eqb_spec (height * width * channels) 0) as [->|Hpixels].
  - by rewrite apply_rows_no_pixel by lia.
  - by rewrite apply_rows by lia.
Qed.

Lemma prod_shape_frame (height width channels : nat) :
  prod_shape [height; width; channels] = height * width * channels.
Proof. cbn. lia. Qed.

Lemma Forall2_map_both {I B C : Type} (P : B → C → Prop) (f : I → B) (g : I → C)
    (idxs : list I) :
  (∀ i, In i idxs → P (f i) (g i)) → Forall2 P (List.map f idxs) (List.map g idxs).
Proof.
  induction idxs as [|i idxs IH]; intros HP; [constructor|].
  cbn [List.map]. constructor; [apply HP; by left|].
  apply IH. intros j Hj. apply HP. by right.
Qed.

(** X5. On a mask with at least one frame and one pixel per frame, entry
    [t] of the [COVERAGE] column is [calculate_coverage] of frame [t] of
    [VALID_DATA]: the number [ValidDataCoveragePredicate] compares with its
    threshold when the filter asks it about that frame. *)
Theorem coverage_task_agrees_with_predicate (eopatch : EOPatch)
    (valid_data : ndarray Z) (time height width channels : nat) :
  mask eopatch !! "VALID_DATA" = Some valid_data →
  shape valid_data = [time; height; width; channels] →
  0 < time → 0 < height * width * channels →
  ∃ eopatch' coverage frames,
    AddValidDataCoverageTask.execute eopatch = Returned eopatch' ∧
    scalar eopatch' !! "COVERAGE" = Some (mk_ndarray [time; 1] coverage) ∧
    np_iter valid_data = Ok frames ∧
    Forall2
      (fun frame c =>
         calculate_coverage frame = Ok c ∧
         ∀ self : ValidDataCoveragePredicate.t,
           ValidDataCoveragePredicate.call self frame
           = Ok (Float.ltb c (ValidDataCoveragePredicate.threshold self)))
      frames coverage.
Proof.
  intros Hmask Hshape Htime Hpixels.
  eexists _, _, _.
  split; [exact (coverage_task_returns eopatch valid_data time height width channels
                   Hmask Hshape Htime Hpixels)|].
  split; [cbn [scalar with_scalar]; by rewrite lookup_insert_eq|].
  unfold np_iter. rewrite Hshape. split; [done|].
  unfold coverage_column. apply Forall2_map_both. intros i _.
  assert (Hcov : calculate_coverage (subarray [height; width; channels] (flat valid_data) i)
                 = Ok (coverage_of (height * width * channels)
                         (chunk (height * width * channels) i (flat valid_data)))).
  { unfold subarray. rewrite calculate_coverage_block by (rewrite prod_shape_frame; lia).
    by rewrite prod_shape_frame. }
  split; [done|]. intros self. unfold ValidDataCoveragePredicate.call.
  by rewrite Hcov.
Qed.

(** X6. For an array with at least one and fewer than [2^53] elements,
    [calculate_coverage] returns a number between 0.0 and 1.0; the
    subtraction and the division are those of binary64. *)
Theorem coverage_in_unit_interval {A : Type} `{Truthy A} (array : ndarray A) :
  well_formed array → (0 < np_size array < 2 ^ 53)%Z →
  ∃ c, calculate_coverage array = Ok c ∧
    Float.leb Float.zero c = true ∧ Float.leb c Float.one = true.
Proof.
  intros Hwf Hsize. unfold calculate_coverage.
  rewrite truediv_nonzero by lia. cbn [bind]. eexists. split; [done|].
  apply one_minus_quotient_unit_interval; [|done].
  unfold np_count_nonzero, np_size in *.
  pose proof (count_true_le_length (flat array)). unfold well_formed in Hwf. lia.
Qed.

Lemma coverage_of_unit_interval {A : Type} `{Truthy A} (n i : nat) (l : list A) :
  (0 < Z.of_nat n < 2 ^ 53)%Z →
  Float.leb Float.zero (coverage_of n (chunk n i l)) = true ∧
  Float.leb (coverage_of n (chunk n i l)) Float.one = true.
Proof.
  intros Hn. apply one_minus_quotient_unit_interval; [|done].
  pose proof (count_true_le_length (chunk n i l)).
  assert (length (chunk n i l) ≤ n) by (unfold chunk; rewrite length_take; lia).
  lia.
Qed.

(** X7. Whenever the task returns on frames of fewer than [2^53] pixels,
    the [COVERAGE] column has one entry per frame and every entry lies
    between 0.0 and 1.0. *)
Theorem coverage_column_in_unit_interval (eopatch eopatch' : EOPatch)
    (valid_data : ndarray Z) (time height width channels : nat) :
  mask eopatch !! "VALID_DATA" = Some valid_data →
  shape valid_data = [time; height; width; channels] →
  (Z.of_nat (height * width * channels) < 2 ^ 53)%Z →
  AddValidDataCoverageTask.execute eopatch = Returned eopatch' →
  ∃ coverage,
    scalar eopatch' !! "COVERAGE" = Some (mk_ndarray [time; 1] coverage) ∧
    length coverage = time ∧
    Forall (fun c => Float.leb Float.zero c = true ∧ Float.leb c Float.one = true)
      coverage.
Proof.
  intros Hmask Hshape Hsize Hrun.
  destruct (coverage_task_returned eopatch eopatch' Hrun)
    as (valid_data' & t & h & w & c & Hmask' & Hshape' & Htime & Hpixels).
  rewrite Hmask in Hmask'. injection Hmask' as <-.
  rewrite Hshape in Hshape'. injection Hshape' as <- <- <- <-.
  rewrite (coverage_task_returns eopatch valid_data time height width channels)
    in Hrun by done.
  injection Hrun as <-. eexists. split; [cbn; by rewrite lookup_insert_eq|].
  split; [apply length_coverage_column|].
  unfold coverage_column. apply List.Forall_forall.
  intros c (i & <- & _)%in_map_iff. apply coverage_of_unit_interval. lia.
Qed.

(** X8. The task is idempotent: run on the patch it returned, it returns
    that patch unchanged. *)
Theorem coverage_task_idempotent (eopatch eopatch' : EOPatch) :
  AddValidDataCoverageTask.execute eopatch = Returned eopatch' →
  AddValidDataCoverageTask.execute eopatch' = Returned eopatch'.
Proof.
  intros Hrun.
  destruct (coverage_task_returned eopatch eopatch' Hrun)
    as (valid_data & time & height & width & channels & Hmask & Hshape & Htime & Hpixels).
  rewrite (coverage_task_returns eopatch valid_data time height width channels)
    in Hrun by done.
  injection Hrun as <-.
  rewrite (coverage_task_returns _ valid_data time height width channels) by done.
  unfold with_scalar. cbn. by rewrite insert_insert_eq.
Qed.

(** ** [WaterDetectionTask]: missing inputs, empty stacks, channels *)

Lemma broadcast_aligned_error (s1 s2 : list nat) (e : exn) :
  broadcast_aligned s1 s2 = Raise e → e = ValueError.
Proof.
  revert s2. induction s1 as [|m s1 IH]; intros [|n s2]; cbn; try congruence.
  destruct (broadcast_dim m n) as [d|e'] eqn:Hd; cbn.
  - destruct (broadcast_aligned s1 s2) as [?|e''] eqn:Hrest; cbn; [done|].
    intros [= <-]. by eapply IH.
  - intros [= <-]. by eapply broadcast_dim_error.
Qed.

Lemma broadcast_error {A B C : Type} (f : A → B → C) (a : ndarray A) (b : ndarray B)
    (e : exn) :
  broadcast f a b = Raise e → e = ValueError.
Proof.
  unfold broadcast, broadcast_shapes.
  destruct (broadcast_aligned _ _) as [?|e'] eqn:Hs; [done|]. cbn. intros [= <-].
  by eapply broadcast_aligned_error.
Qed.

Lemma water_level_list_error (nominal : ndarray Z) (masks : list (ndarray Z)) (e : exn) :
  WaterDetectionTask.water_level_list nominal masks = Raise e → e = ZeroDivisionError.
Proof.
  induction masks as [|mask masks IH]; [done|].
  cbn. unfold truediv. destruct (_ =? _)%Z; cbn; [by intros [= <-]|].
  destruct (WaterDetectionTask.water_level_list nominal masks); [done|]. cbn.
  intros [= <-]. by apply IH.
Qed.

Section WaterEdges.
Variable threshold_otsu : ndarray float → result float.
Variable equal_nan : bool.

(** X12. Without [NDWI] the task raises [KeyError] and leaves the patch as it
    is; without [NOMINAL_WATER] it never returns and writes neither
    [WATER_MASK] nor [WATER_LEVEL]. *)
Theorem execute_needs_its_inputs (eopatch : EOPatch) :
  (data eopatch !! "NDWI" = None →
   WaterDetectionTask.execute threshold_otsu equal_nan eopatch
   = Raised KeyError eopatch) ∧
  (mask_timeless eopatch !! "NOMINAL_WATER" = None →
   ∃ e eopatch',
     WaterDetectionTask.execute threshold_otsu equal_nan eopatch = Raised e eopatch' ∧
     mask eopatch' = mask eopatch ∧ scalar eopatch' = scalar eopatch).
Proof.
  split.
  - intros Hndwi. unfold WaterDetectionTask.execute, getitem. by rewrite Hndwi.
  - intros Hnom. unfold WaterDetectionTask.execute.
    destruct (getitem (data eopatch) "NDWI") as [ndwi|e]; [|by eauto].
    destruct (np_iter ndwi) as [frames|e]; [|by eauto].
    destruct (WaterDetectionTask.detect_frames threshold_otsu equal_nan frames)
      as [frames' [waters|e]]; [|by eauto].
    unfold WaterDetectionTask.store_water, getitem. cbn [mask_timeless with_data].
    rewrite Hnom. cbn [bind]. by eauto.
Qed.

(** X13. A stack without frames (as the filter leaves it when it drops every
    scene) makes the task fail with [ValueError] or [ZeroDivisionError]:
    the product of the empty list of masks with the 3-dimensional nominal
    extent has no time axis.  Nothing is stored. *)
Theorem execute_fails_without_frames (eopatch : EOPatch) (ndwi : ndarray float)
    (nominal : ndarray Z) (s : list nat) :
  data eopatch !! "NDWI" = Some ndwi → shape ndwi = 0 :: s →
  mask_timeless eopatch !! "NOMINAL_WATER" = Some nominal → ndim nominal = 3 →
  ∃ e eopatch',
    WaterDetectionTask.execute threshold_otsu equal_nan eopatch = Raised e eopatch' ∧
    (e = ValueError ∨ e = ZeroDivisionError) ∧
    mask eopatch' = mask eopatch ∧ scalar eopatch' = scalar eopatch.
Proof.
  intros Hndwi Hshape Hnom Hrank.
  unfold WaterDetectionTask.execute, getitem, np_iter. rewrite Hndwi, Hshape.
  cbn [seq List.map WaterDetectionTask.detect_frames np_asarray].
  unfold WaterDetectionTask.store_water, getitem. cbn [mask_timeless with_data].
  rewrite Hnom. cbn [bind].
  destruct (broadcast _ _ _) as [product|e] eqn:Hb.
  2:{ apply broadcast_error in Hb as ->. cbn [bind]. by eauto 10. }
  cbn [bind]. pose proof (ndim_broadcast _ _ _ _ Hb) as Hmax.
  rewrite Hrank in Hmax. cbn in Hmax.
  destruct (np_iter product) as [masks|e] eqn:Hiter.
  2:{ unfold np_iter in Hiter. destruct (shape product) eqn:Hsp; [|done].
      unfold ndim in Hmax. by rewrite Hsp in Hmax. }
  cbn [bind].
  destruct (WaterDetectionTask.water_level_list nominal masks) as [levels|e] eqn:Hlevels.
  - cbn [bind]. unfold setitem_mask. rewrite Hmax. cbn. by eauto 10.
  - apply water_level_list_error in Hlevels as ->. cbn [bind]. by eauto 10.
Qed.

End WaterEdges.

Lemma store_water_with_data (eopatch : EOPatch) (d : gmap string (ndarray float))
    (water_masks : ndarray bool) :
  WaterDetectionTask.store_water (with_data eopatch d) water_masks
  = outcome_map (fun p => with_data p d)
      (WaterDetectionTask.store_water eopatch water_masks).
Proof.
  unfold WaterDetectionTask.store_water. cbn [mask_timeless with_data].
  destruct (bind _ _) as [[masks levels]|e]; [|done].
  unfold setitem_mask, setitem_scalar.
  destruct (ndim masks =? 4); [|done].
  by destruct (ndim (newaxis levels) =? 2).
Qed.

(** What [store_water] writes depends on the nominal extent only. *)
Lemma store_water_returned (eopatch eopatch' : EOPatch) (water_masks : ndarray bool) :
  WaterDetectionTask.store_water eopatch water_masks = Returned eopatch' →
  ∃ masks levels,
    ∀ other, mask_timeless other = mask_timeless eopatch →
      WaterDetectionTask.store_water other water_masks
      = Returned
          (with_scalar (with_mask other (<["WATER_MASK" := masks]> (mask other)))
             (<["WATER_LEVEL" := levels]> (scalar other))).
Proof.
  unfold WaterDetectionTask.store_water.
  destruct (bind (getitem (mask_timeless eopatch) "NOMINAL_WATER") _)
    as [[masks levels]|e] eqn:Hcomputed; [|done].
  unfold setitem_mask, setitem_scalar.
  destruct (ndim masks =? 4) eqn:Hfour; [|done].
  destruct (ndim (newaxis levels) =? 2) eqn:Htwo; [|done].
  intros _. exists masks, (newaxis levels). intros other ->.
  by rewrite Hcomputed, Hfour, Htwo.
Qed.

Section WaterChannels.
Variable threshold_otsu : ndarray float → result float.
Variable equal_nan : bool.

Lemma detect_frames_views (frames frames2 : list (ndarray float)) :
  Forall2 (fun frame frame2 => index_last0 frame = index_last0 frame2) frames frames2 →
  snd (WaterDetectionTask.detect_frames threshold_otsu equal_nan frames)
  = snd (WaterDetectionTask.detect_frames threshold_otsu equal_nan frames2).
Proof.
  induction 1 as [|frame frame2 frames frames2 Hview _ IH]; [done|].
  cbn [WaterDetectionTask.detect_frames]. rewrite Hview.
  destruct (index_last0 frame2) as [view|e]; [|done].
  destruct (WaterDetectionTask.detect_water threshold_otsu equal_nan view)
    as [view' [water|e]]; [|done].
  destruct (WaterDetectionTask.detect_frames threshold_otsu equal_nan frames)
    as [rest rs].
  destruct (WaterDetectionTask.detect_frames threshold_otsu equal_nan frames2)
    as [rest2 rs2].
  cbn [snd] in *. by subst.
Qed.

(** X14. The task reads channel 0 of [NDWI] only: two stacks whose frames
    agree on channel 0 give the same [WATER_MASK] and [WATER_LEVEL], and
    the task ends the same way. *)
Theorem execute_reads_channel_0 (eopatch : EOPatch) (ndwi ndwi2 : ndarray float)
    (frames frames2 : list (ndarray float)) :
  data eopatch !! "NDWI" = Some ndwi →
  np_iter ndwi = Ok frames → np_iter ndwi2 = Ok frames2 →
  Forall2 (fun frame frame2 => index_last0 frame = index_last0 frame2) frames frames2 →
  let o := WaterDetectionTask.execute threshold_otsu equal_nan eopatch in
  let o2 :=
    WaterDetectionTask.execute threshold_otsu equal_nan
      (with_data eopatch (<["NDWI" := ndwi2]> (data eopatch))) in
  raised o = raised o2 ∧
  mask (final_patch o) = mask (final_patch o2) ∧
  scalar (final_patch o) = scalar (final_patch o2).
Proof.
  intros Hndwi Hiter Hiter2 Hviews. cbn zeta.
  unfold WaterDetectionTask.execute, getitem. cbn [data with_data].
  rewrite Hndwi, lookup_insert_eq, Hiter, Hiter2.
  pose proof (detect_frames_views frames frames2 Hviews) as Hsame.
  destruct (WaterDetectionTask.detect_frames threshold_otsu equal_nan frames)
    as [frames' r].
  destruct (WaterDetectionTask.detect_frames threshold_otsu equal_nan frames2)
    as [frames2' r2].
  cbn [snd] in Hsame. subst r2. destruct r as [waters|e]; [|done].
  rewrite !store_water_with_data.
  by destruct (WaterDetectionTask.store_water eopatch (np_asarray waters)).
Qed.

(** X15. [AddValidDataCoverageTask] and [WaterDetectionTask] do not
    interfere: when both return on a patch, running one after the other
    gives the same patch in either order. *)
Theorem coverage_and_water_commute (eopatch after_water after_coverage : EOPatch) :
  WaterDetectionTask.execute threshold_otsu equal_nan eopatch = Returned after_water →
  AddValidDataCoverageTask.execute eopatch = Returned after_coverage →
  ∃ final,
    AddValidDataCoverageTask.execute after_water = Returned final ∧
    WaterDetectionTask.execute threshold_otsu equal_nan after_coverage = Returned final.
Proof.
  intros Hwater Hcoverage.
  destruct (coverage_task_returned eopatch after_coverage Hcoverage)
    as (valid_data & time & height & width & channels & Hmask & Hshape & Htime & Hpixels).
  rewrite (coverage_task_returns eopatch valid_data time height width channels)
    in Hcoverage by done.
  injection Hcoverage as <-.
  revert Hwater. unfold WaterDetectionTask.execute. cbn [data with_scalar].
  destruct (getitem (data eopatch) "NDWI") as [ndwi|e]; [|done].
  destruct (np_iter ndwi) as [frames|e]; [|done].
  destruct (WaterDetectionTask.detect_frames threshold_otsu equal_nan frames)
    as [frames' [waters|e]]; [|done].
  intros Hstore.
  destruct (store_water_returned _ _ _ Hstore) as (masks & levels & Hany).
  rewrite Hany in Hstore by done. injection Hstore as <-.
  eexists. split.
  - apply (coverage_task_returns _ valid_data time height width channels); try done.
    cbn [mask with_scalar with_mask]. by rewrite lookup_insert_ne.
  - rewrite Hany by done. unfold with_scalar, with_mask, with_data. cbn.
    f_equal. f_equal. by apply insert_insert_ne.
Qed.

End WaterChannels.

(** ** The validity mask: exceptions and counts *)

(** X10. [calculate_valid_data_mask] raises [KeyError] when [IS_DATA] or
    [CLM] is missing and [ValueError] when the shapes of the two masks
    cannot be broadcast; in every other case it returns a mask of the
    broadcast shape. *)
Theorem valid_data_mask_exceptions (eopatch : EOPatch) :
  match mask eopatch !! "IS_DATA", mask eopatch !! "CLM" with
  | Some is_data, Some clm =>
      match broadcast_shapes (shape is_data) (shape clm) with
      | Ok s => ∃ valid, calculate_valid_data_mask eopatch = Ok valid ∧ shape valid = s
      | Raise _ => calculate_valid_data_mask eopatch = Raise ValueError
      end
  | _, _ => calculate_valid_data_mask eopatch = Raise KeyError
  end.
Proof.
  unfold calculate_valid_data_mask, getitem.
  destruct (mask eopatch !! "IS_DATA") as [is_data|]; [|by destruct (mask eopatch !! "CLM")].
  destruct (mask eopatch !! "CLM") as [clm|]; [|done]. cbn [bind].
  unfold broadcast, astype_bool, np_map. cbn [shape].
  destruct (broadcast_shapes (shape is_data) (shape clm)) as [s|e] eqn:Hs; cbn [bind].
  - by eexists.
  - unfold broadcast_shapes in Hs. by apply broadcast_aligned_error in Hs as ->.
Qed.

Lemma count_true_valid (ds cs : list Z) :
  length ds = length cs →
  count_true (zip_with (fun d c => truthy d && negb (truthy c)) ds cs) ≤ count_true ds ∧
  count_true (zip_with (fun d c => truthy d && negb (truthy c)) ds cs) + count_true cs
  ≤ length cs.
Proof.
  revert cs. induction ds as [|d ds IH]; intros [|c cs] Hlen; try done.
  cbn [zip_with length]. rewrite !count_true_cons.
  destruct (IH cs) as [IH1 IH2]; [by injection Hlen|].
  set (valid := count_true (zip_with _ ds cs)) in *.
  destruct (truthy d), (truthy c); unfold truthy, truthy_bool; cbn [andb negb]; lia.
Qed.

(** X11. On masks of one shape the number of valid pixels is at most the
    number of pixels with data, and valid pixels and cloud pixels together
    are at most all pixels. *)
Theorem valid_pixels_are_counted_once (eopatch : EOPatch) (is_data clm : ndarray Z) :
  mask eopatch !! "IS_DATA" = Some is_data →
  mask eopatch !! "CLM" = Some clm →
  well_formed is_data → well_formed clm → shape is_data = shape clm →
  ∃ valid,
    calculate_valid_data_mask eopatch = Ok valid ∧
    (np_count_nonzero valid ≤ np_count_nonzero is_data)%Z ∧
    (np_count_nonzero valid + np_count_nonzero clm ≤ np_size valid)%Z.
Proof.
  intros Hd Hc Hwd Hwc Hs. unfold calculate_valid_data_mask, getitem.
  rewrite Hd, Hc. cbn [bind].
  rewrite broadcast_same_shape;
    [|unfold well_formed, astype_bool, np_map; cbn; by rewrite ?length_map..|done].
  eexists. split; [done|]. unfold np_count_nonzero, np_size, astype_bool, np_map.
  cbn [flat shape]. rewrite map_map, zip_with_map.
  unfold well_formed in *.
  destruct (count_true_valid (flat is_data) (flat clm)) as [H1 H2]; [congruence|].
  rewrite Hs, <- Hwc. lia.
Qed.

(** ** The threshold of the predicate *)

Lemma ltb_below_zero (c thr : float) :
  Float.leb Float.zero c = true → Float.ltb Float.zero thr = false →
  Float.ltb c thr = false.
Proof.
  unfold Float.leb, Float.ltb, SFleb, SFltb, Float.zero.
  destruct c as [sc|sc| |sc mc ec], thr as [st|st| |st mt et];
    repeat match goal with s : bool |- _ => destruct s end; cbn; done.
Qed.

Lemma ltb_above_finite (c thr : float) (m : positive) (e : Z) :
  Float.leb c (S754_finite false m e) = true →
  Float.ltb (S754_finite false m e) thr = true →
  Float.ltb c thr = true.
Proof.
  unfold Float.leb, Float.ltb, SFleb, SFltb.
  destruct c as [sc|sc| |sc mc ec], thr as [st|st| |st mt et];
    repeat match goal with s : bool |- _ => destruct s end;
    cbn [SFcompare]; try done.
  rewrite !Pos.compare_cont_spec. cbn [Pos.switch_Eq].
  destruct (Z.compare_spec ec e) as [->|Hec|Hec]; [| |done].
  - destruct (Pos.compare_spec mc m) as [->|Hmc|Hmc]; [done| |done]. intros _.
    destruct (Z.compare_spec e et) as [->|Het|Het]; [| |done].
    + destruct (Pos.compare_spec m mt) as [|Hmt|]; [done| |done]. intros _.
      assert (mc < mt)%positive as Hlt by lia.
      apply Pos.compare_lt_iff in Hlt. by rewrite Hlt.
    + done.
  - intros _. destruct (Z.compare_spec e et) as [->|Het|Het]; [| |done].
    + apply Z.compare_lt_iff in Hec. by rewrite Hec.
    + assert (ec < et)%Z as Hlt by lia. apply Z.compare_lt_iff in Hlt. by rewrite Hlt.
Qed.

Lemma ltb_above_one (c thr : float) :
  Float.leb c Float.one = true → Float.ltb Float.one thr = true →
  Float.ltb c thr = true.
Proof.
  change Float.one with (S754_finite false 4503599627370496 (-52)).
  apply ltb_above_finite.
Qed.

(** X9. On arrays with at least one and fewer than [2^53] elements, a
    predicate whose threshold is not above 0.0 rejects every array and a
    predicate whose threshold is above 1.0 accepts every array. *)
Theorem predicate_threshold_extremes {A : Type} `{Truthy A}
    (self : ValidDataCoveragePredicate.t) (array : ndarray A) :
  well_formed array → (0 < np_size array < 2 ^ 53)%Z →
  (Float.ltb Float.zero (ValidDataCoveragePredicate.threshold self) = false →
   ValidDataCoveragePredicate.call self array = Ok false) ∧
  (Float.ltb Float.one (ValidDataCoveragePredicate.threshold self) = true →
   ValidDataCoveragePredicate.call self array = Ok true).
Proof.
  intros Hwf Hsize.
  unfold ValidDataCoveragePredicate.call, calculate_coverage.
  rewrite truediv_nonzero by lia. cbn [bind].
  destruct (one_minus_quotient_unit_interval (np_count_nonzero array) (np_size array))
    as [Hlo Hhi]; [|done|].
  { unfold np_count_nonzero, np_size in *.
    pose proof (count_true_le_length (flat array)). unfold well_formed in Hwf. lia. }
  split; intros Hthr.
  - by rewrite (ltb_below_zero _ _ Hlo Hthr).
  - by rewrite (ltb_above_one _ _ Hhi Hthr).
Qed.

(** ** [OsmInputTask] with a bounding box *)

Section OsmOutcome.
Variable Response : Type.
Variable api_get : string → result Response.
Variable transform_wgs84 : BBox → BBox.
Variable format_bounds : BBox → string.
Variable clip_features : bool → BBox → Z → Response → result GeoDataFrame.

(** X18. With a bounding box [execute] sends one request, the query followed
    by the bounds in WGS84.  The patch is written only at the end: when the
    request or the clipping fails it is left as it was, otherwise exactly
    the feature named by the task is replaced and every other vector
    feature keeps its value. *)
Theorem osm_writes_at_the_end (self : OsmInputTask.t) (eopatch : EOPatch) (box : BBox) :
  bbox eopatch = Some box →
  let run :=
    OsmInputTask.execute Response api_get transform_wgs84 format_bounds clip_features
      self eopatch in
  snd run
  = [(OsmInputTask.query self +:+ format_bounds (transform_wgs84 box))%string] ∧
  match fst run with
  | Raised _ eopatch' => eopatch' = eopatch
  | Returned eopatch' =>
      data eopatch' = data eopatch ∧ mask eopatch' = mask eopatch ∧
      scalar eopatch' = scalar eopatch ∧
      mask_timeless eopatch' = mask_timeless eopatch ∧
      bbox eopatch' = bbox eopatch ∧
      (∃ gdf, vector_timeless eopatch' !! OsmInputTask.feature self = Some gdf) ∧
      ∀ name, name ≠ OsmInputTask.feature self →
        vector_timeless eopatch' !! name = vector_timeless eopatch !! name
  end.
Proof.
  intros Hbbox. cbn zeta. unfold OsmInputTask.execute. rewrite Hbbox.
  destruct (api_get _) as [response|e]; [|done].
  destruct (clip_features _ _ _ _) as [gdf|e]; [|done].
  cbn. split; [done|]. repeat split; try done.
  - exists gdf. by rewrite lookup_insert_eq.
  - intros name Hname. by rewrite lookup_insert_ne.
Qed.

End OsmOutcome.

(** ** Reading back what was written through a view *)

Lemma heads_set_heads {A : Type} (c n : nat) (v l : list A) :
  0 < c → length v = n → length l = n * c → heads c n (set_heads c v l) = v.
Proof.
  intros Hc. revert v l. induction n as [|n IH]; intros v l Hv Hl.
  - by destruct v.
  - destruct v as [|x v]; [done|]. destruct l as [|y tl]; [cbn in Hl; lia|].
    cbn [set_heads heads app]. f_equal.
    change (x :: take (c - 1) tl ++ set_heads c v (drop c (y :: tl)))
      with ((x :: take (c - 1) tl) ++ set_heads c v (drop c (y :: tl))).
    assert (Hlen : length (x :: take (c - 1) tl) = c).
    { cbn [length] in *. rewrite length_take. lia. }
    rewrite (drop_app_length' _ _ c (eq_sym Hlen)).
    apply IH; [by injection Hv|]. rewrite length_drop, Hl. lia.
Qed.

Lemma set_heads_heads {A : Type} (c n : nat) (l : list A) :
  0 < c → length l = n * c → set_heads c (heads c n l) l = l.
Proof.
  intros Hc. revert l. induction n as [|n IH]; intros l Hl.
  - by destruct l.
  - destruct l as [|y tl]; [cbn in Hl; lia|].
    cbn [heads set_heads]. rewrite IH by (rewrite length_drop, Hl; lia).
    destruct c as [|c]; [lia|]. replace (S c - 1) with c by lia.
    cbn [drop app]. f_equal. apply take_drop.
Qed.

Lemma nan_to_neg_one_idempotent (x : float) :
  nan_to_neg_one (nan_to_neg_one x) = nan_to_neg_one x.
Proof. unfold nan_to_neg_one. by destruct x. Qed.

Section SecondRun.
Variable threshold_otsu : ndarray float → result float.
Variable equal_nan : bool.

Lemma detect_water_fst (ndwi : ndarray float) :
  fst (WaterDetectionTask.detect_water threshold_otsu equal_nan ndwi)
  = if 1 <? len_unique equal_nan ndwi then np_map nan_to_neg_one ndwi else ndwi.
Proof.
  unfold WaterDetectionTask.detect_water.
  by destruct (1 <? len_unique equal_nan ndwi).
Qed.

(** What [detect_water] left in a frame it does not change again. *)
Lemma detect_water_settled (ndwi : ndarray float) :
  fst (WaterDetectionTask.detect_water threshold_otsu equal_nan
         (fst (WaterDetectionTask.detect_water threshold_otsu equal_nan ndwi)))
  = fst (WaterDetectionTask.detect_water threshold_otsu equal_nan ndwi).
Proof.
  rewrite !detect_water_fst.
  destruct (1 <? len_unique equal_nan ndwi) eqn:Hmany; [|by rewrite Hmany].
  destruct (1 <? len_unique equal_nan (np_map nan_to_neg_one ndwi)); [|done].
  unfold np_map. cbn [shape flat]. f_equal. rewrite List.map_map.
  apply map_ext. intros x. apply nan_to_neg_one_idempotent.
Qed.

Lemma detect_frames_settled (frames : list (ndarray float)) :
  Forall (settled threshold_otsu equal_nan) frames →
  fst (WaterDetectionTask.detect_frames threshold_otsu equal_nan frames) = frames.
Proof.
  induction 1 as [|frame frames Hframe _ IH]; [done|].
  cbn [WaterDetectionTask.detect_frames].
  destruct (index_last0 frame) as [view|e] eqn:Hview; [|done].
  specialize (Hframe view Hview).
  destruct (WaterDetectionTask.detect_water threshold_otsu equal_nan view)
    as [view' r]. cbn [fst] in Hframe. rewrite Hframe.
  destruct r as [water|e]; [|done].
  destruct (WaterDetectionTask.detect_frames threshold_otsu equal_nan frames)
    as [rest rs]. cbn [fst] in *. by rewrite IH.
Qed.

Lemma detect_frames_leaves_settled H W C (frames frames' : list (ndarray float))
    (waters : list (ndarray bool)) :
  0 < C → Forall (is_frame H W C) frames →
  WaterDetectionTask.detect_frames threshold_otsu equal_nan frames = (frames', Ok waters) →
  Forall (fun frame' => is_frame H W C frame' ∧ settled threshold_otsu equal_nan frame') frames'.
Proof.
  intros HC Hframes. revert frames' waters.
  induction Hframes as [|frame frames Hframe _ IH]; intros frames' waters.
  - cbn. intros [= <- <-]. constructor.
  - cbn [WaterDetectionTask.detect_frames].
    rewrite (index_last0_frame H W C) by done.
    set (view := mk_ndarray [H; W] (heads C (H * W) (flat frame))).
    pose proof (detect_water_written threshold_otsu equal_nan view) as [Hshape Hwritten].
    pose proof (detect_water_settled view) as Hagain.
    destruct (WaterDetectionTask.detect_water threshold_otsu equal_nan view)
      as [view' [water|e]]; [|done].
    destruct (WaterDetectionTask.detect_frames threshold_otsu equal_nan frames)
      as [rest' [rest_waters|e]]; [|done].
    cbn [bind fst] in *. intros [= <- <-].
    constructor; [|by eapply IH].
    destruct Hframe as [Hfs Hfl].
    assert (Hlen : length (flat view') = H * W).
    { apply Forall2_length in Hwritten. rewrite <- Hwritten. subst view. cbn [flat].
      apply length_heads; [done|lia]. }
    assert (Hset : set_last0 frame view'
                   = mk_ndarray [H; W; C] (set_heads C (flat view') (flat frame))).
    { unfold set_last0. by rewrite Hfs. }
    assert (Hkeep : length (set_heads C (flat view') (flat frame)) = H * W * C).
    { rewrite <- Hfl. symmetry. eapply Forall2_length.
      apply (set_heads_overwritten C (H * W)); [done|lia|done]. }
    rewrite Hset. split; [by split|].
    intros view2. rewrite (index_last0_frame H W C) by (done || by split).
    cbn [flat]. rewrite heads_set_heads by (done || lia).
    intros [= <-].
    assert (Hview' : mk_ndarray [H; W] (flat view') = view').
    { destruct view' as [s' l']. cbn in *. by subst. }
    rewrite Hview', Hagain. unfold set_last0. cbn [shape split_last rev app flat].
    f_equal. rewrite <- (heads_set_heads C (H * W) (flat view') (flat frame)) at 1
      by (done || lia).
    by apply set_heads_heads.
Qed.

(** X16. Once the task has returned, a second run on its result does not
    change the data features again, however that run ends: what the first
    run wrote into [NDWI] is final. *)
Theorem second_run_keeps_ndwi (eopatch eopatch' : EOPatch) (ndwi : ndarray float)
    (nominal : ndarray Z) (T H W C : nat) :
  water_scene eopatch ndwi nominal T H W C →
  WaterDetectionTask.execute threshold_otsu equal_nan eopatch = Returned eopatch' →
  data (final_patch (WaterDetectionTask.execute threshold_otsu equal_nan eopatch'))
  = data eopatch'.
Proof.
  intros [Hndwi Hs Hwf HT HC Hnom Hns Hnwf]. unfold WaterDetectionTask.execute at 1.
  unfold getitem. rewrite Hndwi.
  destruct (np_iter ndwi) as [frames|e] eqn:Hiter; [|done].
  destruct (np_iter_frames ndwi T H W C frames Hs Hwf Hiter) as (_ & Hlen & Hframes).
  destruct (WaterDetectionTask.detect_frames threshold_otsu equal_nan frames)
    as [frames' [waters|e]] eqn:Hdetect; [|done].
  pose proof (detect_frames_leaves_settled H W C frames frames' waters HC Hframes Hdetect)
    as Hsettled.
  destruct (detect_frames_ok threshold_otsu equal_nan H W C frames frames' waters
              HC Hframes Hdetect) as (Hsame & _ & _).
  apply Forall2_length in Hsame.
  set (written := mk_ndarray (shape ndwi) (List.concat (List.map flat frames'))).
  intros Hstore.
  pose proof (store_water_frame
                (with_data eopatch (<["NDWI" := written]> (data eopatch)))
                (np_asarray waters)) as [Hdata _].
  rewrite Hstore in Hdata. cbn [final_patch data with_data] in Hdata.
  assert (Hiter' : np_iter written = Ok frames').
  { unfold np_iter. subst written. cbn [shape flat]. rewrite Hs. f_equal.
    rewrite <- flat_map_concat_map. unfold subarray.
    rewrite <- (map_map (fun j => chunk (prod_shape [H; W; C]) j _)
                  (mk_ndarray [H; W; C])).
    replace T with (length frames') by lia.
    rewrite chunks_of_flat_map.
    - rewrite map_map. rewrite <- (map_id frames') at 2. apply map_ext_in.
      intros frame' Hin. rewrite List.Forall_forall in Hsettled.
      destruct (Hsettled frame' Hin) as [[Hfs _] _].
      destruct frame' as [s' l']. cbn in *. by subst.
    - eapply Forall_impl; [exact Hsettled|]. cbn. intros frame' [[_ Hfl] _].
      rewrite Hfl. lia. }
  rewrite (execute_final_data threshold_otsu equal_nan eopatch' written frames');
    [|by rewrite Hdata, lookup_insert_eq|done].
  rewrite detect_frames_settled.
  - rewrite Hdata. subst written. cbn [shape]. by rewrite insert_insert_eq.
  - eapply Forall_impl; [exact Hsettled|]. by intros frame' [_ ?].
Qed.

End SecondRun.

(** ** Water levels at the ends of the scale *)

Lemma div_counts_zero_iff (k n : Z) :
  (0 ≤ k < 2 ^ 53)%Z → (0 < n < 2 ^ 53)%Z →
  Float.div (Float.of_int k) (Float.of_int n) = Float.zero ↔ k = 0%Z.
Proof.
  intros Hk Hn. split; [|intros ->; by apply div_zero_count].
  destruct (Z.eq_dec k 0%Z) as [|Hk0]; [done|]. intros Hzero. exfalso. revert Hzero.
  destruct (of_int_normal n Hn) as (mn & en & -> & Hmn & Hen & _).
  destruct (of_int_normal k ltac:(lia)) as (mk & ek & -> & Hmk & Hek & _).
  destruct (div_normal mk mn ek en) as (p & e & Hdiv & _); try done.
  unfold Float.div, Float.prec, Float.emax. by rewrite Hdiv.
Qed.

Section LevelEnds.
Variable threshold_otsu : ndarray float → result float.
Variable equal_nan : bool.

(** X17. Under the conditions of C9, the water level of a frame is 0.0
    exactly when the water mask stored for the frame has no pixel set, and
    1.0 when the mask has as many pixels set as the nominal extent. *)
Theorem water_level_ends (eopatch : EOPatch)
    (ndwi : ndarray float) (nominal : ndarray Z) (T H W C : nat) :
  water_scene eopatch ndwi nominal T H W C →
  detects_every_frame threshold_otsu equal_nan ndwi →
  (0 < np_count_nonzero nominal)%Z →
  (Z.of_nat (H * W) < 2 ^ 53)%Z →
  ∃ eopatch' water_masks masks levels,
    WaterDetectionTask.execute threshold_otsu equal_nan eopatch = Returned eopatch' ∧
    mask eopatch' !! "WATER_MASK" = Some water_masks ∧
    np_iter water_masks = Ok masks ∧
    scalar eopatch' !! "WATER_LEVEL" = Some (mk_ndarray [T; 1] levels) ∧
    Forall2
      (fun mask level =>
         (level = Float.zero ↔ np_count_nonzero mask = 0%Z) ∧
         (np_count_nonzero mask = np_count_nonzero nominal → level = Float.one))
      masks levels.
Proof.
  intros Hscene Hdet Hcount Hsmall.
  destruct (scene_frames_detected threshold_otsu equal_nan eopatch ndwi nominal
              T H W C Hscene Hdet) as (frames & frames' & waters & Hiter & Hdetect).
  destruct (execute_returns threshold_otsu equal_nan eopatch ndwi nominal T H W C
              frames frames' waters Hscene Hiter Hdetect ltac:(lia)) as [Hexec Hlen].
  destruct Hscene as [Hndwi Hs Hwf HT HC Hnom Hns Hnwf].
  destruct (np_iter_frames ndwi T H W C frames Hs Hwf Hiter) as (_ & _ & Hframes).
  destruct (detect_frames_ok threshold_otsu equal_nan H W C frames frames' waters
              HC Hframes Hdetect) as (_ & _ & Hwaters).
  assert (Hnominal : length (flat nominal) = H * W).
  { unfold well_formed in Hnwf. rewrite Hnwf, Hns. cbn. lia. }
  eexists _, _, (List.map (fun water => mk_ndarray [H; W; 1] (water_in_extent nominal water))
                   waters), _.
  split; [exact Hexec|]. cbn [mask scalar]. rewrite !lookup_insert_eq.
  split; [done|]. split; [|split; [done|]].
  - unfold np_iter. cbn [shape flat]. f_equal. unfold subarray.
    rewrite <- (map_map (fun j => chunk (prod_shape [H; W; 1]) j _)
                  (mk_ndarray [H; W; 1])).
    rewrite <- Hlen, chunks_of_flat_map; [by rewrite map_map|].
    eapply Forall_impl; [exact Hwaters|]. cbn. intros water [_ Hwl].
    rewrite (length_water_in_extent nominal water (H * W)); [lia|done|done].
  - apply Forall2_map_both. intros water _.
    unfold water_level_of, np_count_nonzero. cbn [flat].
    pose proof (count_true_zip_mul_le (flat water) (flat nominal)) as Hle.
    pose proof (count_true_le_length (flat nominal)) as Hmax.
    unfold water_in_extent, np_count_nonzero in *.
    split.
    + rewrite div_counts_zero_iff by lia. lia.
    + intros Hfull. apply Nat2Z.inj in Hfull. rewrite Hfull.
      apply div_count_self. lia.
Qed.

End LevelEnds.

(** ** The order of binary64 numbers *)

Lemma compare_lex_trans (e1 e2 e3 : Z) (m1 m2 m3 : positive) :
  match (e1 ?= e2)%Z with Lt => Lt | Gt => Gt | Eq => (m1 ?= m2)%positive end = Lt →
  match (e2 ?= e3)%Z with Lt => Lt | Gt => Gt | Eq => (m2 ?= m3)%positive end ≠ Gt →
  match (e1 ?= e3)%Z with Lt => Lt | Gt => Gt | Eq => (m1 ?= m3)%positive end = Lt.
Proof.
  destruct (Z.compare_spec e1 e2) as [->|H12|H12]; [| |done].
  - destruct (Pos.compare_spec m1 m2) as [|Hm12|]; [done| |done]. intros _.
    destruct (Z.compare_spec e2 e3) as [->|H23|H23]; [| |done].
    + destruct (Pos.compare_spec m2 m3) as [->|Hm23|Hm23]; [| |done]; intros _.
      * apply Pos.compare_lt_iff in Hm12. by rewrite Hm12.
      * assert (m1 < m3)%positive as Hlt by lia.
        apply Pos.compare_lt_iff in Hlt. by rewrite Hlt.
    + done.
  - intros _. destruct (Z.compare_spec e2 e3) as [->|H23|H23]; [| |done]; intros _.
    + apply Z.compare_lt_iff in H12. by rewrite H12.
    + assert (e1 < e3)%Z as Hlt by lia. apply Z.compare_lt_iff in Hlt. by rewrite Hlt.
Qed.

Lemma compare_lex_trans_opp (e1 e2 e3 : Z) (m1 m2 m3 : positive) :
  match (e1 ?= e2)%Z with Lt => Gt | Gt => Lt | Eq => CompOpp (m1 ?= m2)%positive end = Lt →
  match (e2 ?= e3)%Z with Lt => Gt | Gt => Lt | Eq => CompOpp (m2 ?= m3)%positive end ≠ Gt →
  match (e1 ?= e3)%Z with Lt => Gt | Gt => Lt | Eq => CompOpp (m1 ?= m3)%positive end = Lt.
Proof.
  destruct (Z.compare_spec e1 e2) as [->|H12|H12]; [|done|].
  - destruct (Pos.compare_spec m1 m2) as [|?|Hm12]; [done|done|]. intros _.
    destruct (Z.compare_spec e2 e3) as [->|H23|H23]; [|done|].
    + destruct (Pos.compare_spec m2 m3) as [->|Hm23|Hm23]; [|done|]; intros _.
      * apply Pos.compare_gt_iff in Hm12. by rewrite Hm12.
      * assert (m3 < m1)%positive as Hlt by lia.
        apply Pos.compare_gt_iff in Hlt. by rewrite Hlt.
    + done.
  - intros _. destruct (Z.compare_spec e2 e3) as [->|H23|H23]; [|done|]; intros _.
    + apply Z.compare_gt_iff in H12. by rewrite H12.
    + assert (e3 < e1)%Z as Hlt by lia. apply Z.compare_gt_iff in Hlt. by rewrite Hlt.
Qed.

Lemma switch_Eq_Eq (c : comparison) : Pos.switch_Eq Eq c = c.
Proof. by destruct c. Qed.

(** [x < y] and [y <= z] give [x < z]. *)
Lemma ltb_leb_trans (x y z : float) :
  Float.ltb x y = true → Float.leb y z = true → Float.ltb x z = true.
Proof.
  unfold Float.leb, Float.ltb, SFleb, SFltb.
  destruct x as [sx|sx| |sx mx ex], y as [sy|sy| |sy my ey], z as [sz|sz| |sz mz ez];
    repeat match goal with s : bool |- _ => destruct s end;
    cbn [SFcompare]; try done; rewrite ?Pos.compare_cont_spec;
    change (Pos.switch_Eq Eq) with (fun c : comparison => Pos.switch_Eq Eq c);
    cbn beta; rewrite ?switch_Eq_Eq.
  - intros H1 H2.
    rewrite (compare_lex_trans_opp ex ey ez mx my mz); [done| |].
    + by destruct (ex ?= ey)%Z, (mx ?= my)%positive.
    + by destruct (ey ?= ez)%Z, (my ?= mz)%positive.
  - intros H1 H2.
    rewrite (compare_lex_trans ex ey ez mx my mz); [done| |].
    + by destruct (ex ?= ey)%Z, (mx ?= my)%positive.
    + by destruct (ey ?= ez)%Z, (my ?= mz)%positive.
Qed.

(** X19. Raising the threshold never turns an accepted array into a
    rejected one. *)
Theorem predicate_monotone_in_threshold {A : Type} `{Truthy A}
    (lo hi : ValidDataCoveragePredicate.t) (array : ndarray A) :
  Float.leb (ValidDataCoveragePredicate.threshold lo)
            (ValidDataCoveragePredicate.threshold hi) = true →
  ValidDataCoveragePredicate.call lo array = Ok true →
  ValidDataCoveragePredicate.call hi array = Ok true.
Proof.
  intros Hle. unfold ValidDataCoveragePredicate.call.
  destruct (calculate_coverage array) as [c|e]; [|done]. cbn [bind].
  intros [= Hlo]. f_equal. by eapply ltb_leb_trans.
Qed.

(** ** Frames that hold nothing but NaN *)

Lemma count_unique_nan_merged (n : nat) :
  count_unique true [S754_nan] (repeat S754_nan n) = 0.
Proof. by induction n. Qed.

Lemma count_unique_nan_apart (seen : list float) (n : nat) :
  count_unique false seen (repeat S754_nan n) = n.
Proof.
  revert seen. induction n as [|n IH]; intros seen; [done|].
  cbn [repeat count_unique].
  assert (Hnew : existsb (same_value false S754_nan) seen = false).
  { clear. induction seen as [|y seen IH]; [done|]. cbn [existsb]. by rewrite IH. }
  by rewrite Hnew, IH.
Qed.

(** X20. A frame of two or more pixels that are all NaN.  With a numpy
    whose [np.unique] merges NaN (1.21 and later) the frame is left as it
    is, Otsu is not consulted and no pixel is water.  With an older numpy
    every NaN is a value of its own: all pixels are overwritten with -1 and
    Otsu is asked about the constant image. *)
Theorem all_nan_frame (threshold_otsu : ndarray float → result float)
    (s : list nat) (n : nat) :
  2 ≤ n →
  WaterDetectionTask.detect_water threshold_otsu true (mk_ndarray s (repeat nan n))
  = (mk_ndarray s (repeat nan n), Ok (mk_ndarray s (repeat false n))) ∧
  WaterDetectionTask.detect_water threshold_otsu false (mk_ndarray s (repeat nan n))
  = (mk_ndarray s (repeat Float.neg_one n),
     let! otsu_thr := threshold_otsu (mk_ndarray s (repeat Float.neg_one n)) in
     Ok (mk_ndarray s (repeat (Float.gtb Float.neg_one otsu_thr) n))).
Proof.
  intros Hn. unfold WaterDetectionTask.detect_water, len_unique, nan. cbn [flat].
  split.
  - destruct n as [|n]; [lia|]. cbn [repeat count_unique existsb].
    rewrite count_unique_nan_merged. cbn [Nat.ltb Nat.leb].
    unfold np_map. cbn [shape flat]. do 3 f_equal.
    change (S754_nan :: repeat S754_nan n) with (repeat S754_nan (S n)).
    by rewrite List.map_repeat.
  - rewrite count_unique_nan_apart.
    destruct (Nat.ltb_spec 1 n) as [_|]; [|lia].
    unfold np_map. cbn [shape flat]. rewrite !List.map_repeat.
    change (nan_to_neg_one S754_nan) with Float.neg_one. f_equal.
    destruct (threshold_otsu _) as [otsu_thr|e]; [|done]. cbn [bind].
    by rewrite List.map_repeat.
Qed.

Section Failure.
Variable threshold_otsu : ndarray float → result float.
Variable equal_nan : bool.

(** X21. When the task raises, no result has been stored: the [MASK] and
    [SCALAR] features are as they were ([NDWI] may have been written). *)
Theorem execute_stores_nothing_on_failure (eopatch eopatch' : EOPatch) (e : exn) :
  WaterDetectionTask.execute threshold_otsu equal_nan eopatch = Raised e eopatch' →
  mask eopatch' = mask eopatch ∧ scalar eopatch' = scalar eopatch.
Proof.
  unfold WaterDetectionTask.execute.
  destruct (getitem (data eopatch) "NDWI") as [ndwi|e1]; [|by intros [= _ <-]].
  destruct (np_iter ndwi) as [frames|e1]; [|by intros [= _ <-]].
  destruct (WaterDetectionTask.detect_frames threshold_otsu equal_nan frames)
    as [frames' [waters|e1]]; [|by intros [= _ <-]].
  unfold WaterDetectionTask.store_water. cbn [mask_timeless with_data].
  destruct (getitem (mask_timeless eopatch) "NOMINAL_WATER") as [nominal|e1];
    [|by intros [= _ <-]]. cbn [bind].
  destruct (broadcast _ _ _) as [product|e1]; [|by intros [= _ <-]]. cbn [bind].
  destruct (np_iter product) as [masks|e1]; [|by intros [= _ <-]]. cbn [bind].
  destruct (WaterDetectionTask.water_level_list nominal masks) as [levels|e1];
    [|by intros [= _ <-]]. cbn [bind].
  unfold setitem_mask. destruct (ndim product =? 4); [|by intros [= _ <-]].
  done.
Qed.

End Failure.


(** ** C8: what [execute] writes *)

Lemma heads_lookup {A : Type} (c n : nat) (l : list A) (j : nat) :
  0 < c → length l = n * c → j < n → heads c n l !! j = l !! (j * c).
Proof.
  intros Hc. revert l j. induction n as [|n IH]; intros l j Hl Hj; [lia|].
  destruct l as [|x tl]; [cbn in Hl; lia|]. cbn [heads].
  destruct j as [|j]; [done|]. cbn [lookup list_lookup].
  change (heads c n (drop c (x :: tl)) !! j = (x :: tl) !! (S j * c)).
  rewrite IH by (rewrite ?length_drop, ?Hl; lia).
  by rewrite lookup_drop.
Qed.

Lemma set_heads_lookup {A : Type} (c n : nat) (v l : list A) (i : nat) :
  0 < c → length l = n * c → length v = n →
  set_heads c v l !! i = if i mod c =? 0 then v !! (i / c) else l !! i.
Proof.
  intros Hc. revert v l i. induction n as [|n IH]; intros v l i Hl Hv.
  - destruct v; [|done]. destruct l; [|done]. cbn. by destruct (_ =? _).
  - destruct v as [|y v]; [done|]. destruct l as [|x tl]; [cbn in Hl; lia|].
    cbn [set_heads].
    assert (Hlen : length (y :: take (c - 1) tl) = c).
    { cbn [length] in *. rewrite length_take. lia. }
    destruct (Nat.lt_ge_cases i c) as [Hi|Hi].
    + rewrite lookup_app_l by lia. rewrite Nat.mod_small by done.
      destruct i as [|i]; [by rewrite Nat.Div0.div_0_l|].
      cbn. apply lookup_take_lt. lia.
    + rewrite lookup_app_r by lia. rewrite Hlen.
      rewrite IH by (rewrite ?length_drop, ?Hl; cbn in *; lia).
      rewrite lookup_drop.
      assert (Hmod : i mod c = (i - c) mod c).
      { replace i with ((i - c) + 1 * c) at 1 by lia. apply Nat.Div0.mod_add. }
      assert (Hdiv : i / c = S ((i - c) / c)).
      { replace i with ((i - c) + 1 * c) at 1 by lia.
        rewrite Nat.div_add by lia. lia. }
      rewrite Hmod, Hdiv. replace (c + (i - c)) with i by lia. done.
Qed.

(** Writing [g] of channel 0 back through the view, element by element. *)
Lemma set_heads_map_lookup {A : Type} (g : A → A) (c n : nat) (l : list A) (i : nat) :
  0 < c → length l = n * c →
  set_heads c (List.map g (heads c n l)) l !! i
  = (fun x => if i mod c =? 0 then g x else x) <$> l !! i.
Proof.
  intros Hc Hl.
  rewrite (set_heads_lookup c n) by (rewrite ?length_map, ?length_heads; lia).
  destruct (Nat.eqb_spec (i mod c) 0) as [Hmod|Hmod]; [|by destruct (l !! i)].
  assert (Hi : i = i / c * c).
  { pose proof (Nat.div_mod_eq i c). lia. }
  change (List.map g (heads c n l)) with (g <$> heads c n l).
  rewrite list_lookup_fmap. f_equal.
  destruct (Nat.lt_ge_cases (i / c) n) as [Hlt|Hge].
  - rewrite heads_lookup by done. by rewrite <- Hi.
  - rewrite !lookup_ge_None_2; [done| |].
    + rewrite Hl, Hi. by apply Nat.mul_le_mono_r.
    + rewrite length_heads; lia.
Qed.

Section Written.
Variable threshold_otsu : ndarray float → result float.
Variable equal_nan : bool.

Lemma detect_water_leaves (ndwi : ndarray float) :
  fst (WaterDetectionTask.detect_water threshold_otsu equal_nan ndwi)
  = np_map (fun x => if 1 <? len_unique equal_nan ndwi then nan_to_neg_one x else x) ndwi.
Proof.
  unfold WaterDetectionTask.detect_water.
  destruct (1 <? len_unique equal_nan ndwi); cbn [fst]; [done|].
  destruct ndwi as [s l]. unfold np_map. cbn. by rewrite map_id.
Qed.

(** What a pass over the frames leaves in each of them. *)
Lemma detect_frames_replaced H W C (frames frames' : list (ndarray float))
    (waters : list (ndarray bool)) :
  0 < C → Forall (is_frame H W C) frames →
  WaterDetectionTask.detect_frames threshold_otsu equal_nan frames = (frames', Ok waters) →
  Forall2 (channel_0_replaced equal_nan C) frames frames'.
Proof.
  intros HC Hframes. revert frames' waters.
  induction Hframes as [|frame frames Hframe _ IH]; intros frames' waters.
  - cbn. intros [= <- <-]. constructor.
  - cbn [WaterDetectionTask.detect_frames].
    pose proof (index_last0_frame H W C frame HC Hframe) as Hview. rewrite Hview.
    set (view := mk_ndarray [H; W] (heads C (H * W) (flat frame))) in *.
    pose proof (detect_water_leaves view) as Hleaves.
    destruct (WaterDetectionTask.detect_water threshold_otsu equal_nan view)
      as [view' [water|e]]; [|done].
    destruct (WaterDetectionTask.detect_frames threshold_otsu equal_nan frames)
      as [rest' [rest_waters|e]]; [|done].
    cbn [bind fst] in *. intros [= <- <-].
    constructor; [|by eapply IH].
    destruct Hframe as [Hfs Hfl]. exists view. split; [done|].
    unfold set_last0. rewrite Hfs. cbn [split_last rev app shape flat].
    split; [done|]. intros i. rewrite Hleaves. subst view. cbn [np_map flat].
    rewrite (set_heads_map_lookup _ C (H * W)) by (done || lia).
    destruct (flat frame !! i); [|done]. cbn.
    by destruct (i mod C =? 0), (1 <? _).
Qed.

(** The frames of a stack put together from frames. *)
Lemma np_iter_stack H W C (frames : list (ndarray float)) :
  Forall (is_frame H W C) frames →
  np_iter (mk_ndarray [length frames; H; W; C] (List.concat (List.map flat frames)))
  = Ok frames.
Proof.
  intros Hframes. unfold np_iter. cbn [shape flat]. f_equal.
  rewrite <- flat_map_concat_map. unfold subarray.
  rewrite <- (map_map (fun j => chunk (prod_shape [H; W; C]) j _)
                (mk_ndarray [H; W; C])).
  rewrite chunks_of_flat_map.
  - rewrite map_map. rewrite <- (map_id frames) at 2. apply map_ext_in.
    intros frame Hin. rewrite List.Forall_forall in Hframes.
    destruct (Hframes frame Hin) as [Hfs _].
    destruct frame as [s' l']. cbn in *. by subst.
  - eapply Forall_impl; [exact Hframes|]. cbn. intros frame [_ Hfl].
    rewrite Hfl. lia.
Qed.

(** The outcome of [execute] and what it stores depend on the two
    features it reads. *)
Lemma execute_reads_two_features (eopatch other : EOPatch) :
  data other !! "NDWI" = data eopatch !! "NDWI" →
  mask_timeless other !! "NOMINAL_WATER" = mask_timeless eopatch !! "NOMINAL_WATER" →
  let o := WaterDetectionTask.execute threshold_otsu equal_nan eopatch in
  let o' := WaterDetectionTask.execute threshold_otsu equal_nan other in
  raised o' = raised o ∧
  data (final_patch o') !! "NDWI" = data (final_patch o) !! "NDWI" ∧
  (raised o = None →
   mask (final_patch o') !! "WATER_MASK" = mask (final_patch o) !! "WATER_MASK" ∧
   scalar (final_patch o') !! "WATER_LEVEL" = scalar (final_patch o) !! "WATER_LEVEL").
Proof.
  intros Hndwi Hnom. cbn zeta. unfold WaterDetectionTask.execute, getitem.
  rewrite Hndwi. destruct (data eopatch !! "NDWI") as [ndwi|] eqn:Hdata;
    [|cbn; by rewrite Hndwi].
  destruct (np_iter ndwi) as [frames|e]; [|cbn; by rewrite Hndwi].
  destruct (WaterDetectionTask.detect_frames threshold_otsu equal_nan frames)
    as [frames' [waters|e]]; [|cbn; by rewrite !lookup_insert_eq].
  rewrite !store_water_with_data.
  unfold WaterDetectionTask.store_water, getitem. rewrite Hnom.
  destruct (bind _ _) as [[masks levels]|e]; [|cbn; by rewrite !lookup_insert_eq].
  unfold setitem_mask, setitem_scalar.
  destruct (ndim masks =? 4); [|cbn; by rewrite !lookup_insert_eq].
  destruct (ndim (newaxis levels) =? 2); cbn; by rewrite !lookup_insert_eq.
Qed.

(** C8, as the code has it.  Whichever way [execute] ends, it leaves the
    nominal extent, the vector features, the bounding box and every
    feature other than [NDWI], [WATER_MASK] and [WATER_LEVEL] as they
    were, and [NDWI] keeps its shape.  But the detector writes into the
    stack it reads.  When every frame gets a threshold, the frames of
    [NDWI] afterwards are the frames before with -1 in place of every NaN
    of channel 0 wherever that channel held more than one value, and with
    every other element as it was.  When moreover the nominal extent lies
    on the grid of the frames and has a non-zero pixel, [execute] returns
    and has stored [WATER_MASK] and [WATER_LEVEL], one mask and one level
    per frame.  How the run ends and what it leaves in the three features
    is the same for every patch with this [NDWI] and this nominal
    extent. *)
Theorem execute_writes_only_water_and_nan (eopatch : EOPatch)
    (ndwi : ndarray float) (T H W C : nat) :
  data eopatch !! "NDWI" = Some ndwi →
  shape ndwi = [T; H; W; C] → well_formed ndwi →
  let run := WaterDetectionTask.execute threshold_otsu equal_nan in
  let eopatch' := final_patch (run eopatch) in
  (mask_timeless eopatch' = mask_timeless eopatch ∧
   vector_timeless eopatch' = vector_timeless eopatch ∧
   bbox eopatch' = bbox eopatch ∧
   (∀ name, name ≠ "WATER_MASK" → mask eopatch' !! name = mask eopatch !! name) ∧
   (∀ name, name ≠ "WATER_LEVEL" → scalar eopatch' !! name = scalar eopatch !! name) ∧
   (∀ name, name ≠ "NDWI" → data eopatch' !! name = data eopatch !! name) ∧
   (∃ ndwi', data eopatch' !! "NDWI" = Some ndwi' ∧
             shape ndwi' = shape ndwi ∧
             Forall2 nan_overwritten (flat ndwi) (flat ndwi')) ∧
   (Forall (fun x => Float.isnan x = false) (flat ndwi) →
    data eopatch' = data eopatch)) ∧
  (0 < C → detects_every_frame threshold_otsu equal_nan ndwi →
   ∃ ndwi' frames frames',
     data eopatch' !! "NDWI" = Some ndwi' ∧
     np_iter ndwi = Ok frames ∧ np_iter ndwi' = Ok frames' ∧
     Forall2 (channel_0_replaced equal_nan C) frames frames') ∧
  (∀ nominal : ndarray Z,
     0 < T → 0 < C → detects_every_frame threshold_otsu equal_nan ndwi →
     mask_timeless eopatch !! "NOMINAL_WATER" = Some nominal →
     shape nominal = [H; W; 1] → well_formed nominal →
     np_count_nonzero nominal ≠ 0%Z →
     ∃ water_mask water_level,
       run eopatch = Returned eopatch' ∧
       mask eopatch' = <["WATER_MASK" := water_mask]> (mask eopatch) ∧
       shape water_mask = [T; H; W; 1] ∧
       scalar eopatch' = <["WATER_LEVEL" := water_level]> (scalar eopatch) ∧
       shape water_level = [T; 1]) ∧
  (∀ other : EOPatch,
     data other !! "NDWI" = Some ndwi →
     mask_timeless other !! "NOMINAL_WATER" = mask_timeless eopatch !! "NOMINAL_WATER" →
     let other' := final_patch (run other) in
     raised (run other) = raised (run eopatch) ∧
     data other' !! "NDWI" = data eopatch' !! "NDWI" ∧
     (raised (run eopatch) = None →
      mask other' !! "WATER_MASK" = mask eopatch' !! "WATER_MASK" ∧
      scalar other' !! "WATER_LEVEL" = scalar eopatch' !! "WATER_LEVEL")).
Proof.
  intros Hndwi Hs Hwf. cbn zeta.
  split; [exact (execute_keeps_the_rest threshold_otsu equal_nan
                   eopatch ndwi T H W C Hndwi Hs Hwf)|].
  destruct (np_iter ndwi) as [frames|e] eqn:Hiter.
  2:{ unfold np_iter in Hiter. by rewrite Hs in Hiter. }
  destruct (np_iter_frames ndwi T H W C frames Hs Hwf Hiter) as (_ & Hlen & Hframes).
  split; [|split].
  - intros HC Hdet.
    destruct (detect_frames_returns threshold_otsu equal_nan H W C frames HC Hframes)
      as (frames' & waters & Hdetect).
    { intros frame view. by apply Hdet. }
    destruct (detect_frames_ok threshold_otsu equal_nan H W C frames frames' waters
                HC Hframes Hdetect) as (Hkept & _ & _).
    eexists _, frames, frames'.
    rewrite (execute_final_data threshold_otsu equal_nan eopatch ndwi frames) by done.
    rewrite Hdetect, lookup_insert_eq. cbn [fst].
    split; [done|]. split; [done|].
    split; [|by apply (detect_frames_replaced H W C frames frames' waters)].
    rewrite Hs, <- Hlen, (Forall2_length _ _ _ Hkept).
    apply np_iter_stack.
    clear Hdetect Hlen Hiter. induction Hkept as [|frame frame' ? ? [Hfs Hfl] _ IH];
      [constructor|].
    inversion Hframes as [|? ? [Hs0 Hl0] Hrest]; subst.
    constructor; [|by apply IH]. split; [congruence|].
    rewrite <- (Forall2_length _ _ _ Hfl). done.
  - intros nominal HT HC Hdet Hnom Hns Hnwf Hcount.
    assert (Hscene : water_scene eopatch ndwi nominal T H W C) by by constructor.
    destruct (scene_frames_detected threshold_otsu equal_nan eopatch ndwi nominal
                T H W C Hscene Hdet) as (frames0 & frames' & waters & Hiter0 & Hdetect).
    destruct (execute_returns threshold_otsu equal_nan eopatch ndwi nominal T H W C
                frames0 frames' waters Hscene Hiter0 Hdetect Hcount) as [-> _].
    cbn [final_patch mask scalar]. by eexists _, _.
  - intros other Hother Hsame.
    apply execute_reads_two_features; [by rewrite Hother, Hndwi|done].
Qed.

End Written.

(** * Instances *)

Lemma water_scene_lake : water_scene patch_lake ndwi_lake nominal_lake 2 2 2 1.
Proof. constructor; (reflexivity || lia). Qed.

Lemma otsu_zero_detects (ndwi : ndarray float) :
  detects_every_frame otsu_zero false ndwi.
Proof. apply total_otsu_detects. intros image. by eexists. Qed.

Example detect_frames_lake :
  WaterDetectionTask.detect_frames otsu_zero false frames_lake
  = (frames_lake_after, Ok waters_lake).
Proof. reflexivity. Qed.

(** The NaN of the first frame is the one element that differs. *)
Example frames_lake_replaced :
  Forall2 (channel_0_replaced false 1) frames_lake frames_lake_after.
Proof.
  repeat constructor; eexists; (split; [reflexivity|]); (split; [reflexivity|]);
    intros i; do 4 (destruct i as [|i]; [reflexivity|]); reflexivity.
Qed.

Lemma valid_data_mask_is_data_and_not_cloud_witness :
  shape is_data_lake = shape clm_lake ∧
  calculate_valid_data_mask patch_lake
  = Ok (mk_ndarray [2; 2; 2; 1]
          [true; false; true; true; true; true; false; false]).
Proof.
  split; [reflexivity|].
  exact (valid_data_mask_is_data_and_not_cloud patch_lake is_data_lake clm_lake
           eq_refl eq_refl eq_refl eq_refl eq_refl).
Defined.

Lemma remove_cloudy_scenes_idempotent_witness :
  well_formed (astype_bool is_data_lake) ∧
  remove_cloudy_scenes (ValidDataCoveragePredicate.init cloud_coverage_threshold)
    (astype_bool is_data_lake)
  = Ok (mk_ndarray [1; 2; 2; 1] [true; true; true; true]) ∧
  remove_cloudy_scenes (ValidDataCoveragePredicate.init cloud_coverage_threshold)
    (mk_ndarray [1; 2; 2; 1] [true; true; true; true])
  = Ok (mk_ndarray [1; 2; 2; 1] [true; true; true; true]).
Proof.
  split; [reflexivity|]. split; [reflexivity|].
  apply (proj1 (remove_cloudy_scenes_idempotent
                  (ValidDataCoveragePredicate.init cloud_coverage_threshold)
                  (astype_bool is_data_lake) eq_refl)).
  reflexivity.
Defined.

Lemma water_level_is_share_of_extent_witness :
  ∃ eopatch',
    WaterDetectionTask.execute otsu_zero false patch_lake = Returned eopatch' ∧
    mask eopatch' !! "WATER_MASK"
    = Some (mk_ndarray [2; 2; 2; 1] [1; 0; 0; 1; 0; 0; 0; 0]%Z) ∧
    scalar eopatch' !! "WATER_LEVEL"
    = Some (mk_ndarray [2; 1] [two_thirds; Float.zero]).
Proof.
  destruct (water_level_is_share_of_extent otsu_zero false patch_lake ndwi_lake
              nominal_lake 2 2 2 1 water_scene_lake (otsu_zero_detects ndwi_lake)
              eq_refl)
    as (eopatch' & frames & waters & Hexec & _).
  exists eopatch'. split; [exact Hexec|].
  vm_compute in Hexec. injection Hexec as <-. split; reflexivity.
Defined.

Lemma water_level_in_unit_interval_witness :
  ∃ eopatch' levels,
    WaterDetectionTask.execute otsu_zero false patch_lake = Returned eopatch' ∧
    scalar eopatch' !! "WATER_LEVEL" = Some (mk_ndarray [2; 1] levels) ∧
    length levels = 2 ∧
    Forall (fun level => Float.leb Float.zero level = true ∧
                         Float.leb level Float.one = true) levels.
Proof.
  exact (water_level_in_unit_interval otsu_zero false patch_lake ndwi_lake
           nominal_lake 2 2 2 1 water_scene_lake (otsu_zero_detects ndwi_lake)
           eq_refl eq_refl).
Defined.

Lemma execute_fails_on_empty_extent_witness :
  np_count_nonzero (mk_ndarray [2; 2; 1] [0; 0; 0; 0]%Z) = 0%Z ∧
  ∃ e eopatch',
    WaterDetectionTask.execute otsu_zero false patch_dry = Raised e eopatch'.
Proof.
  split; [reflexivity|].
  exact (execute_fails_on_empty_extent otsu_zero false patch_dry
           (mk_ndarray [2; 2; 1] [0; 0; 0; 0]%Z) eq_refl eq_refl eq_refl).
Defined.

Example execute_on_empty_extent :
  WaterDetectionTask.execute otsu_zero false patch_dry
  = Raised ZeroDivisionError
      (with_data patch_dry
         {[ "NDWI" := mk_ndarray [2; 2; 2; 1]
                        [half; neg_half; Float.neg_one; half; half; half; half; half] ]}).
Proof. reflexivity. Qed.

Lemma execute_writes_only_water_and_nan_witness :
  well_formed ndwi_lake ∧
  (∃ ndwi' frames frames',
     data (final_patch (WaterDetectionTask.execute otsu_zero false patch_lake)) !! "NDWI"
     = Some ndwi' ∧
     np_iter ndwi_lake = Ok frames ∧ np_iter ndwi' = Ok frames' ∧
     Forall2 (channel_0_replaced false 1) frames frames') ∧
  ∃ water_mask water_level,
    WaterDetectionTask.execute otsu_zero false patch_lake
    = Returned (final_patch (WaterDetectionTask.execute otsu_zero false patch_lake)) ∧
    mask (final_patch (WaterDetectionTask.execute otsu_zero false patch_lake))
    = <["WATER_MASK" := water_mask]> (mask patch_lake) ∧
    shape water_mask = [2; 2; 2; 1] ∧
    scalar (final_patch (WaterDetectionTask.execute otsu_zero false patch_lake))
    = <["WATER_LEVEL" := water_level]> (scalar patch_lake) ∧
    shape water_level = [2; 1].
Proof.
  split; [reflexivity|].
  destruct (execute_writes_only_water_and_nan otsu_zero false patch_lake ndwi_lake
              2 2 2 1 eq_refl eq_refl eq_refl) as (_ & Hwritten & Hstored & _).
  split.
  - apply Hwritten; [lia|apply otsu_zero_detects].
  - apply (Hstored nominal_lake); try reflexivity; try lia;
      [apply otsu_zero_detects|discriminate].
Defined.

Lemma clashing_grids_are_rejected_witness :
  calculate_valid_data_mask patch_clash = Raise ValueError ∧
  (∃ eopatch',
     WaterDetectionTask.execute otsu_zero false patch_clash
     = Raised ValueError eopatch') ∧
  (∃ valid,
     calculate_valid_data_mask patch_one_cloud_pixel = Ok valid ∧
     broadcast_shapes [1; 2; 2; 1] [1; 1; 1; 1] = Ok (shape valid)) ∧
  (∃ eopatch' water_mask,
     WaterDetectionTask.execute otsu_zero false patch_mismatch = Returned eopatch' ∧
     mask eopatch' !! "WATER_MASK" = Some water_mask ∧
     broadcast_shapes [1; 2; 2; 1] [1; 1; 1] = Ok (shape water_mask)).
Proof.
  destruct (clashing_grids_are_rejected otsu_zero false)
    as (Hmask & Hwater & Hmask_fits & Hwater_fits).
  split; [|split; [|split]].
  - apply (Hmask patch_clash is_data_lake (mk_ndarray [2; 3; 2; 1] (repeat 0%Z 12))
             2 2 2 1 2 3 2 1); try reflexivity.
    left. unfold clash. lia.
  - apply (Hwater patch_clash ndwi_lake (mk_ndarray [3; 2; 1] [1; 1; 0; 1; 1; 1]%Z)
             2 2 2 1 3 2 1); try reflexivity; try lia; [apply otsu_zero_detects|].
    left. unfold clash. lia.
  - apply (Hmask_fits patch_one_cloud_pixel (mk_ndarray [1; 2; 2; 1] [1; 1; 0; 1]%Z)
             (mk_ndarray [1; 1; 1; 1] [0%Z]) 1 2 2 1 1 1 1 1);
      try reflexivity; unfold clash; lia.
  - apply (Hwater_fits patch_mismatch (mk_ndarray [1; 2; 2; 1] [two; two; two; two])
             (mk_ndarray [1; 1; 1] [1%Z]) 1 2 2 1 1 1 1);
      try reflexivity; try lia; try (unfold clash; lia);
      [apply otsu_zero_detects|discriminate].
Defined.

Lemma osm_requires_bbox_witness :
  bbox empty_patch = None ∧
  OsmInputTask.execute unit no_answer (fun b => b) (fun _ => "(0, 0, 1, 1)")
    clip_nothing residential empty_patch
  = (Raised ValueError empty_patch, []).
Proof.
  split; [reflexivity|].
  exact (proj1 (osm_requires_bbox unit no_answer (fun b => b) (fun _ => "(0, 0, 1, 1)")
                  clip_nothing residential empty_patch eq_refl)).
Defined.

Example osm_request_with_bbox :
  OsmInputTask.execute unit no_answer (fun b => b) (fun _ => "(0, 0, 1, 1)")
    clip_nothing residential patch_boxed
  = (Raised ValueError patch_boxed, ["way[landuse=residential](0, 0, 1, 1)"]).
Proof. reflexivity. Qed.

Lemma coverage_of_invalid_frame_witness :
  calculate_coverage (mk_ndarray [2; 2; 1] [false; false; false; false])
  = Ok Float.one ∧
  ValidDataCoveragePredicate.call
    (ValidDataCoveragePredicate.init cloud_coverage_threshold)
    (mk_ndarray [2; 2; 1] [false; false; false; false])
  = Ok false.
Proof.
  destruct (coverage_of_invalid_frame
              (mk_ndarray [2; 2; 1] [false; false; false; false]))
    as [Hcov Hcall]; [split; reflexivity|reflexivity|].
  split; [exact Hcov|].
  exact (Hcall (ValidDataCoveragePredicate.init cloud_coverage_threshold) eq_refl).
Defined.

Lemma coverage_of_valid_frame_witness :
  calculate_coverage (mk_ndarray [2; 2; 1] [true; true; true; true])
  = Ok Float.zero ∧
  ValidDataCoveragePredicate.call
    (ValidDataCoveragePredicate.init cloud_coverage_threshold)
    (mk_ndarray [2; 2; 1] [true; true; true; true])
  = Ok true.
Proof.
  destruct (coverage_of_valid_frame
              (mk_ndarray [2; 2; 1] [true; true; true; true]))
    as [Hcov Hcall]; [split; reflexivity|reflexivity|].
  split; [exact Hcov|].
  exact (Hcall (ValidDataCoveragePredicate.init cloud_coverage_threshold)).
Defined.

Lemma constant_frame_has_no_water_witness :
  WaterDetectionTask.detect_water otsu_strict true
    (mk_ndarray [2; 2] [half; half; half; half])
  = (mk_ndarray [2; 2] [half; half; half; half],
     Ok (mk_ndarray [2; 2] [false; false; false; false])).
Proof.
  exact (constant_frame_has_no_water otsu_strict true [2; 2] half 4 eq_refl eq_refl).
Defined.

Lemma coverage_task_agrees_with_predicate_witness :
  ∃ eopatch' coverage frames,
    AddValidDataCoverageTask.execute patch_lake_valid = Returned eopatch' ∧
    scalar eopatch' !! "COVERAGE" = Some (mk_ndarray [2; 1] coverage) ∧
    np_iter valid_lake = Ok frames ∧
    Forall2
      (fun frame c =>
         calculate_coverage frame = Ok c ∧
         ∀ self : ValidDataCoveragePredicate.t,
           ValidDataCoveragePredicate.call self frame
           = Ok (Float.ltb c (ValidDataCoveragePredicate.threshold self)))
      frames coverage.
Proof.
  apply (coverage_task_agrees_with_predicate patch_lake_valid valid_lake 2 2 2 1);
    (reflexivity || lia).
Defined.

Lemma coverage_in_unit_interval_witness :
  well_formed (mk_ndarray [2; 2; 1] [true; true; false; true]) ∧
  ∃ c, calculate_coverage (mk_ndarray [2; 2; 1] [true; true; false; true]) = Ok c ∧
    Float.leb Float.zero c = true ∧ Float.leb c Float.one = true.
Proof.
  split; [reflexivity|].
  apply (coverage_in_unit_interval (mk_ndarray [2; 2; 1] [true; true; false; true]));
    [reflexivity|by vm_compute].
Defined.

Lemma coverage_column_in_unit_interval_witness :
  AddValidDataCoverageTask.execute patch_lake_valid = Returned patch_lake_covered ∧
  ∃ coverage,
    scalar patch_lake_covered !! "COVERAGE" = Some (mk_ndarray [2; 1] coverage) ∧
    length coverage = 2 ∧
    Forall (fun c => Float.leb Float.zero c = true ∧ Float.leb c Float.one = true)
      coverage.
Proof.
  split; [reflexivity|].
  apply (coverage_column_in_unit_interval patch_lake_valid patch_lake_covered valid_lake
           2 2 2 1); (reflexivity || by vm_compute).
Defined.

Lemma coverage_task_idempotent_witness :
  AddValidDataCoverageTask.execute patch_lake_valid = Returned patch_lake_covered ∧
  AddValidDataCoverageTask.execute patch_lake_covered = Returned patch_lake_covered.
Proof.
  split; [reflexivity|].
  apply (coverage_task_idempotent patch_lake_valid patch_lake_covered). reflexivity.
Defined.

Lemma predicate_threshold_extremes_witness :
  ValidDataCoveragePredicate.call predicate_none
    (mk_ndarray [2; 2; 1] [true; true; true; true]) = Ok false ∧
  ValidDataCoveragePredicate.call predicate_all
    (mk_ndarray [2; 2; 1] [false; false; false; false]) = Ok true.
Proof.
  split.
  - apply (proj1 (predicate_threshold_extremes predicate_none
                    (mk_ndarray [2; 2; 1] [true; true; true; true])
                    eq_refl ltac:(by vm_compute))).
    reflexivity.
  - apply (proj2 (predicate_threshold_extremes predicate_all
                    (mk_ndarray [2; 2; 1] [false; false; false; false])
                    eq_refl ltac:(by vm_compute))).
    reflexivity.
Defined.

Lemma valid_pixels_are_counted_once_witness :
  shape is_data_lake = shape clm_lake ∧
  ∃ valid,
    calculate_valid_data_mask patch_lake = Ok valid ∧
    (np_count_nonzero valid ≤ np_count_nonzero is_data_lake)%Z ∧
    (np_count_nonzero valid + np_count_nonzero clm_lake ≤ np_size valid)%Z.
Proof.
  split; [reflexivity|].
  exact (valid_pixels_are_counted_once patch_lake is_data_lake clm_lake
           eq_refl eq_refl eq_refl eq_refl eq_refl).
Defined.

Lemma execute_needs_its_inputs_witness :
  WaterDetectionTask.execute otsu_zero false empty_patch = Raised KeyError empty_patch ∧
  ∃ e eopatch',
    WaterDetectionTask.execute otsu_zero false patch_no_extent = Raised e eopatch' ∧
    mask eopatch' = mask patch_no_extent ∧ scalar eopatch' = scalar patch_no_extent.
Proof.
  split.
  - exact (proj1 (execute_needs_its_inputs otsu_zero false empty_patch) eq_refl).
  - exact (proj2 (execute_needs_its_inputs otsu_zero false patch_no_extent) eq_refl).
Defined.

Lemma execute_fails_without_frames_witness :
  ∃ e eopatch',
    WaterDetectionTask.execute otsu_zero false patch_no_frames = Raised e eopatch' ∧
    (e = ValueError ∨ e = ZeroDivisionError) ∧
    mask eopatch' = mask patch_no_frames ∧ scalar eopatch' = scalar patch_no_frames.
Proof.
  exact (execute_fails_without_frames otsu_zero false patch_no_frames
           (mk_ndarray [0; 2; 2; 1] []) nominal_lake [2; 2; 1]
           eq_refl eq_refl eq_refl eq_refl).
Defined.

Lemma execute_reads_channel_0_witness :
  raised (WaterDetectionTask.execute otsu_zero false patch_two_channels)
  = raised (WaterDetectionTask.execute otsu_zero false patch_other_channel) ∧
  mask (final_patch (WaterDetectionTask.execute otsu_zero false patch_two_channels))
  = mask (final_patch (WaterDetectionTask.execute otsu_zero false patch_other_channel)) ∧
  scalar (final_patch (WaterDetectionTask.execute otsu_zero false patch_two_channels))
  = scalar (final_patch (WaterDetectionTask.execute otsu_zero false patch_other_channel)).
Proof.
  apply (execute_reads_channel_0 otsu_zero false patch_two_channels
           ndwi_two_channels ndwi_other_channel
           [mk_ndarray [2; 2; 2] [half; two; neg_half; two; nan; two; half; two]]
           [mk_ndarray [2; 2; 2] [half; nan; neg_half; four; nan; half; half; nan]]);
    [reflexivity|reflexivity|reflexivity|].
  constructor; [reflexivity|constructor].
Defined.

Lemma coverage_and_water_commute_witness :
  ∃ final,
    AddValidDataCoverageTask.execute
      (final_patch (WaterDetectionTask.execute otsu_zero false patch_lake_valid))
    = Returned final ∧
    WaterDetectionTask.execute otsu_zero false patch_lake_covered = Returned final.
Proof.
  apply (coverage_and_water_commute otsu_zero false patch_lake_valid); reflexivity.
Defined.

Lemma second_run_keeps_ndwi_witness :
  data (final_patch
          (WaterDetectionTask.execute otsu_zero false
             (final_patch (WaterDetectionTask.execute otsu_zero false patch_lake))))
  = data (final_patch (WaterDetectionTask.execute otsu_zero false patch_lake)).
Proof.
  apply (second_run_keeps_ndwi otsu_zero false patch_lake _ ndwi_lake nominal_lake 2 2 2 1);
    [apply water_scene_lake|reflexivity].
Defined.

Lemma water_level_ends_witness :
  ∃ eopatch' water_masks masks levels,
    WaterDetectionTask.execute otsu_zero false patch_lake = Returned eopatch' ∧
    mask eopatch' !! "WATER_MASK" = Some water_masks ∧
    np_iter water_masks = Ok masks ∧
    scalar eopatch' !! "WATER_LEVEL" = Some (mk_ndarray [2; 1] levels) ∧
    Forall2
      (fun mask level =>
         (level = Float.zero ↔ np_count_nonzero mask = 0%Z) ∧
         (np_count_nonzero mask = np_count_nonzero nominal_lake → level = Float.one))
      masks levels.
Proof.
  exact (water_level_ends otsu_zero false patch_lake ndwi_lake nominal_lake 2 2 2 1
           water_scene_lake (otsu_zero_detects ndwi_lake) eq_refl eq_refl).
Defined.

Lemma osm_writes_at_the_end_witness :
  snd (OsmInputTask.execute unit no_answer (fun b => b) (fun _ => "(0, 0, 1, 1)")
         clip_nothing residential patch_boxed)
  = ["way[landuse=residential](0, 0, 1, 1)"] ∧
  fst (OsmInputTask.execute unit no_answer (fun b => b) (fun _ => "(0, 0, 1, 1)")
         clip_nothing residential patch_boxed)
  = Raised ValueError patch_boxed.
Proof.
  destruct (osm_writes_at_the_end unit no_answer (fun b => b) (fun _ => "(0, 0, 1, 1)")
              clip_nothing residential patch_boxed some_bbox eq_refl) as [Hsent Hpatch].
  split; [exact Hsent|reflexivity].
Defined.

Lemma predicate_monotone_in_threshold_witness :
  ValidDataCoveragePredicate.call (ValidDataCoveragePredicate.init half)
    (mk_ndarray [2; 2; 1] [true; true; true; true])
  = Ok true.
Proof.
  apply (predicate_monotone_in_threshold
           (ValidDataCoveragePredicate.init cloud_coverage_threshold)
           (ValidDataCoveragePredicate.init half));
    reflexivity.
Defined.

Lemma all_nan_frame_witness :
  WaterDetectionTask.detect_water otsu_strict true (mk_ndarray [1; 2] [nan; nan])
  = (mk_ndarray [1; 2] [nan; nan], Ok (mk_ndarray [1; 2] [false; false])) ∧
  WaterDetectionTask.detect_water otsu_strict false (mk_ndarray [1; 2] [nan; nan])
  = (mk_ndarray [1; 2] [Float.neg_one; Float.neg_one], Raise ValueError).
Proof.
  destruct (all_nan_frame otsu_strict [1; 2] 2 ltac:(lia)) as [Hmerged Hapart].
  split; [exact Hmerged|exact Hapart].
Defined.

Lemma execute_stores_nothing_on_failure_witness :
  mask (final_patch (WaterDetectionTask.execute otsu_zero false patch_dry))
  = mask patch_dry ∧
  scalar (final_patch (WaterDetectionTask.execute otsu_zero false patch_dry))
  = scalar patch_dry.
Proof.
  apply (execute_stores_nothing_on_failure otsu_zero false patch_dry _ ZeroDivisionError).
  reflexivity.
Defined.

(** * Where the code departs from the specification *)

(** On a frame holding a NaN and a -1 the detector sees two values and
    asks Otsu about a grid that is constant by then; the wording of the
    specification replaces first, sees one value and takes 1.0.  With an
    Otsu that refuses images of a single value, as scikit-image did, the
    detector raises where the specification has a mask. *)
Lemma detect_water_counts_before_replacing :
  WaterDetectionTask.detect_water otsu_strict true nan_and_sentinel
  ≠ detect_water_as_specified otsu_strict true nan_and_sentinel.
Proof. discriminate. Qed.

Example detect_water_on_nan_and_sentinel :
  WaterDetectionTask.detect_water otsu_strict true nan_and_sentinel
  = (mk_ndarray [1; 2] [Float.neg_one; Float.neg_one], Raise ValueError) ∧
  detect_water_as_specified otsu_strict true nan_and_sentinel
  = (mk_ndarray [1; 2] [Float.neg_one; Float.neg_one],
     Ok (mk_ndarray [1; 2] [false; false])).
Proof. split; reflexivity. Qed.

(** A frame whose only value is NaN keeps its NaN. *)
Example detect_water_keeps_lone_nan :
  WaterDetectionTask.detect_water otsu_zero true (mk_ndarray [1; 1] [nan])
  = (mk_ndarray [1; 1] [nan], Ok (mk_ndarray [1; 1] [false])).
Proof. reflexivity. Qed.

(** C6.  Grids of different sizes go through when the sizes that differ
    are 1 on one side: a nominal extent of one pixel is spread over a
    frame of 2x2 pixels (and the water level comes out as 4.0), and a
    cloud mask of one pixel is spread over a data mask of 2x2 pixels. *)
Lemma mismatched_grids_are_broadcast :
  WaterDetectionTask.execute otsu_strict false patch_mismatch
  = Returned patch_mismatch_after ∧
  calculate_valid_data_mask patch_one_cloud_pixel
  = Ok (mk_ndarray [1; 2; 2; 1] [true; true; false; true]).
Proof. split; reflexivity. Qed.

(** C9.  A nominal extent of a single pixel, which is set, against a
    frame of 2x2 pixels that are all water: the extent is spread over the
    frame, four pixels are counted against one, and the water level is
    4.0. *)
Lemma stretched_extent_lifts_level :
  ∃ nominal eopatch',
    mask_timeless patch_mismatch !! "NOMINAL_WATER" = Some nominal ∧
    np_count_nonzero nominal = 1%Z ∧
    WaterDetectionTask.execute otsu_strict false patch_mismatch = Returned eopatch' ∧
    scalar eopatch' !! "WATER_LEVEL" = Some (mk_ndarray [1; 1] [four]) ∧
    Float.leb four Float.one = false.
Proof. eexists _, _. repeat split; reflexivity. Qed.

(** C8.  The detector writes into the NDWI stack it reads: the NaN of the
    first frame of [patch_lake] is -1 afterwards. *)
Lemma execute_overwrites_nan :
  ∃ eopatch',
    WaterDetectionTask.execute otsu_zero false patch_lake = Returned eopatch' ∧
    data patch_lake !! "NDWI"
    = Some (mk_ndarray [2; 2; 2; 1]
              [half; neg_half; nan; half; half; half; half; half]) ∧
    data eopatch' !! "NDWI"
    = Some (mk_ndarray [2; 2; 2; 1]
              [half; neg_half; Float.neg_one; half; half; half; half; half]) ∧
    data eopatch' ≠ data patch_lake.
Proof.
  eexists. split; [reflexivity|]. split; [reflexivity|]. split; [reflexivity|].
  intros Heq. apply (f_equal (fun d => d !! "NDWI")) in Heq. discriminate Heq.
Qed.
